(** * Changesets: the changeset builder and the changeset serializer

    A shallow embedding of
      - packages/cli/src/commands/add/createChangeset.ts  (the builder),
      - packages/write/src/index.ts                       (the serializer),
      - the earlier revision of the serializer that renders one header
        block per bump type,
    together with the properties stated about them.

    The interactive session is modelled by explicit state passing: the
    world holds the answers the user is going to give (consumed in order by
    the prompts), the transcript of the prompts answered so far, the
    identifiers the id generator is going to produce and the file system. *)

From Stdlib Require Import Ascii.
From stdpp Require Import gmap strings list.

Set Default Proof Using "Type".
Set Warnings "-clear-no-such-hyp".

(** ** Data model (@changesets/types) *)

Inductive VersionType := major | minor | patch | none.

#[global] Instance VersionType_eq_dec : EqDecision VersionType.
Proof. solve_decision. Defined.

Record Release := mkRelease { rel_name : string; rel_type : VersionType }.

#[global] Instance Release_eq_dec : EqDecision Release.
Proof. solve_decision. Defined.

(** [coc_type] is the optional [type] field read by the serializer's
    per-bump-type filter; [None] is an absent field ([undefined]). *)
Record CategoryOfChange := mkCategoryOfChange {
  coc_description : string;
  coc_category : string;
  coc_type : option VersionType
}.

Record Changeset := mkChangeset {
  summary : string;
  releases : list Release;
  categoryOfChangeList : list CategoryOfChange
}.

(** [type ChangesetWithConfirmed = Changeset & { confirmed: boolean }] *)
Record ChangesetWithConfirmed := mkChangesetWithConfirmed {
  cwc_confirmed : bool;
  cwc_summary : string;
  cwc_categoryOfChangeList : list CategoryOfChange;
  cwc_releases : list Release
}.

Definition toChangeset (c : ChangesetWithConfirmed) : Changeset :=
  {| summary := cwc_summary c;
     releases := cwc_releases c;
     categoryOfChangeList := cwc_categoryOfChangeList c |}.

Record PackageJSON := mkPackageJSON { pkg_name : string; pkg_version : string }.

(** [Package] of @manypkg/get-packages. *)
Record Package := mkPackage { packageJson : PackageJSON; dir : string }.

(** ** The world, outcomes and the session monad *)

(** What the environment supplies at a prompt. [Editor None] is an external
    editor that cannot be used: [cli.askQuestionWithEditor] raises. *)
Inductive answer :=
| Text (s : string)
| Editor (r : option string)
| Confirm (b : bool)
| Pick (choice : VersionType)
| Ticks (selected : list string).

#[global] Instance answer_eq_dec : EqDecision answer.
Proof. solve_decision. Defined.

(** One entry of the transcript: the prompt's message and what was answered. *)
Inductive event := Asked (message : string) (a : answer).

#[global] Instance event_eq_dec : EqDecision event.
Proof. solve_decision. Defined.

Record World := mkWorld {
  inputs : list answer;
  trace : list event;             (* newest first *)
  ids : list string;
  files : gmap string string
}.

Inductive Error :=
| ExitError (code : Z)
| TypeError                       (* a property read on [undefined]; semver's Invalid Version *)
| EditorError
| FormatError
| SystemError (code : string).    (* what the file system rejects a call with: ENOENT, ... *)

(** [Pending]: no result. The session waits at a prompt for an answer the
    script does not hold (or holds one the prompt cannot give back), or a
    retry loop never leaves. *)
Inductive outcome (A : Type) :=
| Returned (a : A) (w : World)
| Raised (e : Error) (w : World)
| Pending.
Arguments Returned {A} a w.
Arguments Raised {A} e w.
Arguments Pending {A}.

Definition M (A : Type) : Type := World → outcome A.

Definition ret {A} (a : A) : M A := fun w => Returned a w.

Definition bind {A B} (m : M A) (k : A → M B) : M B := fun w =>
  match m w with
  | Returned a w' => k a w'
  | Raised e w' => Raised e w'
  | Pending => Pending
  end.

Definition raise {A} (e : Error) : M A := fun w => Raised e w.

(** [try { m } catch (err) { handler }] *)
Definition tryCatch {A} (m : M A) (handler : Error → M A) : M A := fun w =>
  match m w with
  | Raised e w' => handler e w'
  | r => r
  end.

Declare Scope session_scope.
Delimit Scope session_scope with session.
Notation "x <- c1 ;; c2" := (bind c1 (fun x => c2))
  (at level 100, c1 at next level, right associativity) : session_scope.
Notation "c1 ;;; c2" := (bind c1 (fun _ => c2))
  (at level 100, right associativity) : session_scope.
Open Scope session_scope.

(** [for (const x of l) { s = body x s }], the loop state threaded through. *)
Fixpoint forOf {A S} (l : list A) (body : A → S → M S) (s : S) : M S :=
  match l with
  | [] => ret s
  | x :: l' => s' <- body x s ;; forOf l' body s'
  end.

(** ** Insertion-ordered sets (JavaScript [Set]) as duplicate-free lists *)

Definition Set_add (s : list string) (x : string) : list string :=
  if decide (x ∈ s) then s else s ++ [x].

(** [new Set(l)] *)
Definition Set_new (l : list string) : list string := foldl Set_add [] l.

(** [s.delete(x)] *)
Definition Set_delete (x : string) (s : list string) : list string :=
  filter (λ y, y ≠ x) s.

Definition VSet_add (s : list VersionType) (x : VersionType) : list VersionType :=
  if decide (x ∈ s) then s else s ++ [x].

Definition VSet_new (l : list VersionType) : list VersionType := foldl VSet_add [] l.

(** ** The prompt layer (cli-utilities) *)

(** chalk with colours switched off: every style is the identity. *)
Definition green (s : string) : string := s.
Definition yellow (s : string) : string := s.
Definition red (s : string) : string := s.
Definition bold (s : string) : string := s.
Definition blue (s : string) : string := s.
Definition cyan (s : string) : string := s.

Definition answered (message : string) (a : answer) (rest : list answer) (w : World) : World :=
  {| inputs := rest; trace := Asked message a :: trace w; ids := ids w; files := files w |}.

(** Modelled from the spec: [cli.askQuestion], [askQuestion(prompt) -> text]. *)
Definition askQuestion (message : string) : M string := fun w =>
  match inputs w with
  | Text s :: rest => Returned s (answered message (Text s) rest w)
  | _ => Pending
  end.

(** Modelled from the spec: [cli.askQuestionWithEditor],
    [askQuestionWithEditor(seedText) -> text] (may raise if no editor is
    available). *)
Definition askQuestionWithEditor (message : string) : M string := fun w =>
  match inputs w with
  | Editor (Some s) :: rest => Returned s (answered message (Editor (Some s)) rest w)
  | Editor None :: rest => Raised EditorError (answered message (Editor None) rest w)
  | _ => Pending
  end.

(** Modelled from the spec: [cli.askConfirm], [askConfirm(prompt) -> boolean]. *)
Definition askConfirm (message : string) : M bool := fun w =>
  match inputs w with
  | Confirm b :: rest => Returned b (answered message (Confirm b) rest w)
  | _ => Pending
  end.

(** Modelled from the spec: [cli.askList],
    [askList(prompt, options) -> selectedOption]: the answer is one of the
    options offered. *)
Definition askList (message : string) (choices : list VersionType) : M VersionType := fun w =>
  match inputs w with
  | Pick c :: rest =>
      if decide (c ∈ choices) then Returned c (answered message (Pick c) rest w)
      else Pending
  | _ => Pending
  end.

(** A checkbox entry: a plain option, or a named group of options. Only the
    keys are kept; the display text of an entry plays no part in the answer. *)
Inductive Choice :=
| Item (name : string)
| Group (name : string) (choices : list string).

Definition keysOf (c : Choice) : list string :=
  match c with
  | Item n => [n]
  | Group n cs => n :: cs
  end.

Definition optionKeys (choices : list Choice) : list string := flat_map keysOf choices.

(** Modelled from the spec: [cli.askCheckboxPlus],
    [askCheckboxPlus(prompt, groupedOrFlatOptions, formatSelectionFn) ->
    list of selected option keys]: every key returned was offered, and a key
    is returned once. The third argument only formats the echo of the
    selection and is left out. *)
Definition askCheckboxPlus (message : string) (choices : list Choice) : M (list string) := fun w =>
  match inputs w with
  | Ticks sel :: rest =>
      if decide (NoDup sel ∧ sel ⊆ optionKeys choices)
      then Returned sel (answered message (Ticks sel) rest w)
      else Pending
  | _ => Pending
  end.

(** ** The builder: packages/cli/src/commands/add/createChangeset.ts *)

Definition nl : string := String "010"%char EmptyString.

Definition allCategoriesOfChange : list string :=
  [ "Added (New functionality, arg options, more UI elements)";
    "Changed (Visual changes, internal changes, API changes)";
    "Removed (Dead code, feature flags, consumer API's)";
    "Types (Strictly related to the type system and should not have impact on runtime code) ";
    "Documentation (README, general docs, package.json metadata)";
    "Infra (Tooling, performance, things that are under the hood but should have no impact if a consumer upgraded)";
    "Misc (Anything else not noted above)" ].

(** [kind.split(" ")[0]]: the text before the first space (all of [kind]
    when it has none). *)
Fixpoint getKindTitle (kind : string) : string :=
  match kind with
  | EmptyString => EmptyString
  | String c rest =>
      if decide (c = " "%char) then EmptyString else String c (getKindTitle rest)
  end.

(** [new Map(entries)]: a later entry replaces an earlier one with its key. *)
Definition Map_new {V} (entries : list (string * V)) : gmap string V :=
  foldl (λ m e, <[e.1 := e.2]> m) ∅ entries.

Definition isEmpty (s : string) : bool := bool_decide (String.length s = 0).

(** [while (summary.length === 0) summary = await cli.askQuestion(message)]:
    every turn takes one answer, so the loop runs down the script. *)
Fixpoint askWhileEmpty (message : string) (summary : string)
    (script : list answer) (w : World) : outcome string :=
  if isEmpty summary then
    match script with
    | Text s :: rest => askWhileEmpty message s rest (answered message (Text s) rest w)
    | _ => Pending
    end
  else Returned summary w.

Definition whileEmpty (message : string) (summary : string) : M string :=
  fun w => askWhileEmpty message summary (inputs w) w.

Definition summaryEditorSeed : string :=
  nl +:+ nl +:+ "# Please enter a summary for your changes." +:+ nl +:+
  "# An empty message aborts the editor.".

(** The message of line 84, with the characters the file holds there. *)
Definition summaryRequired : string :=
  nl +:+ nl +:+ "# A summary is required for the changelog! ðŸ˜ª".

(** [setSummary] writes [summary] and [confirmed] of the changeset it is
    given; here it returns the changeset so updated. The [log] lines put
    nothing in the result and are left out, here and below. *)
Definition setSummary (changeSet : ChangesetWithConfirmed) : M ChangesetWithConfirmed :=
  let set (summary : string) (confirmed : bool) :=
    {| cwc_confirmed := confirmed;
       cwc_summary := summary;
       cwc_categoryOfChangeList := cwc_categoryOfChangeList changeSet;
       cwc_releases := cwc_releases changeSet |} in
  summary <- askQuestion "Summary" ;;
  if isEmpty summary then
    fromEditor <- tryCatch
      (summary <- askQuestionWithEditor summaryEditorSeed ;;
       ret (if isEmpty summary then None else Some summary))
      (fun _ => ret None) ;;
    match fromEditor with
    | Some summary => ret (set summary true)
    | None =>
        summary <- askQuestion "" ;;
        summary <- whileEmpty summaryRequired summary ;;
        ret (set summary false)
    end
  else ret (set summary false).

(** [chooseAtLeastOne]: the retry loop. It is given as many turns as the
    script held answers before the first call: a callback that takes an
    answer at every call cannot use them up ([chooseAtLeastOne_retry_turns]);
    a loop that runs out of turns never leaves. *)
Fixpoint chooseAtLeastOne_retry {A} (turns : nat) (callbackToRetry : M (list A))
    (selectedItems : list A) : M (list A) :=
  match selectedItems with
  | [] =>
      match turns with
      | 0 => fun _ => Pending
      | S turns' =>
          selectedItems <- callbackToRetry ;;
          chooseAtLeastOne_retry turns' callbackToRetry selectedItems
      end
  | _ => ret selectedItems
  end.

Definition chooseAtLeastOne {A} (callbackToRetry : M (list A)) (errorMessage : string)
    : M (list A) := fun w =>
  (selectedItems <- callbackToRetry ;;
   chooseAtLeastOne_retry (length (inputs w)) callbackToRetry selectedItems) w.

Definition groupChoices (c : Choice) : list string :=
  match c with
  | Item _ => []
  | Group _ cs => cs
  end.

Definition askInitialReleaseQuestion (defaultChoiceList : list Choice) : M (list string) :=
  askCheckboxPlus "Which packages would you like to include?" defaultChoiceList.

Definition getPackagesToRelease (changedPackages : list string)
    (allPackages : list Package) : M (list string) :=
  if decide (1 < length allPackages) then
    let unchangedPackagesNames :=
      filter (λ name, name ∉ changedPackages)
             (map (λ p, pkg_name (packageJson p)) allPackages) in
    let defaultChoiceList :=
      filter (λ g, length (groupChoices g) ≠ 0)
        [ Group "changed packages" changedPackages;
          Group "unchanged packages" unchangedPackagesNames ] in
    packagesToRelease <- chooseAtLeastOne
      (askInitialReleaseQuestion defaultChoiceList)
      "You must select at least one package to release" ;;
    ret (filter (λ pkgName, pkgName ≠ "changed packages" ∧ pkgName ≠ "unchanged packages")
                packagesToRelease)
  else
    match allPackages with
    | [] => raise TypeError
    | p :: _ => ret [pkg_name (packageJson p)]
    end.

Definition formatPkgNameAndVersion (pkgName version : string) : string :=
  bold pkgName +:+ "@" +:+ bold version.

Section Builder.

(** [semver.lt] of the semver package. *)
(** [None]: [semver.lt] throws its [TypeError] (Invalid Version) on a
    version that it cannot parse. *)
Variable semver_lt : string → string → option bool.

Definition firstMajorQuestion (name : string) : string :=
  bold ("Are you sure you want to release the " +:+ red "first major version" +:+
        " of " +:+ name +:+ "?").

Definition confirmMajorRelease (pkgJSON : PackageJSON) : M bool :=
  match semver_lt (pkg_version pkgJSON) "1.0.0" with
  | Some true =>
      shouldReleaseFirstMajor <- askConfirm (firstMajorQuestion (pkg_name pkgJSON)) ;;
      ret shouldReleaseFirstMajor
  | Some false => ret true
  | None => raise TypeError
  end.

(** [pkgJsonsByName.get(pkgName)!]: reading a property of the result raises
    when the map has no such package. *)
Definition getPkgJson (pkgJsonsByName : gmap string PackageJSON) (pkgName : string)
    : M PackageJSON :=
  match pkgJsonsByName !! pkgName with
  | Some pkgJson => ret pkgJson
  | None => raise TypeError
  end.

(** The [choices] of a bump prompt: one entry per package, keyed by its
    name; its display text reads the package's version in the map. *)
Definition packageChoices (pkgJsonsByName : gmap string PackageJSON)
    (pkgNames : list string) : M (list string) :=
  forOf pkgNames
    (λ pkgName choices,
       pkgJson <- getPkgJson pkgJsonsByName pkgName ;;
       let message := formatPkgNameAndVersion pkgName (pkg_version pkgJson) in
       ret (choices ++ [pkgName]))
    [].

Definition majorQuestion : string :=
  bold ("Which packages should have a " +:+ red "major" +:+ " bump?").

Definition minorQuestion : string :=
  bold ("Which packages should have a " +:+ green "minor" +:+ " bump?").

(** The state of the elimination: [pkgsLeftToGetBumpTypeFor] and [releases]. *)
Definition Rounds : Type := list string * list Release.

(** Lines 202-245: the major prompt and its loop. *)
Definition majorRound (pkgJsonsByName : gmap string PackageJSON)
    (packagesToRelease : list string) (st : Rounds) : M Rounds :=
  choices <- packageChoices pkgJsonsByName packagesToRelease ;;
  selected <- askCheckboxPlus majorQuestion [Group "all packages" choices] ;;
  let pkgsThatShouldBeMajorBumped := filter (λ x, x ≠ "all packages") selected in
  forOf pkgsThatShouldBeMajorBumped
    (λ pkgName st,
       pkgJson <- getPkgJson pkgJsonsByName pkgName ;;
       shouldReleaseFirstMajor <- confirmMajorRelease pkgJson ;;
       if (shouldReleaseFirstMajor : bool) then
         ret (Set_delete pkgName st.1, st.2 ++ [mkRelease pkgName major])
       else ret st)
    st.

(** Lines 247-284: the minor prompt and its loop. *)
Definition minorRound (pkgJsonsByName : gmap string PackageJSON) (st : Rounds) : M Rounds :=
  if decide (length st.1 ≠ 0) then
    choices <- packageChoices pkgJsonsByName st.1 ;;
    selected <- askCheckboxPlus minorQuestion [Group "all packages" choices] ;;
    let pkgsThatShouldBeMinorBumped := filter (λ x, x ≠ "all packages") selected in
    forOf pkgsThatShouldBeMinorBumped
      (λ pkgName st,
         ret (Set_delete pkgName st.1, st.2 ++ [mkRelease pkgName minor]))
      st
  else ret st.

(** Lines 286-297: what is left is patch bumped. *)
Definition patchRound (pkgJsonsByName : gmap string PackageJSON) (st : Rounds) : M Rounds :=
  if decide (length st.1 ≠ 0) then
    forOf st.1
      (λ pkgName (_ : unit),
         pkgJson <- getPkgJson pkgJsonsByName pkgName ;;
         let line := formatPkgNameAndVersion pkgName (pkg_version pkgJson) in
         ret ())
      () ;;;
    releases <- forOf st.1
      (λ pkgName releases, ret (releases ++ [mkRelease pkgName patch]))
      st.2 ;;
    ret (st.1, releases)
  else ret st.

(** Lines 184 and 202-297: severities by successive elimination over
    [pkgsLeftToGetBumpTypeFor = new Set(packagesToRelease)]. Building the
    set and the map asks nothing, so the category prompt of line 186 can be
    taken before this whole block. *)
Definition assignBumpTypes (pkgJsonsByName : gmap string PackageJSON)
    (packagesToRelease : list string) : M (list Release) :=
  st <- majorRound pkgJsonsByName packagesToRelease (Set_new packagesToRelease, []) ;;
  st <- minorRound pkgJsonsByName st ;;
  st <- patchRound pkgJsonsByName st ;;
  ret st.2.

Definition kindOfChangeQuestion : string :=
  bold "What kind of change are you making? (check all that apply)".

Definition reuseQuestion : string :=
  "Would you like to reuse the same message for all packages of this bump type?".

(** The inner loop of lines 313-318 and of lines 325-330: one description
    per chosen category, pushed as [{ description, category }]. *)
Definition describeCategories (chosenCategoryOfChangeList : list string)
    (categories : list CategoryOfChange) : M (list CategoryOfChange) :=
  forOf chosenCategoryOfChangeList
    (λ category categories,
       description <- askQuestion ("[ " +:+ getKindTitle category +:+ " ]") ;;
       ret (categories ++
            [ {| coc_description := description; coc_category := category;
                 coc_type := None |} ]))
    categories.

(** Lines 298-339, entered when [shouldAskChangeTypes]: the values of
    [categoryOfChangeList] and of [changesetList] when the block is left. *)
Definition askChangeTypes (chosenCategoryOfChangeList : list string)
    (releases : list Release)
    : M (list CategoryOfChange * list ChangesetWithConfirmed) :=
  let bumpTypes := VSet_new (map rel_type releases) in
  isSameMessageForAllPkgs <- askConfirm reuseQuestion ;;
  if (isSameMessageForAllPkgs : bool) then
    categoryOfChangeList <- forOf bumpTypes
      (λ bumpType categoryOfChangeList,
         let pkgsForThisBumpType :=
           String.concat ", "
             (map rel_name (filter (λ rel, rel_type rel = bumpType) releases)) in
         describeCategories chosenCategoryOfChangeList categoryOfChangeList)
      [] ;;
    ret (categoryOfChangeList, [])
  else
    changesetList <- forOf releases
      (λ release changesetList,
         currChangesetCategoryOfChangeList <-
           describeCategories chosenCategoryOfChangeList [] ;;
         ret (changesetList ++
              [ {| cwc_confirmed := true;
                   cwc_summary := "";
                   cwc_categoryOfChangeList := currChangesetCategoryOfChangeList;
                   cwc_releases := [release] |} ]))
      [] ;;
    ret ([], changesetList).

(** Lines 356-369: the changeset of the plain flow, then a summary for every
    changeset of the list. *)
Definition finishChangesets (shouldAskChangeTypes : bool) (releases : list Release)
    (changesetList : list ChangesetWithConfirmed) : M (list ChangesetWithConfirmed) :=
  let changesetList :=
    if negb shouldAskChangeTypes then
      changesetList ++
      [ {| cwc_confirmed := false;
           cwc_summary := "";
           cwc_categoryOfChangeList := [];
           cwc_releases := releases |} ]
    else changesetList in
  forOf changesetList
    (λ changeset summarised,
       changeset' <- setSummary changeset ;;
       ret (summarised ++ [changeset']))
    [].

Definition kindOfBumpQuestion (pkgJSON : PackageJSON) : string :=
  "What kind of change is this for " +:+ green (pkg_name pkgJSON) +:+
  "? (current version is " +:+ pkg_version pkgJSON +:+ ")".

Definition createChangeset (changedPackages : list string)
    (allPackages : list Package) : M (list ChangesetWithConfirmed) :=
  if decide (1 < length allPackages) then
    packagesToRelease <- getPackagesToRelease changedPackages allPackages ;;
    let pkgJsonsByName :=
      Map_new (map (λ p, (pkg_name (packageJson p), packageJson p)) allPackages) in
    chosenCategoryOfChangeList <-
      askCheckboxPlus kindOfChangeQuestion (map Item allCategoriesOfChange) ;;
    let shouldAskChangeTypes := bool_decide (0 < length chosenCategoryOfChangeList) in
    releases <- assignBumpTypes pkgJsonsByName packagesToRelease ;;
    lists <- (if shouldAskChangeTypes
              then askChangeTypes chosenCategoryOfChangeList releases
              else ret ([], [])) ;;
    finishChangesets shouldAskChangeTypes releases lists.2
  else
    match allPackages with
    | [] => raise TypeError
    | pkg :: _ =>
        type <- askList (kindOfBumpQuestion (packageJson pkg)) [patch; minor; major] ;;
        (if decide (type = major) then
           shouldReleaseAsMajor <- confirmMajorRelease (packageJson pkg) ;;
           if (shouldReleaseAsMajor : bool) then ret () else raise (ExitError 1)
         else ret ()) ;;;
        finishChangesets false [mkRelease (pkg_name (packageJson pkg)) type] []
    end.

End Builder.

(** A [semver.lt] for the examples. A version written [N.N.N] is read, and
    is below 1.0.0 exactly when it begins with [0.]; on a version that is
    not three runs of digits, as [1.0], [semver.lt] throws. *)
Definition isDigit (c : ascii) : bool :=
  Nat.leb 48 (nat_of_ascii c) && Nat.leb (nat_of_ascii c) 57.

(** [dots]: the dots read so far; [digits]: the current run is not empty. *)
Fixpoint threeRuns (version : string) (dots : nat) (digits : bool) : bool :=
  match version with
  | EmptyString => digits && Nat.eqb dots 2
  | String c rest =>
      if isDigit c then threeRuns rest dots true
      else if decide (c = "."%char) then digits && threeRuns rest (S dots) false
      else false
  end.

Definition lt_by_leading_zero (version bound : string) : option bool :=
  if threeRuns version 0 false then
    Some match version with
         | String "0" (String "." _) => true
         | _ => false
         end
  else None.

Definition session (script : list answer) : World :=
  {| inputs := script; trace := []; ids := []; files := ∅ |}.

Definition pkg (name version : string) : Package :=
  {| packageJson := {| pkg_name := name; pkg_version := version |}; dir := "packages/" +:+ name |}.

(** ** The serializer *)

Definition dquote : string := String "034"%char EmptyString.

(** A [VersionType] inside a template literal. *)
Definition bumpTypeText (t : VersionType) : string :=
  match t with
  | major => "major"
  | minor => "minor"
  | patch => "patch"
  | none => "none"
  end.

(** The object [{ major, minor, patch, none }] that [groupByBumpType] returns. *)
Record Grouped := mkGrouped {
  g_major : list Release;
  g_minor : list Release;
  g_patch : list Release;
  g_none : list Release
}.

(** [groupByBumpType], the same in both revisions of the serializer. *)
Definition groupByBumpType (releases : list Release) : Grouped :=
  foldl
    (λ g rel,
       match rel_type rel with
       | major => mkGrouped (g_major g ++ [rel]) (g_minor g) (g_patch g) (g_none g)
       | minor => mkGrouped (g_major g) (g_minor g ++ [rel]) (g_patch g) (g_none g)
       | patch => mkGrouped (g_major g) (g_minor g) (g_patch g ++ [rel]) (g_none g)
       | _ => mkGrouped (g_major g ++ [rel]) (g_minor g) (g_patch g) (g_none g)
       end)
    (mkGrouped [] [] [] [])
    releases.

(** [Object.entries] of that object: its keys in the order they were written. *)
Definition Object_entries (g : Grouped) : list (VersionType * list Release) :=
  [ (major, g_major g); (minor, g_minor g); (patch, g_patch g); (none, g_none g) ].

Definition releaseLine (release : Release) : string :=
  dquote +:+ rel_name release +:+ dquote +:+ ": " +:+ bumpTypeText (rel_type release).

Definition categoryLine (chk : CategoryOfChange) : string :=
  "- [ " +:+ getKindTitle (coc_category chk) +:+ " ] " +:+ coc_description chk.

(** What the serializer asks of its collaborators. *)
Inductive fallible (A : Type) :=
| Done (a : A)
| Throws (e : Error).
Arguments Done {A} a.
Arguments Throws {A} e.

Definition lift {A} (r : fallible A) : M A := fun w =>
  match r with
  | Done a => Returned a w
  | Throws e => Raised e w
  end.

(** [humanId(...)]: the next identifier of the generator. *)
Definition humanId : M string := fun w =>
  match ids w with
  | id :: rest =>
      Returned id {| inputs := inputs w; trace := trace w; ids := rest; files := files w |}
  | [] => Pending
  end.

(** [path.resolve(base, segment)] for a plain segment. *)
Definition path_resolve (base segment : string) : string := base +:+ "/" +:+ segment.

(** What the file system does with a write that it rejects (a directory
    that is missing, a disk that is full, ...): the error, and the files it
    leaves behind. [None]: the write goes through. *)
Definition Rejects : Type :=
  string → string → gmap string string → option (Error * gmap string string).

(** [fs.writeFile(path, data)] *)
Definition fs_writeFile (rejects : Rejects) (path data : string) : M unit := fun w =>
  match rejects path data (files w) with
  | Some (e, remaining) =>
      Raised e {| inputs := inputs w; trace := trace w; ids := ids w; files := remaining |}
  | None =>
      Returned () {| inputs := inputs w; trace := trace w; ids := ids w;
                     files := <[path := data]> (files w) |}
  end.

(** *** packages/write/src/index.ts *)
Module Write.

Definition getReleasesSection (releases : list Release) : string :=
  "---" +:+ nl +:+ String.concat nl (map releaseLine releases) +:+ nl +:+ "---" +:+ nl.

Definition getChangeTypesSection (changeTypes : list CategoryOfChange)
    (bumpType : option VersionType) : string :=
  let filtered :=
    match bumpType with
    | Some bumpType => filter (λ c, coc_type c = Some bumpType) changeTypes
    | None => changeTypes
    end in
  String.concat nl (map categoryLine filtered) +:+ nl.

Definition getReleasesAndChangeTypes (releases : list Release)
    (categoryOfChangeList : list CategoryOfChange) (splitReleasesByBumpType : bool)
    : string :=
  if splitReleasesByBumpType && bool_decide (length categoryOfChangeList ≠ 0) then
    let grouped :=
      filter (λ e, length e.2 ≠ 0) (Object_entries (groupByBumpType releases)) in
    String.concat nl
      (map (λ e, getReleasesSection e.2 +:+ nl +:+
                 getChangeTypesSection categoryOfChangeList (Some e.1))
           grouped)
  else if bool_decide (length categoryOfChangeList ≠ 0) then
    getReleasesSection releases +:+ " " +:+ nl +:+ "  " +:+
    getChangeTypesSection categoryOfChangeList None
  else getReleasesSection releases.

(** [changesetContents]: the text handed to the formatter. *)
Definition changesetContents (changeset : Changeset) : string :=
  let releasesGroupedByBumpTypes :=
    getReleasesAndChangeTypes (releases changeset) (categoryOfChangeList changeset) false in
  releasesGroupedByBumpTypes +:+ nl +:+ nl +:+ summary changeset +:+ nl +:+ "  ".

Section Formatter.

Variable Config : Type.
(** [prettier.resolveConfig(cwd)]: the configuration found from [cwd], if any. *)
Variable resolveConfig : string → gmap string string → fallible (option Config).
(** [prettier.format(text, { ...config, parser: "markdown" })] *)
Variable format : string → option Config → fallible string.
(** The writes that the file system rejects. *)
Variable rejects : Rejects.

Definition writeChangeset (changeset : Changeset) (cwd : string) : M string :=
  let changesetBase := path_resolve cwd ".changeset" in
  changesetID <- humanId ;;
  prettierConfig <- (fun w => lift (resolveConfig cwd (files w)) w) ;;
  let newChangesetPath := path_resolve changesetBase (changesetID +:+ ".md") in
  formatted <- lift (format (changesetContents changeset) prettierConfig) ;;
  fs_writeFile rejects newChangesetPath formatted ;;;
  ret changesetID.

End Formatter.

End Write.

(** *** The revision of the serializer with one block per bump type *)
Module WriteByBumpType.

Definition getReleasesSection (releases : list Release) : string :=
  "---" +:+ nl +:+ String.concat nl (map releaseLine releases) +:+ nl +:+ "---".

Definition getChangeTypesSection (changeTypes : list CategoryOfChange)
    (bumpType : VersionType) : string :=
  String.concat nl
    (map categoryLine (filter (λ c, coc_type c = Some bumpType) changeTypes)).

(** The entries that get a block: [Object.entries(...).filter(...)]. *)
Definition blocks (releases : list Release) : list (VersionType * list Release) :=
  filter (λ e, length e.2 ≠ 0) (Object_entries (groupByBumpType releases)).

Definition renderBlock (categoryOfChangeList : list CategoryOfChange)
    (e : VersionType * list Release) : string :=
  getReleasesSection e.2 +:+ " " +:+ nl +:+ getChangeTypesSection categoryOfChangeList e.1.

Definition changesetContents (changeset : Changeset) : string :=
  let releasesGroupedByBumpTypes :=
    String.concat nl
      (map (renderBlock (categoryOfChangeList changeset)) (blocks (releases changeset))) in
  (if bool_decide (length (categoryOfChangeList changeset) ≠ 0)
   then releasesGroupedByBumpTypes
   else getReleasesSection (releases changeset))
  +:+ nl +:+ nl +:+ summary changeset +:+ nl +:+ "  ".

Section Formatter.

Variable Config : Type.
Variable resolveConfig : string → gmap string string → fallible (option Config).
Variable format : string → option Config → fallible string.
Variable rejects : Rejects.

Definition writeChangeset (changeset : Changeset) (cwd : string) : M string :=
  let changesetBase := path_resolve cwd ".changeset" in
  changesetID <- humanId ;;
  prettierConfig <- (fun w => lift (resolveConfig cwd (files w)) w) ;;
  let newChangesetPath := path_resolve changesetBase (changesetID +:+ ".md") in
  formatted <- lift (format (changesetContents changeset) prettierConfig) ;;
  fs_writeFile rejects newChangesetPath formatted ;;;
  ret changesetID.

End Formatter.

End WriteByBumpType.

(** ** Reading a header back *)

Definition nlChar : ascii := "010"%char.
Definition quoteChar : ascii := "034"%char.

Fixpoint hasChar (c : ascii) (s : string) : bool :=
  match s with
  | EmptyString => false
  | String c' rest => bool_decide (c' = c) || hasChar c rest
  end.

Fixpoint splitLines (s : string) : list string :=
  match s with
  | EmptyString => [EmptyString]
  | String c rest =>
      if decide (c = nlChar) then EmptyString :: splitLines rest
      else match splitLines rest with
           | [] => [String c EmptyString]
           | line :: more => String c line :: more
           end
  end.

(** The text up to the next double quote, and the text after that quote. *)
Fixpoint untilQuote (s : string) : option (string * string) :=
  match s with
  | EmptyString => None
  | String c rest =>
      if decide (c = quoteChar) then Some (EmptyString, rest)
      else match untilQuote rest with
           | Some (name, after) => Some (String c name, after)
           | None => None
           end
  end.

Definition parseBumpType (s : string) : option VersionType :=
  if decide (s = "major") then Some major
  else if decide (s = "minor") then Some minor
  else if decide (s = "patch") then Some patch
  else if decide (s = "none") then Some none
  else None.

(** [s] without its prefix [p], when it begins with [p]. *)
Fixpoint stripPrefix (p s : string) : option string :=
  match p, s with
  | EmptyString, _ => Some s
  | String c p', String c' s' => if decide (c = c') then stripPrefix p' s' else None
  | String _ _, EmptyString => None
  end.

(** One header line: a quoted name, a colon, a space and a bump type. *)
Definition parseReleaseLine (line : string) : option Release :=
  rest ← stripPrefix dquote line;
  '(name, after) ← untilQuote rest;
  bumpType ← stripPrefix ": " after;
  t ← parseBumpType bumpType;
  Some (mkRelease name t).

(** The lines before the closing delimiter. *)
Fixpoint headerLines (lines : list string) : option (list string) :=
  match lines with
  | [] => None
  | line :: more =>
      if decide (line = "---") then Some []
      else match headerLines more with
           | Some header => Some (line :: header)
           | None => None
           end
  end.

Fixpoint parseReleaseLines (lines : list string) : option (list Release) :=
  match lines with
  | [] => Some []
  | line :: more =>
      match parseReleaseLine line, parseReleaseLines more with
      | Some r, Some rs => Some (r :: rs)
      | _, _ => None
      end
  end.

(** Modelled from the spec: the header reader of the release tool that
    consumes the document, which is not part of these sources. The document
    opens with a [---] line; the header runs to the next [---] line; each of
    its lines that is not blank is a quoted package name, a colon and a bump
    type. *)
Definition parseHeader (document : string) : option (list Release) :=
  match splitLines document with
  | first :: more =>
      if decide (first = "---") then
        match headerLines more with
        | Some header => parseReleaseLines (filter (λ l, l ≠ EmptyString) header)
        | None => None
        end
      else None
  | [] => None
  end.

(** ** Notions used in the statements *)

(** The bucket a release is counted under by [groupByBumpType]: its own type,
    and major for a type that is none of major, minor and patch. *)
Definition bucketOf (t : VersionType) : VersionType :=
  match t with
  | minor => minor
  | patch => patch
  | _ => major
  end.

(** Category records without a [type] field. *)
Definition untyped (categories : list CategoryOfChange) : Prop :=
  Forall (λ c, coc_type c = None) categories.

(** A package name that can sit between double quotes on a line of its own. *)
Definition quotable (name : string) : Prop :=
  hasChar quoteChar name = false ∧ hasChar nlChar name = false.

(** The names of the releases of one bump type. *)
Definition namesOf (t : VersionType) (rels : list Release) : list string :=
  map rel_name (filter (λ r, rel_type r = t) rels).

(** [e] was put on the transcript between [w] and [w']. *)
Definition askedDuring (w w' : World) (e : event) : Prop :=
  ∃ evs, trace w' = evs ++ trace w ∧ e ∈ evs.

Definition pkgNames (allPackages : list Package) : list string :=
  map (λ p, pkg_name (packageJson p)) allPackages.

(** Between [w] and [w'] the transcript grew, by events that satisfy [P]. *)
Definition grows (P : event → Prop) (w w' : World) : Prop :=
  ∃ evs, trace w' = evs ++ trace w ∧ Forall P evs.

(** Kinds of transcript entries. *)
Definition textual (e : event) : Prop :=
  match e with
  | Asked _ (Text _) | Asked _ (Editor _) => True
  | _ => False
  end.

Definition ticked (e : event) : Prop :=
  match e with
  | Asked _ (Ticks _) => True
  | _ => False
  end.

(** What the bump rounds put on the transcript: checkbox answers, and
    answers to the first-major question of some package. *)
Definition bumpEvent (e : event) : Prop :=
  match e with
  | Asked _ (Ticks _) => True
  | Asked message (Confirm _) => ∃ name, message = firstMajorQuestion name
  | _ => False
  end.

(** The map of a workspace, as [createChangeset] builds it. *)
Definition pkgJsonsByNameOf (allPackages : list Package) : gmap string PackageJSON :=
  Map_new (map (λ p, (pkg_name (packageJson p), packageJson p)) allPackages).

(** Where the loop of the major round stands: the packages of [rest] are
    still to be asked about and still unassigned; what was assigned so far
    is major and is gone from the working set. *)
Definition majorInv (left0 : list string) (w0 : World)
    (rest : list string) (st : Rounds) (w : World) : Prop :=
  NoDup rest ∧ (∀ x, x ∈ rest → x ∈ st.1) ∧
  NoDup (map rel_name st.2) ∧ map rel_name st.2 ⊆ left0 ∧
  Forall (λ r, rel_type r = major) st.2 ∧
  st.1 = filter (λ y, y ∉ map rel_name st.2) left0 ∧
  grows bumpEvent w0 w ∧ files w = files w0 ∧
  ∀ q b, askedDuring w0 w (Asked (firstMajorQuestion q) (Confirm b)) →
         (q ∉ rest) ∧ (b = false → q ∈ st.1).

(** The user picked major for a package below 1.0.0 and answered no to the
    first-major question. *)
Definition declinesFirstMajor (semver_lt : string → string → option bool)
    (p : Package) (w : World) : Prop :=
  semver_lt (pkg_version (packageJson p)) "1.0.0" = Some true ∧
  ∃ rest, inputs w = Pick major :: Confirm false :: rest.

(** The records that [describeCategories] builds from the descriptions
    typed for the chosen categories. *)
Definition describe (descriptions : list string) (chosen : list string)
    : list CategoryOfChange :=
  zip_with (λ d c, mkCategoryOfChange d c None) descriptions chosen.

(** The changeset pushed for one release when the reuse question is
    answered no. *)
Definition perRelease (chosen : list string) (release : Release)
    (descriptions : list string) : ChangesetWithConfirmed :=
  {| cwc_confirmed := true;
     cwc_summary := EmptyString;
     cwc_categoryOfChangeList := describe descriptions chosen;
     cwc_releases := [release] |}.

(** A changeset after [setSummary] took a summary typed at its first
    question. *)
Definition summarised (c : ChangesetWithConfirmed) (summary : string)
    : ChangesetWithConfirmed :=
  {| cwc_confirmed := false;
     cwc_summary := summary;
     cwc_categoryOfChangeList := cwc_categoryOfChangeList c;
     cwc_releases := cwc_releases c |}.

(** ** Example sessions *)

(** Three packages; [b] is below 1.0.0. *)
Definition workspace : list Package :=
  [pkg "a" "1.0.0"; pkg "b" "0.2.0"; pkg "c" "1.0.0"].

Definition added : string := "Added (New functionality, arg options, more UI elements)".
Definition changed : string := "Changed (Visual changes, internal changes, API changes)".

(** All three packages, no category; [a] and [b] ticked for major, the first
    major of [b] declined; [b] ticked for minor; one summary. *)
Definition plainScript : list answer :=
  [ Ticks ["changed packages"; "a"; "b"; "unchanged packages"; "c"];
    Ticks [];
    Ticks ["a"; "b"]; Confirm false;
    Ticks ["b"];
    Text "Fix the cache" ].

(** Packages [a] and [b], two categories; [a] major, [b] patch; the same
    message for all packages of a bump type. *)
Definition reuseScript : list answer :=
  [ Ticks ["a"; "b"];
    Ticks [added; changed];
    Ticks ["a"]; Ticks [];
    Confirm true;
    Text "a flag"; Text "the cache"; Text "b flag"; Text "b cache" ].

(** The same, with a message of its own for every release, and then the
    summaries: one typed, one from the editor. *)
Definition perReleaseScript : list answer :=
  [ Ticks ["a"; "b"];
    Ticks [added; changed];
    Ticks ["a"]; Ticks [];
    Confirm false;
    Text "a flag"; Text "the cache"; Text "b flag"; Text "b cache";
    Text "Summary of a";
    Text ""; Editor (Some "Summary of b") ].

(** A name that closes its own quotes. *)
Definition splitName : string :=
  "x" +:+ dquote +:+ ": major" +:+ nl +:+ dquote +:+ "y".

(** ** The summary prompts: src/unnamed/part_001

    [ChangesetType] comes from @changesets/types; only its [tag] is read. *)

Record ChangesetType := mkChangesetType { tag : string }.

Module GetSummary.

(** [changeType ? " for change [" + changeType.tag + "]" : ""] *)
Definition fotChangeTypeinsertion (changeType : option ChangesetType) : string :=
  match changeType with
  | Some changeType => " for change [" +:+ tag changeType +:+ "]"
  | None => EmptyString
  end.

(** The text the editor opens with. *)
Definition editorSeed (changeType : option ChangesetType) : string :=
  nl +:+ nl +:+ "# Please enter a summary for your changes" +:+
  fotChangeTypeinsertion changeType +:+ "." +:+ nl +:+
  "# An empty message aborts the editor.".

(** The message of line 49 of part_001. *)
Definition summaryRequired : string :=
  nl +:+ nl +:+ "# A summary is required for the changelog! 😪".

(** [getSingleSummary(changeType?)]: [None] is a call without argument. The
    [try] block gives the text of the editor when it is not empty; an empty
    text and a raise both go on to the questions below. *)
Definition getSingleSummary (changeType : option ChangesetType) : M string :=
  summary <- askQuestion ("Summary" +:+ fotChangeTypeinsertion changeType) ;;
  if isEmpty summary then
    fromEditor <- tryCatch
      (summary <- askQuestionWithEditor (editorSeed changeType) ;;
       ret (if isEmpty summary then None else Some summary))
      (fun _ => ret None) ;;
    match fromEditor with
    | Some summary => ret summary
    | None =>
        summary <- askQuestion EmptyString ;;
        whileEmpty summaryRequired summary
    end
  else ret summary.

(** [type SummaryPart = { changeType: ChangesetType; summaryPart: string }] *)
Record SummaryPart := mkSummaryPart {
  changeType : ChangesetType;
  summaryPart : string
}.

(** [parts.reduce((reducer, part) => reducer + prefix + partStr, "")] *)
Definition ConcatSummaryParts (parts : list SummaryPart) : string :=
  foldl
    (λ reducer part,
       let prefix := if bool_decide (String.length reducer ≠ 0) then nl +:+ nl
                     else EmptyString in
       let partStr := " - [" +:+ tag (changeType part) +:+ "] " +:+ summaryPart part in
       reducer +:+ prefix +:+ partStr)
    EmptyString
    parts.

(** [getSummary(changeTypes?)]: [None] is a call without argument; an empty
    list is as good as none. *)
Definition getSummary (changeTypes : option (list ChangesetType)) : M string :=
  match changeTypes with
  | Some (c :: cs) =>
      summaryParts <- forOf (c :: cs)
        (λ changeType summaryParts,
           part <- getSingleSummary (Some changeType) ;;
           ret (summaryParts ++ [mkSummaryPart changeType part]))
        [] ;;
      ret (ConcatSummaryParts summaryParts)
  | _ => getSingleSummary None
  end.

(** One bullet of the concatenated summary. *)
Definition partText (part : SummaryPart) : string :=
  " - [" +:+ tag (changeType part) +:+ "] " +:+ summaryPart part.

End GetSummary.

(** The path of the file of a changeset. *)
Definition changesetPath (cwd id : string) : string :=
  path_resolve (path_resolve cwd ".changeset") (id +:+ ".md").

(** The script of a user who ticks nothing [k] times, then ticks [selected]. *)
Definition afterEmptyTicks (k : nat) (selected : list string) (rest : list answer)
    : list answer :=
  replicate k (Ticks []) ++ Ticks selected :: rest.

(** The script of a user who leaves the summary empty, has no editor text
    to give ([editor] raises or is empty), leaves the question empty [k]
    more times and then types [summary]. *)
Definition insistedSummary (editor : option string) (k : nat) (summary : string)
    (rest : list answer) : list answer :=
  Text EmptyString :: Editor editor :: replicate k (Text EmptyString) ++
  Text summary :: rest.

(** What [setSummary] makes of a changeset: the two fields it writes. *)
Definition withSummary (confirmed : bool) (changeSet : ChangesetWithConfirmed)
    (summary : string) : ChangesetWithConfirmed :=
  {| cwc_confirmed := confirmed;
     cwc_summary := summary;
     cwc_categoryOfChangeList := cwc_categoryOfChangeList changeSet;
     cwc_releases := cwc_releases changeSet |}.

(** The user picked major for a package whose version [semver.lt] cannot
    parse. *)
Definition picksMajorUnreadable (semver_lt : string → string → option bool)
    (p : Package) (w : World) : Prop :=
  semver_lt (pkg_version (packageJson p)) "1.0.0" = None ∧
  ∃ rest, inputs w = Pick major :: rest.

(** ** The header blocks of a document, in the words of the specification

    A header block: the delimiter line, one line ["<package-name>": <bump-type>]
    for each release, the delimiter line. *)
Definition severityWord (t : VersionType) : string :=
  match t with
  | major => "major"
  | minor => "minor"
  | patch => "patch"
  | none => "none"
  end.

Definition headerLine (r : Release) : string :=
  dquote +:+ rel_name r +:+ dquote +:+ ": " +:+ severityWord (rel_type r).

Definition headerBlock (rels : list Release) : string :=
  "---" +:+ nl +:+ String.concat nl (map headerLine rels) +:+ nl +:+ "---".

(** The releases counted under a bump type, in their order. *)
Definition countedUnder (k : VersionType) (rels : list Release) : list Release :=
  filter (λ r, bucketOf (rel_type r) = k) rels.

(** The bump types, in the fixed order, under which a release is counted. *)
Definition severitiesWithRelease (rels : list Release) : list VersionType :=
  filter (λ k, countedUnder k rels ≠ []) [major; minor; patch].

(** * Proofs *)

(** ** Strings *)

#[local] Arguments String.append !_ _ / : simpl nomatch.

Lemma append_assoc (a b c : string) : (a +:+ b) +:+ c = a +:+ (b +:+ c).
Proof. induction a as [|x a IH]; simpl; [done | by rewrite IH]. Qed.

Lemma hasChar_append c a b : hasChar c (a +:+ b) = hasChar c a || hasChar c b.
Proof. induction a as [|x a IH]; simpl; [done | by rewrite IH, orb_assoc]. Qed.

Lemma isEmpty_false s : isEmpty s = false ↔ s ≠ "".
Proof.
  unfold isEmpty. destruct s.
  - split; [done | by intros []].
  - split; [done | intros _]. by apply bool_decide_eq_false.
Qed.

(** A line without a line break, followed by a line break, is the first line. *)
Lemma splitLines_line' (line rest : string) :
  hasChar nlChar line = false →
  splitLines (line +:+ String nlChar rest) = line :: splitLines rest.
Proof.
  induction line as [|c line IH]; simpl; intros H.
  - by destruct (decide (nlChar = nlChar)).
  - apply orb_false_elim in H as [Hc Hl]. apply bool_decide_eq_false in Hc.
    destruct (decide (c = nlChar)); [done |].
    by rewrite (IH Hl).
Qed.

Lemma splitLines_line (line rest : string) :
  hasChar nlChar line = false →
  splitLines (line +:+ nl +:+ rest) = line :: splitLines rest.
Proof. apply splitLines_line'. Qed.

Lemma untilQuote_name' (name rest : string) :
  hasChar quoteChar name = false →
  untilQuote (name +:+ String quoteChar rest) = Some (name, rest).
Proof.
  induction name as [|c name IH]; simpl; intros H.
  - by destruct (decide (quoteChar = quoteChar)).
  - apply orb_false_elim in H as [Hc Hl]. apply bool_decide_eq_false in Hc.
    destruct (decide (c = quoteChar)); [done |].
    by rewrite (IH Hl).
Qed.

Lemma untilQuote_name (name rest : string) :
  hasChar quoteChar name = false →
  untilQuote (name +:+ dquote +:+ rest) = Some (name, rest).
Proof. apply untilQuote_name'. Qed.

Lemma parseBumpType_text t : parseBumpType (bumpTypeText t) = Some t.
Proof. by destruct t. Qed.

Lemma hasChar_bumpTypeText c t :
  c = nlChar ∨ c = quoteChar → hasChar c (bumpTypeText t) = false.
Proof. intros [-> | ->]; by destruct t. Qed.

Lemma stripPrefix_append (p s : string) : stripPrefix p (p +:+ s) = Some s.
Proof.
  induction p as [|c p IH]; simpl; [by destruct s |].
  by destruct (decide (c = c)).
Qed.

Lemma parseReleaseLine_releaseLine r :
  hasChar quoteChar (rel_name r) = false →
  parseReleaseLine (releaseLine r) = Some r.
Proof.
  intros H. unfold releaseLine, parseReleaseLine.
  rewrite stripPrefix_append. cbn [mbind option_bind].
  rewrite (untilQuote_name _ _ H). cbn [mbind option_bind].
  rewrite stripPrefix_append. cbn [mbind option_bind].
  rewrite parseBumpType_text. by destruct r.
Qed.

Lemma releaseLine_no_nl r :
  hasChar nlChar (rel_name r) = false → hasChar nlChar (releaseLine r) = false.
Proof.
  intros H. unfold releaseLine. simpl.
  rewrite !hasChar_append, H. simpl.
  rewrite hasChar_bumpTypeText; [done | by left].
Qed.

Lemma releaseLine_not_delimiter r : releaseLine r ≠ "---".
Proof. unfold releaseLine. simpl. discriminate. Qed.

Lemma releaseLine_not_blank r : releaseLine r ≠ "".
Proof. unfold releaseLine. simpl. discriminate. Qed.

Lemma concat_cons_cons (sep x y : string) (l : list string) :
  String.concat sep (x :: y :: l) = x +:+ sep +:+ String.concat sep (y :: l).
Proof. done. Qed.

(** The lines of a rendered header block, whatever follows it. *)
Lemma splitLines_releasesSection (rels : list Release) (rest : string) :
  Forall (λ r, quotable (rel_name r)) rels →
  splitLines (String.concat nl (map releaseLine rels) +:+ nl +:+ "---" +:+ nl +:+ rest) =
  (match rels with [] => [""] | _ => map releaseLine rels end) ++ "---" :: splitLines rest.
Proof.
  induction rels as [|r rels IH]; intros Hq.
  - change (String.concat nl (map releaseLine [])) with "".
    rewrite (splitLines_line "") by done.
    by rewrite (splitLines_line "---") by done.
  - apply Forall_cons in Hq as [[_ Hr] Hq].
    destruct rels as [|r' rels].
    + change (String.concat nl (map releaseLine [r])) with (releaseLine r).
      rewrite splitLines_line by by apply releaseLine_no_nl.
      by rewrite (splitLines_line "---") by done.
    + rewrite map_cons, (map_cons _ r'), concat_cons_cons, <- (map_cons _ r').
      rewrite !append_assoc.
      rewrite splitLines_line by by apply releaseLine_no_nl.
      by rewrite (IH Hq).
Qed.

Lemma headerLines_releaseLines (rels : list Release) (more : list string) :
  headerLines (map releaseLine rels ++ "---" :: more) = Some (map releaseLine rels).
Proof.
  induction rels as [|r rels IH]; simpl.
  - done.
  - destruct (decide (releaseLine r = "---")) as [E|_].
    + by apply releaseLine_not_delimiter in E.
    + by rewrite IH.
Qed.

Lemma filter_releaseLines (rels : list Release) :
  filter (λ l, l ≠ "") (map releaseLine rels) = map releaseLine rels.
Proof.
  induction rels as [|r rels IH]; [done |].
  simpl. rewrite filter_cons_True by apply releaseLine_not_blank. by rewrite IH.
Qed.

Lemma parseReleaseLines_releaseLines (rels : list Release) :
  Forall (λ r, quotable (rel_name r)) rels →
  parseReleaseLines (map releaseLine rels) = Some rels.
Proof.
  induction 1 as [|r rels [Hq _] _ IH]; [done |].
  simpl. by rewrite parseReleaseLine_releaseLine, IH.
Qed.

(** Whatever follows the header block of [Write.getReleasesSection], the
    header reads back as the releases. *)
Lemma parseHeader_releasesSection (rels : list Release) (rest : string) :
  Forall (λ r, quotable (rel_name r)) rels →
  parseHeader (Write.getReleasesSection rels +:+ rest) = Some rels.
Proof.
  intros Hq. unfold parseHeader, Write.getReleasesSection.
  rewrite !append_assoc.
  rewrite splitLines_line by done.
  destruct (decide ("---" = "---")); [| done].
  rewrite splitLines_releasesSection by done.
  destruct rels as [|r rels].
  - simpl. by destruct (decide ("" = "---")).
  - rewrite headerLines_releaseLines, filter_releaseLines.
    by apply parseReleaseLines_releaseLines.
Qed.

(** ** The serializer: grouping *)

Lemma groupByBumpType_from (rels : list Release) (g : Grouped) :
  foldl
    (λ g rel,
       match rel_type rel with
       | major => mkGrouped (g_major g ++ [rel]) (g_minor g) (g_patch g) (g_none g)
       | minor => mkGrouped (g_major g) (g_minor g ++ [rel]) (g_patch g) (g_none g)
       | patch => mkGrouped (g_major g) (g_minor g) (g_patch g ++ [rel]) (g_none g)
       | _ => mkGrouped (g_major g ++ [rel]) (g_minor g) (g_patch g) (g_none g)
       end) g rels =
  mkGrouped
    (g_major g ++ filter (λ r, bucketOf (rel_type r) = major) rels)
    (g_minor g ++ filter (λ r, bucketOf (rel_type r) = minor) rels)
    (g_patch g ++ filter (λ r, bucketOf (rel_type r) = patch) rels)
    (g_none g).
Proof.
  revert g. induction rels as [|r rels IH]; intros g.
  - simpl. rewrite !filter_nil, !app_nil_r. by destruct g.
  - simpl. rewrite IH. rewrite !filter_cons.
    destruct (rel_type r); simpl;
      repeat case_decide; try done; by rewrite <- ?app_assoc.
Qed.

Lemma groupByBumpType_buckets (rels : list Release) :
  groupByBumpType rels =
  mkGrouped
    (filter (λ r, bucketOf (rel_type r) = major) rels)
    (filter (λ r, bucketOf (rel_type r) = minor) rels)
    (filter (λ r, bucketOf (rel_type r) = patch) rels)
    [].
Proof. unfold groupByBumpType. by rewrite groupByBumpType_from. Qed.

Lemma bucketOf_not_none t : bucketOf t ≠ none.
Proof. by destruct t. Qed.

Lemma blocks_buckets (rels : list Release) :
  WriteByBumpType.blocks rels =
  filter (λ e, length e.2 ≠ 0)
    (map (λ k, (k, filter (λ r, bucketOf (rel_type r) = k) rels)) [major; minor; patch]).
Proof.
  unfold WriteByBumpType.blocks. rewrite groupByBumpType_buckets.
  unfold Object_entries. cbn [g_major g_minor g_patch g_none map].
  rewrite !filter_cons, filter_nil. cbn [snd length].
  repeat case_decide; done.
Qed.

Lemma block_key_emitted (rels : list Release) (k : VersionType) :
  k ∈ (WriteByBumpType.blocks rels).*1 ↔ ∃ r, r ∈ rels ∧ bucketOf (rel_type r) = k.
Proof.
  rewrite blocks_buckets. rewrite list_elem_of_fmap. split.
  - intros [[k' rs] [Hk [Hne Hin]%list_elem_of_filter]]. cbn [fst snd] in *.
    subst k'.
    apply list_elem_of_fmap in Hin as [k'' [[= <- ->] _]].
    destruct (filter _ rels) as [|r rs'] eqn:E; [done |].
    assert (r ∈ filter (λ r, bucketOf (rel_type r) = k) rels) as Hr
      by (rewrite E; left).
    apply list_elem_of_filter in Hr as [? ?]. eauto.
  - intros (r & Hr & Hk).
    exists (k, filter (λ r, bucketOf (rel_type r) = k) rels). split; [done |].
    apply list_elem_of_filter. split.
    + cbn [snd].
      assert (r ∈ filter (λ r, bucketOf (rel_type r) = k) rels) as Hin
        by by apply list_elem_of_filter.
      destruct (filter _ rels); [by apply elem_of_nil in Hin | done].
    + apply list_elem_of_fmap. exists k. split; [done |].
      subst k. destruct (rel_type r); cbn; set_solver.
Qed.

Lemma headerLine_releaseLine (r : Release) : headerLine r = releaseLine r.
Proof. unfold headerLine, releaseLine. by destruct (rel_type r). Qed.

Lemma headerBlock_getReleasesSection (rels : list Release) :
  headerBlock rels = WriteByBumpType.getReleasesSection rels.
Proof.
  unfold headerBlock, WriteByBumpType.getReleasesSection.
  by rewrite (map_ext _ _ headerLine_releaseLine).
Qed.

Lemma blocks_severities (rels : list Release) :
  WriteByBumpType.blocks rels =
  map (λ k, (k, countedUnder k rels)) (severitiesWithRelease rels).
Proof.
  rewrite blocks_buckets. unfold severitiesWithRelease. fold (countedUnder).
  change (λ k, (k, filter (λ r, bucketOf (rel_type r) = k) rels))
    with (λ k, (k, countedUnder k rels)).
  induction [major; minor; patch] as [|k keys IH]; [done |].
  cbn [map]. rewrite !filter_cons. cbn [snd].
  destruct (countedUnder k rels) as [|r l] eqn:Hk.
  - rewrite decide_False by (simpl; lia). rewrite decide_False by (by intros ?).
    exact IH.
  - rewrite decide_True by (simpl; lia). rewrite decide_True by done.
    cbn [map]. rewrite Hk. by rewrite IH.
Qed.

Lemma elem_of_severitiesWithRelease (rels : list Release) (k : VersionType) :
  k ∈ severitiesWithRelease rels ↔ ∃ r, r ∈ rels ∧ bucketOf (rel_type r) = k.
Proof.
  rewrite <- block_key_emitted, blocks_severities, <- list_fmap_compose.
  by rewrite list_fmap_id.
Qed.

(** C6. With a category list that is not empty, the document of the grouped
    revision is, character for character: for each of major, minor and
    patch, in this order, under which a release is counted, one block; the
    blocks joined by a line break; an empty line; the summary. A block is
    its header block (the delimiter line, one quoted line for each release
    counted under the bump type, the delimiter line), a space and a line
    break, and the lines of the categories of that type. A release is
    counted under its own type, and under major when its type is none of
    the three; so a header block is there for a bump type exactly when some
    release is counted under it (when every release is major, minor or
    patch: exactly when some release has that type), it is never empty, and
    none is ever there for [none]. *)
Theorem grouped_blocks_follow_severities (changeset : Changeset) :
  length (categoryOfChangeList changeset) ≠ 0 →
  let rels := releases changeset in
  let severities := severitiesWithRelease rels in
  WriteByBumpType.changesetContents changeset =
    String.concat nl
      (map (λ k, headerBlock (countedUnder k rels) +:+ " " +:+ nl +:+
                 String.concat nl
                   (map categoryLine
                      (filter (λ c, coc_type c = Some k) (categoryOfChangeList changeset))))
           severities)
    +:+ nl +:+ nl +:+ summary changeset +:+ nl +:+ "  " ∧
  (∀ k, k ∈ severities ↔ ∃ r, r ∈ rels ∧ bucketOf (rel_type r) = k) ∧
  (Forall (λ r, rel_type r ≠ none) rels →
   ∀ k, k ∈ severities ↔ ∃ r, r ∈ rels ∧ rel_type r = k) ∧
  sublist severities [major; minor; patch] ∧
  (none ∉ severities) ∧
  (∀ k, k ∈ severities → countedUnder k rels ≠ []) ∧
  (∀ k r, r ∈ countedUnder k rels ↔ r ∈ rels ∧ bucketOf (rel_type r) = k).
Proof.
  intros Hcat rels severities. split; [| split; [| split; [| split; [| split; [| split]]]]].
  - unfold WriteByBumpType.changesetContents.
    rewrite bool_decide_eq_true_2 by done.
    fold rels. rewrite blocks_severities. fold severities.
    rewrite <- list_fmap_compose.
    rewrite (map_ext
               (WriteByBumpType.renderBlock (categoryOfChangeList changeset) ∘
                (λ k, (k, countedUnder k rels)))
               (λ k, headerBlock (countedUnder k rels) +:+ " " +:+ nl +:+
                     String.concat nl
                       (map categoryLine
                          (filter (λ c, coc_type c = Some k)
                             (categoryOfChangeList changeset))))); [done |].
    intros k. unfold compose, WriteByBumpType.renderBlock. cbn [fst snd].
    exact (f_equal (λ header, header +:+ " " +:+ nl +:+ _)
             (eq_sym (headerBlock_getReleasesSection (countedUnder k rels)))).
  - apply elem_of_severitiesWithRelease.
  - intros Hnone k. unfold severities. rewrite elem_of_severitiesWithRelease. split.
    + intros (r & Hr & Hk). exists r. split; [done |].
      apply (proj1 (Forall_forall _ _) Hnone) in Hr. by destruct (rel_type r).
    + intros (r & Hr & Hk). exists r. split; [done |].
      apply (proj1 (Forall_forall _ _) Hnone) in Hr as Hn.
      subst k. by destruct (rel_type r).
  - apply sublist_filter.
  - intros (r & _ & Hr)%elem_of_severitiesWithRelease. by apply bucketOf_not_none in Hr.
  - intros k Hk. by apply list_elem_of_filter in Hk as [Hk _].
  - intros k r. unfold countedUnder. rewrite list_elem_of_filter. tauto.
Qed.

Lemma grouped_blocks_follow_severities_witness :
  let changeset :=
    mkChangeset "Fix the cache"
      [mkRelease "a" patch; mkRelease "b" none; mkRelease "c" major]
      [mkCategoryOfChange "faster" "Changed (Visual changes)" None] in
  severitiesWithRelease (releases changeset) = [major; patch] ∧
  WriteByBumpType.changesetContents changeset =
    "---" +:+ nl +:+
    dquote +:+ "b" +:+ dquote +:+ ": none" +:+ nl +:+
    dquote +:+ "c" +:+ dquote +:+ ": major" +:+ nl +:+
    "--- " +:+ nl +:+
    nl +:+
    "---" +:+ nl +:+
    dquote +:+ "a" +:+ dquote +:+ ": patch" +:+ nl +:+
    "--- " +:+ nl +:+
    nl +:+ nl +:+
    "Fix the cache" +:+ nl +:+ "  ".
Proof.
  cbn zeta. split; [reflexivity |].
  assert (length [mkCategoryOfChange "faster" "Changed (Visual changes)" None] ≠ 0)
    as Hcat by (simpl; lia).
  exact (eq_trans
           (proj1 (grouped_blocks_follow_severities
                     (mkChangeset "Fix the cache"
                        [mkRelease "a" patch; mkRelease "b" none; mkRelease "c" major]
                        [mkCategoryOfChange "faster" "Changed (Visual changes)" None])
                     Hcat))
           eq_refl).
Defined.

(** ** The serializer: the header read back *)

Lemma changesetContents_header (changeset : Changeset) :
  ∃ rest, Write.changesetContents changeset =
          Write.getReleasesSection (releases changeset) +:+ rest.
Proof.
  unfold Write.changesetContents, Write.getReleasesAndChangeTypes.
  cbn [andb]. case_bool_decide.
  - eexists. by rewrite !append_assoc.
  - by eexists.
Qed.

(** C7, amended. When no package name holds a double quote or a line break,
    the header of the document that [writeChangeset] renders reads back as
    the releases of the changeset, in their order; names such as
    @scope/name are among these. *)
Theorem header_reads_back_quotable_names (changeset : Changeset) :
  Forall (λ r, quotable (rel_name r)) (releases changeset) →
  parseHeader (Write.changesetContents changeset) = Some (releases changeset).
Proof.
  intros Hq. destruct (changesetContents_header changeset) as [rest ->].
  by apply parseHeader_releasesSection.
Qed.

Lemma header_reads_back_quotable_names_witness :
  let changeset :=
    mkChangeset "Add the flag"
      [mkRelease "@scope/name" minor; mkRelease "left-pad" patch]
      [mkCategoryOfChange "a new flag" "Added (New functionality)" None] in
  Forall (λ r, quotable (rel_name r)) (releases changeset) ∧
  parseHeader (Write.changesetContents changeset) = Some (releases changeset).
Proof.
  assert (Forall (λ r, quotable (rel_name r))
            [mkRelease "@scope/name" minor; mkRelease "left-pad" patch]) as Hq
    by (repeat constructor).
  split; [exact Hq |].
  exact (header_reads_back_quotable_names
           (mkChangeset "Add the flag"
              [mkRelease "@scope/name" minor; mkRelease "left-pad" patch]
              [mkCategoryOfChange "a new flag" "Added (New functionality)" None]) Hq).
Defined.

(** Two changesets with different releases and one document: no reader of
    the document can give back both. *)
Lemma changesetContents_not_injective :
  Write.changesetContents (mkChangeset "s" [mkRelease splitName minor] []) =
  Write.changesetContents (mkChangeset "s" [mkRelease "x" major; mkRelease "y" minor] []).
Proof. reflexivity. Qed.

(** C7 as stated fails: for the changeset whose one release has the name
    [splitName], the header reads back as two releases, neither of them the
    release that was written. *)
Lemma header_reads_back_counterexample :
  ¬ (∀ changeset : Changeset,
       ∃ rels, parseHeader (Write.changesetContents changeset) = Some rels ∧
               ∀ r, r ∈ rels ↔ r ∈ releases changeset).
Proof.
  intros H.
  destruct (H (mkChangeset "s" [mkRelease splitName minor] [])) as (rels & Hp & Hset).
  vm_compute in Hp. injection Hp as <-.
  assert (mkRelease "x" major ∈ [mkRelease splitName minor]) as Hin
    by (apply Hset; left).
  apply list_elem_of_singleton in Hin. discriminate Hin.
Qed.

(** ** The serializer: writing *)

Lemma humanId_files (w w1 : World) (id : string) :
  humanId w = Returned id w1 → files w1 = files w ∧ inputs w1 = inputs w.
Proof.
  unfold humanId. destruct (ids w); [done |]. by intros [= _ <-].
Qed.

Section WriteChangeset.

Variable Config : Type.
Variable resolveConfig : string → gmap string string → fallible (option Config).
Variable format : string → option Config → fallible string.
Variable rejects : Rejects.

(** A call that returns has written one file, named after the identifier it
    returns, holding the formatted document. *)
Lemma writeChangeset_returned changeset cwd w id w' :
  Write.writeChangeset Config resolveConfig format rejects changeset cwd w = Returned id w' →
  ∃ cfg text,
    format (Write.changesetContents changeset) cfg = Done text ∧
    files w' = <[path_resolve (path_resolve cwd ".changeset") (id +:+ ".md") := text]> (files w).
Proof.
  unfold Write.writeChangeset, bind, lift, fs_writeFile, ret.
  destruct (humanId w) as [id0 w1| |] eqn:Hid; [| done..].
  apply humanId_files in Hid as [Hf _].
  destruct (resolveConfig cwd (files w1)) as [cfg|]; [| done].
  destruct (format _ cfg) as [text|] eqn:Hfmt; [| done].
  destruct (rejects (path_resolve (path_resolve cwd ".changeset") (id0 +:+ ".md")) text
              (files w1)) as [[e remaining]|]; [done |].
  intros [= <- <-]. exists cfg, text. by rewrite <- Hf.
Qed.

(** A call that raises has written nothing, unless it is the write itself
    that was rejected: then the files are what the file system left. *)
Lemma writeChangeset_raised changeset cwd w e w' :
  Write.writeChangeset Config resolveConfig format rejects changeset cwd w = Raised e w' →
  files w' = files w ∨
  ∃ path text, rejects path text (files w) = Some (e, files w').
Proof.
  unfold Write.writeChangeset, bind, lift, fs_writeFile, ret, humanId.
  destruct (ids w) as [|id0 rest]; [done |]. cbn [files].
  destruct (resolveConfig cwd (files w)) as [cfg|]; [| intros [= _ <-]; by left].
  destruct (format _ cfg) as [text|] eqn:Hfmt; [| intros [= _ <-]; by left].
  cbn [files].
  destruct (rejects (path_resolve (path_resolve cwd ".changeset") (id0 +:+ ".md")) text
              (files w)) as [[e0 remaining]|] eqn:Hrej; [| done].
  intros [= <- <-]. right. by eexists _, _.
Qed.

(** C8. When the formatter raises on the rendered document, [writeChangeset]
    raises that same error to its caller, and the files are those from
    before the call: nothing was created. *)
Theorem writeChangeset_format_failure changeset cwd w id w1 cfg e :
  humanId w = Returned id w1 →
  resolveConfig cwd (files w1) = Done cfg →
  format (Write.changesetContents changeset) cfg = Throws e →
  ∃ w', Write.writeChangeset Config resolveConfig format rejects changeset cwd w = Raised e w' ∧
        files w' = files w.
Proof.
  intros Hid Hcfg Hfmt.
  unfold Write.writeChangeset, bind, lift.
  rewrite Hid, Hcfg, Hfmt. eexists. split; [done |].
  by apply humanId_files in Hid as [? _].
Qed.

End WriteChangeset.

Lemma writeChangeset_format_failure_witness :
  let changeset := mkChangeset "Fix the cache" [mkRelease "a" patch] [] in
  let w := {| inputs := []; trace := []; ids := ["brave-lions-sing"]; files := ∅ |} in
  ∃ w', Write.writeChangeset unit (λ _ _, Done None) (λ _ _, Throws FormatError)
          (λ _ _ _, None) changeset "/repo" w = Raised FormatError w' ∧
        files w' = files w.
Proof.
  exact (writeChangeset_format_failure unit (λ _ _, Done None) (λ _ _, Throws FormatError)
           (λ _ _ _, None)
           (mkChangeset "Fix the cache" [mkRelease "a" patch] []) "/repo"
           {| inputs := []; trace := []; ids := ["brave-lions-sing"]; files := ∅ |}
           "brave-lions-sing"
           {| inputs := []; trace := []; ids := []; files := ∅ |}
           None FormatError eq_refl eq_refl eq_refl).
Defined.

(** ** Runs of the session monad *)

Lemma bind_Returned {A B} (m : M A) (k : A → M B) w b w' :
  bind m k w = Returned b w' ↔ ∃ a w1, m w = Returned a w1 ∧ k a w1 = Returned b w'.
Proof.
  unfold bind. split.
  - destruct (m w) as [a w1| |]; [intros; eauto | intros [=]..].
  - by intros (a & w1 & -> & ?).
Qed.

Lemma bind_Raised {A B} (m : M A) (k : A → M B) w e w' :
  bind m k w = Raised e w' ↔
  m w = Raised e w' ∨ ∃ a w1, m w = Returned a w1 ∧ k a w1 = Raised e w'.
Proof.
  unfold bind. split.
  - destruct (m w) as [a w1| |]; [intros; eauto | intros [= -> ->]; by left | intros [=]].
  - by intros [-> | (a & w1 & -> & ?)].
Qed.

Lemma ret_Returned {A} (a b : A) w w' : ret a w = Returned b w' ↔ a = b ∧ w = w'.
Proof. unfold ret. split; [by intros [= -> ->] | by intros [-> ->]]. Qed.

(** Take a returning run apart, one [bind] after the other. *)
Ltac inv_run :=
  repeat match goal with
  | H : bind _ _ _ = Returned _ _ |- _ =>
      apply bind_Returned in H as (? & ? & ? & H)
  | H : ret _ _ = Returned _ _ |- _ =>
      apply ret_Returned in H as [? ?]; simplify_eq
  | H : Returned _ _ = Returned _ _ |- _ => simplify_eq
  | H : raise _ _ = Returned _ _ |- _ => discriminate H
  | H : Pending = Returned _ _ |- _ => discriminate H
  | H : Raised _ _ = Returned _ _ |- _ => discriminate H
  end.

(** Loop invariants: [Inv rest s w] holds before the turn for the head of
    [rest], and so holds of the empty rest when the loop returns. *)
Lemma forOf_invariant {A S} (Inv : list A → S → World → Prop)
    (body : A → S → M S) (l : list A) (s : S) (w : World) (r : S) (w' : World) :
  forOf l body s w = Returned r w' →
  Inv l s w →
  (∀ x rest s w s1 w1,
     Inv (x :: rest) s w → body x s w = Returned s1 w1 → Inv rest s1 w1) →
  Inv [] r w'.
Proof.
  intros Hrun Hinv Hstep. revert s w Hrun Hinv.
  induction l as [|x l IH]; intros s w Hrun Hinv.
  - simpl in Hrun. inv_run. done.
  - simpl in Hrun. inv_run. eapply IH; [done |]. by eapply Hstep.
Qed.

Lemma forOf_not_raised {A S} (body : A → S → M S) (l : list A) (s : S) w e w' :
  (∀ x s w e w', body x s w ≠ Raised e w') →
  forOf l body s w ≠ Raised e w'.
Proof.
  intros Hbody. revert s w. induction l as [|x l IH]; intros s w; simpl.
  - done.
  - intros [H | (s1 & w1 & _ & H)]%bind_Raised.
    + by apply Hbody in H.
    + by apply IH in H.
Qed.

(** A loop whose body only computes. *)
Lemma forOf_pure {A S} (f : A → S → S) (l : list A) (s : S) (w : World) :
  forOf l (λ x s, ret (f x s)) s w = Returned (foldl (λ s x, f x s) s l) w.
Proof.
  revert s. induction l as [|x l IH]; intros s; simpl; [done |].
  unfold bind at 1. unfold ret at 1. apply IH.
Qed.

(** ** The transcript *)

Lemma grows_refl P w : grows P w w.
Proof. exists []. by split. Qed.

Lemma grows_trans P w w1 w2 : grows P w w1 → grows P w1 w2 → grows P w w2.
Proof.
  intros (e1 & H1 & F1) (e2 & H2 & F2). exists (e2 ++ e1). split.
  - by rewrite H2, H1, app_assoc.
  - by apply Forall_app.
Qed.

Lemma grows_weaken (P Q : event → Prop) w w' :
  (∀ e, P e → Q e) → grows P w w' → grows Q w w'.
Proof. intros HPQ (evs & H & F). exists evs. split; [done |]. by eapply Forall_impl. Qed.

Lemma grows_answered P message a rest w :
  P (Asked message a) → grows P w (answered message a rest w).
Proof. intros HP. exists [Asked message a]. split; [done |]. by constructor. Qed.

Lemma askedDuring_grows P w w' e : grows P w w' → askedDuring w w' e → P e.
Proof.
  intros (evs & H & F) (evs' & H' & Hin).
  rewrite H in H'. apply app_inv_tail in H'. subst evs'.
  by eapply Forall_forall in F.
Qed.

(** An event of a run in two parts was asked in the first or in the second. *)
Lemma askedDuring_split P Q w w1 w2 e :
  grows P w w1 → grows Q w1 w2 → askedDuring w w2 e →
  askedDuring w w1 e ∨ askedDuring w1 w2 e.
Proof.
  intros (e1 & H1 & _) (e2 & H2 & _) (evs & H & Hin).
  rewrite H2, H1, app_assoc in H. apply app_inv_tail in H. subst evs.
  apply elem_of_app in Hin as [Hin | Hin]; [right | left]; by eexists.
Qed.

Lemma askedDuring_first P Q w w1 w2 e :
  grows P w w1 → grows Q w1 w2 → askedDuring w w1 e → askedDuring w w2 e.
Proof.
  intros (e1 & H1 & _) (e2 & H2 & _) (evs & H & Hin).
  rewrite H1 in H. apply app_inv_tail in H. subst evs.
  exists (e2 ++ e1). split; [by rewrite H2, H1, app_assoc |].
  apply elem_of_app. by right.
Qed.

Lemma askedDuring_second P Q w w1 w2 e :
  grows P w w1 → grows Q w1 w2 → askedDuring w1 w2 e → askedDuring w w2 e.
Proof.
  intros (e1 & H1 & _) (e2 & H2 & _) (evs & H & Hin).
  rewrite H2 in H. apply app_inv_tail in H. subst evs.
  exists (e2 ++ e1). split; [by rewrite H2, H1, app_assoc |].
  apply elem_of_app. by left.
Qed.

Lemma askedDuring_answered message a rest w :
  askedDuring w (answered message a rest w) (Asked message a).
Proof. exists [Asked message a]. split; [done | by left]. Qed.

Lemma Asked_inj m a m' a' : Asked m a = Asked m' a' → m = m' ∧ a = a'.
Proof. by intros [= -> ->]. Qed.

Lemma askedDuring_answered_inv message a rest w e :
  askedDuring w (answered message a rest w) e → e = Asked message a.
Proof.
  intros (evs & H & Hin).
  change (trace (answered message a rest w)) with ([Asked message a] ++ trace w) in H.
  apply app_inv_tail in H. subst evs. by apply list_elem_of_singleton in Hin.
Qed.

Lemma askedDuring_same w e : ¬ askedDuring w w e.
Proof.
  intros (evs & H & Hin).
  assert (evs = []) as -> by (apply (app_inv_tail (trace w)); by rewrite <- H).
  by apply elem_of_nil in Hin.
Qed.

(** ** The prompts *)

Lemma askQuestion_Returned message s w w' :
  askQuestion message w = Returned s w' ↔
  ∃ rest, inputs w = Text s :: rest ∧ w' = answered message (Text s) rest w.
Proof.
  unfold askQuestion. split.
  - destruct (inputs w) as [|[] rest]; try done. intros [= <- <-]. eauto.
  - by intros (rest & -> & ->).
Qed.

Lemma askConfirm_Returned message b w w' :
  askConfirm message w = Returned b w' ↔
  ∃ rest, inputs w = Confirm b :: rest ∧ w' = answered message (Confirm b) rest w.
Proof.
  unfold askConfirm. split.
  - destruct (inputs w) as [|[] rest]; try done. intros [= <- <-]. eauto.
  - by intros (rest & -> & ->).
Qed.

Lemma askCheckboxPlus_Returned message choices sel w w' :
  askCheckboxPlus message choices w = Returned sel w' ↔
  ∃ rest, inputs w = Ticks sel :: rest ∧ NoDup sel ∧ sel ⊆ optionKeys choices ∧
          w' = answered message (Ticks sel) rest w.
Proof.
  unfold askCheckboxPlus. split.
  - destruct (inputs w) as [|[] rest]; try done.
    case_decide as Hok; [| done]. destruct Hok. intros [= <- <-]. eauto.
  - intros (rest & -> & ? & ? & ->). by rewrite decide_True.
Qed.

Lemma askList_Returned message choices c w w' :
  askList message choices w = Returned c w' ↔
  ∃ rest, inputs w = Pick c :: rest ∧ c ∈ choices ∧
          w' = answered message (Pick c) rest w.
Proof.
  unfold askList. split.
  - destruct (inputs w) as [|[] rest]; try done.
    case_decide; [| done]. intros [= <- <-]. eauto.
  - intros (rest & -> & ? & ->). by rewrite decide_True.
Qed.

(** ** The summary of a changeset *)

Lemma askWhileEmpty_Returned message summary script w s w' :
  askWhileEmpty message summary script w = Returned s w' →
  s ≠ "" ∧ grows textual w w' ∧ files w' = files w.
Proof.
  revert summary w. induction script as [|a script IH]; intros summary w; simpl.
  - destruct (isEmpty summary) eqn:E; [done |].
    intros [= <- <-]. split; [by apply isEmpty_false |]. split; [apply grows_refl | done].
  - destruct (isEmpty summary) eqn:E.
    + destruct a; try done. intros (? & Hg & ?)%IH. split; [done |]. split; [| done].
      eapply grows_trans; [| exact Hg]. by apply grows_answered.
    + intros [= <- <-]. split; [by apply isEmpty_false |]. split; [apply grows_refl | done].
Qed.

Lemma askWhileEmpty_not_raised message summary script w e w' :
  askWhileEmpty message summary script w ≠ Raised e w'.
Proof.
  revert summary w. induction script as [|a script IH]; intros summary w; simpl.
  - by destruct (isEmpty summary).
  - destruct (isEmpty summary); [| done]. destruct a; first [done | apply IH].
Qed.

(** What the editor step of [setSummary] gives: a text that is not empty,
    or nothing. *)
Lemma setSummary_editor w (r : option string) w' :
  tryCatch
    (summary <- askQuestionWithEditor summaryEditorSeed ;;
     ret (if isEmpty summary then None else Some summary))
    (fun _ => ret None) w = Returned r w' →
  grows textual w w' ∧ files w' = files w ∧
  ∀ s, r = Some s →
       s ≠ "" ∧ askedDuring w w' (Asked summaryEditorSeed (Editor (Some s))).
Proof.
  unfold tryCatch, bind, askQuestionWithEditor, ret.
  destruct (inputs w) as [|[| [s|] | | |] rest]; try done.
  - intros [= <- <-]. split; [by apply grows_answered |]. split; [done |].
    intros s'. destruct (isEmpty s) eqn:E; [done |]. intros [= <-].
    split; [by apply isEmpty_false | apply askedDuring_answered].
  - intros [= <- <-]. split; [by apply grows_answered |]. by split.
Qed.

Lemma setSummary_Returned changeSet w c w' :
  setSummary changeSet w = Returned c w' →
  cwc_summary c ≠ "" ∧
  cwc_releases c = cwc_releases changeSet ∧
  cwc_categoryOfChangeList c = cwc_categoryOfChangeList changeSet ∧
  (cwc_confirmed c = true →
   askedDuring w w' (Asked summaryEditorSeed (Editor (Some (cwc_summary c))))) ∧
  grows textual w w' ∧ files w' = files w.
Proof.
  unfold setSummary. intros H.
  apply bind_Returned in H as (s0 & w0 & Hask & H).
  apply askQuestion_Returned in Hask as (rest & Hin & ->).
  pose proof (grows_answered textual "Summary" (Text s0) rest w I) as Hg0.
  destruct (isEmpty s0) eqn:E.
  - apply bind_Returned in H as (r & w1 & Hed & H).
    apply setSummary_editor in Hed as (Hg1 & Hf1 & Hed).
    destruct r as [s|].
    + inv_run. cbn. destruct (Hed s eq_refl) as [Hne Hasked].
      repeat split; try done.
      * intros _. eapply askedDuring_second; [exact Hg0 | exact Hg1 | exact Hasked].
      * by eapply grows_trans.
    + apply bind_Returned in H as (s1 & w2 & Hask & H).
      apply askQuestion_Returned in Hask as (rest' & Hin' & ->).
      apply bind_Returned in H as (s2 & w3 & Hloop & H).
      apply askWhileEmpty_Returned in Hloop as (Hne & Hg2 & Hf2).
      inv_run. cbn. repeat split; try done.
      * eapply grows_trans; [exact Hg0 |].
        eapply grows_trans; [exact Hg1 |].
        eapply grows_trans; [| exact Hg2]. by apply grows_answered.
      * by rewrite Hf2.
  - inv_run. cbn. repeat split; try done. by apply isEmpty_false.
Qed.

Lemma setSummary_not_raised changeSet w e w' : setSummary changeSet w ≠ Raised e w'.
Proof.
  unfold setSummary.
  intros [H | (s & w1 & _ & H)]%bind_Raised.
  - unfold askQuestion in H. by destruct (inputs w) as [|[] ?].
  - destruct (isEmpty s); [| done].
    apply bind_Raised in H as [H | (r & w2 & _ & H)].
    + unfold tryCatch, bind, askQuestionWithEditor, ret in H.
      by destruct (inputs w1) as [|[| [?|] | | |] ?].
    + destruct r; [done |].
      apply bind_Raised in H as [H | (s' & w3 & _ & H)].
      * unfold askQuestion in H. by destruct (inputs w2) as [|[] ?].
      * apply bind_Raised in H as [H | (? & ? & _ & H)]; [| done].
        by apply askWhileEmpty_not_raised in H.
Qed.

(** Lines 356-369: every changeset of the list, and the changeset of the
    plain flow when there was no category, comes back with its releases and
    categories and with a summary. *)
Lemma finishChangesets_Returned shouldAskChangeTypes rels changesetList w cs w' :
  finishChangesets shouldAskChangeTypes rels changesetList w = Returned cs w' →
  Forall2
    (λ c0 c,
       cwc_summary c ≠ "" ∧
       cwc_releases c = cwc_releases c0 ∧
       cwc_categoryOfChangeList c = cwc_categoryOfChangeList c0 ∧
       (cwc_confirmed c = true →
        askedDuring w w' (Asked summaryEditorSeed (Editor (Some (cwc_summary c))))))
    (if negb shouldAskChangeTypes
     then changesetList ++ [mkChangesetWithConfirmed false "" [] rels]
     else changesetList)
    cs ∧
  grows textual w w' ∧ files w' = files w.
Proof.
  unfold finishChangesets.
  generalize (if negb shouldAskChangeTypes
     then changesetList ++ [mkChangesetWithConfirmed false "" [] rels]
     else changesetList). clear changesetList. intros l.
  intros Hrun.
  pose (Inv := λ (rest : list ChangesetWithConfirmed)
                 (done : list ChangesetWithConfirmed) (wc : World),
    ∃ before, l = before ++ rest ∧ grows textual w wc ∧ files wc = files w ∧
      Forall2
        (λ c0 c,
           cwc_summary c ≠ "" ∧
           cwc_releases c = cwc_releases c0 ∧
           cwc_categoryOfChangeList c = cwc_categoryOfChangeList c0 ∧
           (cwc_confirmed c = true →
            askedDuring w wc (Asked summaryEditorSeed (Editor (Some (cwc_summary c))))))
        before done).
  assert (Inv [] cs w') as (before & Hl & Hg & Hf & HF).
  { eapply (forOf_invariant Inv); [exact Hrun | |].
    - exists []. split; [done |]. split; [apply grows_refl |]. split; [done | constructor].
    - clear. intros c0 rest done wc done1 w1 (before & -> & Hg & Hf & HF) Hbody.
      apply bind_Returned in Hbody as (c & w2 & Hset & Hbody).
      apply setSummary_Returned in Hset as (Hne & Hr & Hc & Hconf & Hg1 & Hf1).
      inv_run.
      exists (before ++ [c0]). split; [by rewrite <- app_assoc |].
      split; [by eapply grows_trans |]. split; [by rewrite Hf1 |].
      apply Forall2_app.
      + eapply Forall2_impl; [exact HF |]. cbn.
        intros a b (? & ? & ? & Hc'). repeat split; try done.
        intros Hb. eapply askedDuring_first; [exact Hg | exact Hg1 | by apply Hc'].
      + constructor; [| constructor]. repeat split; try done.
        intros Hb. eapply askedDuring_second; [exact Hg | exact Hg1 | by apply Hconf]. }
  rewrite app_nil_r in Hl. by subst before.
Qed.

Lemma finishChangesets_not_raised shouldAskChangeTypes rels changesetList w e w' :
  finishChangesets shouldAskChangeTypes rels changesetList w ≠ Raised e w'.
Proof.
  unfold finishChangesets. apply forOf_not_raised.
  intros c s w0 e0 w0' [H | (? & ? & _ & H)]%bind_Raised; [| done].
  by apply setSummary_not_raised in H.
Qed.

(** ** The category-of-change workflow *)

Lemma describeCategories_Returned chosen acc w r w' :
  describeCategories chosen acc w = Returned r w' →
  ∃ l, r = acc ++ l ∧ map coc_category l = chosen ∧ untyped l ∧
       grows textual w w' ∧ files w' = files w.
Proof.
  unfold describeCategories. intros Hrun.
  pose (Inv := λ (rest : list string) (cur : list CategoryOfChange) (wc : World),
    ∃ l before, chosen = before ++ rest ∧ cur = acc ++ l ∧
      map coc_category l = before ∧ untyped l ∧
      grows textual w wc ∧ files wc = files w).
  assert (Inv [] r w') as (l & before & Hc & -> & Hm & Hu & Hg & Hf).
  { eapply (forOf_invariant Inv); [exact Hrun | |].
    - exists [], []. repeat split; try done.
      + by rewrite app_nil_r.
      + constructor.
      + apply grows_refl.
    - clear. intros category rest cur wc cur1 w1
        (l & before & -> & -> & Hm & Hu & Hg & Hf) Hbody.
      apply bind_Returned in Hbody as (d & w2 & Hask & Hbody).
      apply askQuestion_Returned in Hask as (rest' & Hin & ->).
      apply ret_Returned in Hbody as [<- <-].
      exists (l ++ [mkCategoryOfChange d category None]), (before ++ [category]).
      repeat split.
      + by rewrite <- app_assoc.
      + by rewrite <- app_assoc.
      + by rewrite map_app, Hm.
      + apply Forall_app. split; [done |]. by repeat constructor.
      + eapply grows_trans; [exact Hg |]. by apply grows_answered.
      + done. }
  exists l. rewrite app_nil_r in Hc. by subst before.
Qed.

Lemma askChangeTypes_Returned chosen rels w cats csl w' :
  askChangeTypes chosen rels w = Returned (cats, csl) w' →
  ∃ b rest,
    inputs w = Confirm b :: rest ∧
    askedDuring w w' (Asked reuseQuestion (Confirm b)) ∧
    grows (λ e, textual e ∨ e = Asked reuseQuestion (Confirm b)) w w' ∧
    files w' = files w ∧
    untyped cats ∧
    if b then
      csl = [] ∧
      map coc_category cats = concat (map (λ _, chosen) (VSet_new (map rel_type rels)))
    else
      cats = [] ∧
      Forall2
        (λ r c, cwc_releases c = [r] ∧ cwc_confirmed c = true ∧ cwc_summary c = "" ∧
                map coc_category (cwc_categoryOfChangeList c) = chosen ∧
                untyped (cwc_categoryOfChangeList c))
        rels csl.
Proof.
  unfold askChangeTypes. intros H.
  apply bind_Returned in H as (b & w0 & Hask & H).
  apply askConfirm_Returned in Hask as (rest & Hin & ->).
  exists b, rest. split; [done |].
  set (P := λ e, textual e ∨ e = Asked reuseQuestion (Confirm b)).
  assert (grows P w (answered reuseQuestion (Confirm b) rest w)) as Hg0
    by (apply grows_answered; by right).
  assert (∀ wa wb, grows textual wa wb → grows P wa wb) as Htext
    by (intros wa wb; apply grows_weaken; by left).
  destruct b.
  - apply bind_Returned in H as (cats' & w1 & Hloop & H). inv_run.
    rename rest into rest0.
    assert (∃ before, VSet_new (map rel_type rels) = before ++ [] ∧
        map coc_category cats = concat (map (λ _, chosen) before) ∧ untyped cats ∧
        grows P (answered reuseQuestion (Confirm true) rest0 w) w' ∧ files w' = files w)
      as (before & Hb & Hm & Hu & Hg & Hf).
    { eapply (forOf_invariant
        (λ (rest : list VersionType) (cur : list CategoryOfChange) (wc : World),
           ∃ before, VSet_new (map rel_type rels) = before ++ rest ∧
             map coc_category cur = concat (map (λ _, chosen) before) ∧ untyped cur ∧
             grows P (answered reuseQuestion (Confirm true) rest0 w) wc ∧
             files wc = files w)); [exact Hloop | |].
      - exists []. repeat split; try done; try constructor; apply grows_refl.
      - intros bt rest1 cur wc cur1 w2 (before & Hb & Hm & Hu & Hg & Hf) Hbody.
        apply describeCategories_Returned in Hbody as (l & -> & Hl & Hul & Hgl & Hfl).
        exists (before ++ [bt]). repeat split.
        + rewrite Hb. by rewrite <- app_assoc.
        + rewrite !map_app, concat_app, Hm, Hl. simpl. by rewrite app_nil_r.
        + by apply Forall_app.
        + eapply grows_trans; [exact Hg | by apply Htext].
        + by rewrite Hfl. }
    rewrite app_nil_r in Hb. subst before.
    repeat split; try done.
    + eapply askedDuring_first; [exact Hg0 | exact Hg | apply askedDuring_answered].
    + by eapply grows_trans.
  - apply bind_Returned in H as (csl' & w1 & Hloop & H). inv_run.
    assert (∃ before, rels = before ++ [] ∧
        Forall2
          (λ r c, cwc_releases c = [r] ∧ cwc_confirmed c = true ∧ cwc_summary c = "" ∧
                  map coc_category (cwc_categoryOfChangeList c) = chosen ∧
                  untyped (cwc_categoryOfChangeList c))
          before csl ∧
        grows P (answered reuseQuestion (Confirm false) rest w) w' ∧ files w' = files w)
      as (before & Hb & HF & Hg & Hf).
    { eapply (forOf_invariant
        (λ (rest1 : list Release) (cur : list ChangesetWithConfirmed) (wc : World),
           ∃ before, rels = before ++ rest1 ∧
             Forall2
               (λ r c, cwc_releases c = [r] ∧ cwc_confirmed c = true ∧
                       cwc_summary c = "" ∧
                       map coc_category (cwc_categoryOfChangeList c) = chosen ∧
                       untyped (cwc_categoryOfChangeList c))
               before cur ∧
             grows P (answered reuseQuestion (Confirm false) rest w) wc ∧
             files wc = files w)); [exact Hloop | |].
      - exists []. repeat split; try done; try constructor; apply grows_refl.
      - intros release rest1 cur wc cur1 w2 (before & Hb & HF & Hg & Hf) Hbody.
        apply bind_Returned in Hbody as (l0 & w3 & Hd & Hbody).
        apply describeCategories_Returned in Hd as (l & -> & Hl & Hul & Hgl & Hfl).
        apply ret_Returned in Hbody as [<- <-].
        exists (before ++ [release]). repeat split.
        + rewrite Hb. by rewrite <- app_assoc.
        + apply Forall2_app; [done |]. by repeat constructor.
        + eapply grows_trans; [exact Hg | by apply Htext].
        + by rewrite Hfl. }
    rewrite app_nil_r in Hb. subst before.
    repeat split; try done.
    + eapply askedDuring_first; [exact Hg0 | exact Hg | apply askedDuring_answered].
    + by eapply grows_trans.
    + constructor.
Qed.

(** ** Sets and the map of the workspace *)

Lemma Set_add_spec (s : list string) (x : string) :
  NoDup s → NoDup (Set_add s x) ∧ ∀ y, y ∈ Set_add s x ↔ y ∈ s ∨ y = x.
Proof.
  intros Hs. unfold Set_add. case_decide as Hin.
  - split; [done |]. intros y. naive_solver.
  - split.
    + apply NoDup_app. split; [done |]. split; [| apply NoDup_singleton].
      intros y Hy ->%list_elem_of_singleton. done.
    + intros y. rewrite elem_of_app, list_elem_of_singleton. done.
Qed.

Lemma Set_new_from (l acc : list string) :
  NoDup acc →
  NoDup (foldl Set_add acc l) ∧ ∀ y, y ∈ foldl Set_add acc l ↔ y ∈ acc ∨ y ∈ l.
Proof.
  revert acc. induction l as [|x l IH]; intros acc Hacc; simpl.
  - split; [done |]. intros y. rewrite elem_of_nil. naive_solver.
  - destruct (Set_add_spec acc x Hacc) as [Hnd Hin].
    destruct (IH _ Hnd) as [Hnd' Hin']. split; [done |].
    intros y. rewrite Hin', Hin, elem_of_cons. naive_solver.
Qed.

Lemma Set_new_NoDup (l : list string) : NoDup (Set_new l).
Proof. apply Set_new_from. constructor. Qed.

Lemma elem_of_Set_new (l : list string) (x : string) : x ∈ Set_new l ↔ x ∈ l.
Proof.
  unfold Set_new. destruct (Set_new_from l [] (NoDup_nil_2)) as [_ H].
  rewrite H, elem_of_nil. naive_solver.
Qed.

Lemma elem_of_Set_delete (x y : string) (s : list string) :
  y ∈ Set_delete x s ↔ y ∈ s ∧ y ≠ x.
Proof. unfold Set_delete. rewrite list_elem_of_filter. naive_solver. Qed.

(** Deleting the members of [sel] one after the other. *)
Lemma Set_delete_all (sel s : list string) :
  foldl (λ s x, Set_delete x s) s sel = filter (λ y, y ∉ sel) s.
Proof.
  revert s. induction sel as [|x sel IH]; intros s; simpl.
  - symmetry. induction s as [|y s IHs]; [done |].
    rewrite filter_cons_True by apply not_elem_of_nil. by rewrite IHs.
  - rewrite IH. unfold Set_delete. rewrite list_filter_filter.
    apply list_filter_iff. intros y. rewrite not_elem_of_cons. naive_solver.
Qed.

(** A duplicate-free part of a duplicate-free list, and what is left of
    the list without it. *)
Lemma part_and_rest (sel s : list string) :
  NoDup s → NoDup sel → sel ⊆ s → sel ++ filter (λ y, y ∉ sel) s ≡ₚ s.
Proof.
  intros Hs Hsel Hsub.
  rewrite <- (filter_app_complement (λ y, y ∈ sel) s) at 2.
  apply Permutation_app; [| done].
  apply NoDup_Permutation; [done | by apply NoDup_filter |].
  intros y. rewrite list_elem_of_filter. naive_solver.
Qed.

Lemma Map_new_from {V} (entries : list (string * V)) (m : gmap string V) k v :
  foldl (λ m e, <[e.1 := e.2]> m) m entries !! k = Some v →
  (k, v) ∈ entries ∨ m !! k = Some v.
Proof.
  revert m. induction entries as [|[k' v'] entries IH]; intros m; simpl.
  - by right.
  - intros [Hin | Hm]%IH.
    + left. by right.
    + destruct (decide (k' = k)) as [->|Hne].
      * rewrite lookup_insert_eq in Hm. injection Hm as ->. left. by left.
      * rewrite lookup_insert_ne in Hm by done. by right.
Qed.

(** A package found in the map of a workspace is found under its own name,
    and is a package of the workspace. *)
Lemma pkgJsonsByNameOf_lookup (allPackages : list Package) k j :
  pkgJsonsByNameOf allPackages !! k = Some j →
  pkg_name j = k ∧ k ∈ pkgNames allPackages.
Proof.
  unfold pkgJsonsByNameOf, Map_new. intros [Hin | Hm]%Map_new_from.
  - apply list_elem_of_fmap in Hin as (p & [= -> ->] & Hp).
    split; [done |]. unfold pkgNames.
    apply list_elem_of_fmap. by exists p.
  - by rewrite lookup_empty in Hm.
Qed.

(** ** The first-major question *)

Lemma append_inj_r (a b c : string) : a +:+ c = b +:+ c → a = b.
Proof.
  intros H.
  assert (String.length a = String.length b) as Hlen.
  { apply (f_equal String.length) in H.
    assert (∀ x y, String.length (x +:+ y) = String.length x + String.length y) as L
      by (intros x y; induction x as [|? x IHx]; simpl; [done | by rewrite IHx]).
    rewrite !L in H. lia. }
  revert b H Hlen. induction a as [|x a IH]; intros [|y b] H Hlen; simpl in *; try done.
  injection H as -> H. f_equal. apply IH; [done | lia].
Qed.

Lemma firstMajorQuestion_inj (p q : string) :
  firstMajorQuestion p = firstMajorQuestion q → p = q.
Proof.
  unfold firstMajorQuestion, bold, red. intros H.
  apply (inj (String.append _)) in H.
  apply (inj (String.append _)) in H.
  apply (inj (String.append _)) in H.
  by apply append_inj_r in H.
Qed.

Lemma firstMajorQuestion_not_reuse (p : string) : firstMajorQuestion p ≠ reuseQuestion.
Proof. unfold firstMajorQuestion, bold, red, reuseQuestion. simpl. discriminate. Qed.

(** ** The bump rounds *)

Lemma getPkgJson_Returned byName pkgName j w w' :
  getPkgJson byName pkgName w = Returned j w' ↔ byName !! pkgName = Some j ∧ w' = w.
Proof.
  unfold getPkgJson. destruct (byName !! pkgName) as [j'|]; split.
  - by intros [= -> ->].
  - by intros [[= ->] ->].
  - done.
  - by intros [? _].
Qed.

Lemma packageChoices_Returned byName pkgNames choices w w' :
  packageChoices byName pkgNames w = Returned choices w' →
  choices = pkgNames ∧ w' = w ∧ ∀ x, x ∈ pkgNames → is_Some (byName !! x).
Proof.
  unfold packageChoices. intros Hrun.
  assert (∃ before, pkgNames = before ++ [] ∧ choices = before ∧ w' = w ∧
            ∀ x, x ∈ before → is_Some (byName !! x)) as (before & Hp & -> & -> & Hall).
  { eapply (forOf_invariant
      (λ (rest : list string) (cur : list string) (wc : World),
         ∃ before, pkgNames = before ++ rest ∧ cur = before ∧ wc = w ∧
           ∀ x, x ∈ before → is_Some (byName !! x))); [exact Hrun | |].
    - exists []. repeat split; try done. by intros x ?%elem_of_nil.
    - intros x rest cur wc cur1 w1 (before & Hp & -> & -> & Hall) Hbody.
      apply bind_Returned in Hbody as (j & w2 & Hget & Hbody).
      apply getPkgJson_Returned in Hget as [Hj ->].
      apply ret_Returned in Hbody as [<- <-].
      exists (before ++ [x]). repeat split; try done.
      + rewrite Hp. by rewrite <- app_assoc.
      + intros y [Hy | ->%list_elem_of_singleton]%elem_of_app; [by apply Hall | by eexists]. }
  rewrite app_nil_r in Hp. by subst before.
Qed.

Section Rounds.

Variable semver_lt : string → string → option bool.

Lemma confirmMajorRelease_Returned pkgJSON b w w' :
  confirmMajorRelease semver_lt pkgJSON w = Returned b w' →
  (semver_lt (pkg_version pkgJSON) "1.0.0" = Some false ∧ b = true ∧ w' = w) ∨
  (semver_lt (pkg_version pkgJSON) "1.0.0" = Some true ∧
   ∃ rest, inputs w = Confirm b :: rest ∧
           w' = answered (firstMajorQuestion (pkg_name pkgJSON)) (Confirm b) rest w).
Proof.
  unfold confirmMajorRelease. destruct (semver_lt _ _) as [[|]|]; [| | done].
  - intros H. apply bind_Returned in H as (b' & w1 & Hask & H).
    apply ret_Returned in H as [<- <-].
    apply askConfirm_Returned in Hask. by right.
  - intros [<- <-]%ret_Returned. by left.
Qed.

(** [confirmMajorRelease] raises only what [semver.lt] throws, before any
    question. *)
Lemma confirmMajorRelease_Raised pkgJSON w e w' :
  confirmMajorRelease semver_lt pkgJSON w = Raised e w' ↔
  semver_lt (pkg_version pkgJSON) "1.0.0" = None ∧ e = TypeError ∧ w' = w.
Proof.
  unfold confirmMajorRelease. destruct (semver_lt _ _) as [[|]|]; split; try done.
  - intros [H | (b & w1 & _ & H)]%bind_Raised; [| done].
    unfold askConfirm in H. by destruct (inputs w) as [|[] ?].
  - by intros [? _].
  - by intros [? _].
  - by intros [= <- <-].
  - by intros (_ & -> & ->).
Qed.

Lemma majorInv_step byName left0 w0 x rest st w st1 w1 :
  (∀ k j, byName !! k = Some j → pkg_name j = k) →
  majorInv left0 w0 (x :: rest) st w →
  (pkgJson <- getPkgJson byName x ;;
   shouldReleaseFirstMajor <- confirmMajorRelease semver_lt pkgJson ;;
   if (shouldReleaseFirstMajor : bool) then
     ret (Set_delete x st.1, st.2 ++ [mkRelease x major])
   else ret st) w = Returned st1 w1 →
  majorInv left0 w0 rest st1 w1.
Proof.
  intros Hkeyed (Hnd & Hrest & Hnames & Hsub & Hmaj & Hleft & Hg & Hf & Hev) Hbody.
  apply NoDup_cons in Hnd as [Hx Hnd].
  assert (x ∈ st.1) as Hxl by (apply Hrest; left).
  apply bind_Returned in Hbody as (j & w2 & Hget & Hbody).
  apply getPkgJson_Returned in Hget as [Hj ->].
  apply Hkeyed in Hj as Hname.
  apply bind_Returned in Hbody as (b & w2 & Hconf & Hbody).
  assert (grows bumpEvent w w2 ∧ files w2 = files w ∧
          ∀ q b', askedDuring w w2 (Asked (firstMajorQuestion q) (Confirm b')) →
                  q = x ∧ b' = b) as (Hg2 & Hf2 & Hev2).
  { apply confirmMajorRelease_Returned in Hconf
      as [(_ & _ & ->) | (_ & rest' & Hin & ->)].
    - split; [apply grows_refl |]. split; [done |].
      by intros q b' ?%askedDuring_same.
    - split; [apply grows_answered; by eexists |]. split; [done |].
      intros q b' [Hq Hb]%askedDuring_answered_inv%Asked_inj. injection Hb as ->.
      apply firstMajorQuestion_inj in Hq. by rewrite Hq, Hname. }
  assert (∀ q b', askedDuring w0 w2 (Asked (firstMajorQuestion q) (Confirm b')) →
            ((q ∉ x :: rest) ∧ (b' = false → q ∈ st.1)) ∨ (q = x ∧ b' = b)) as Hev'.
  { intros q b' [H|H]%(askedDuring_split _ _ _ _ _ _ Hg Hg2); [left | right]; eauto. }
  destruct b.
  - apply ret_Returned in Hbody as [<- <-]. unfold majorInv. cbn [fst snd].
    assert (x ∉ map rel_name st.2) as Hxn.
    { rewrite Hleft in Hxl. by apply list_elem_of_filter in Hxl as [? _]. }
    assert (x ∈ left0) as Hx0.
    { rewrite Hleft in Hxl. by apply list_elem_of_filter in Hxl as [_ ?]. }
    split; [done |]. split.
    { intros y Hy. apply elem_of_Set_delete. split; [by apply Hrest; right |].
      by intros ->. }
    rewrite map_app. cbn [map rel_name]. split.
    { apply NoDup_app. split; [done |]. split; [| apply NoDup_singleton].
      by intros y Hy ->%list_elem_of_singleton. }
    split.
    { intros y [Hy | ->%list_elem_of_singleton]%elem_of_app; [by apply Hsub | done]. }
    split; [apply Forall_app; split; [done | by repeat constructor] |].
    split.
    { unfold Set_delete. rewrite Hleft, list_filter_filter.
      apply list_filter_iff. intros y. rewrite not_elem_of_app, list_elem_of_singleton.
      tauto. }
    split; [by eapply grows_trans |]. split; [by rewrite Hf2 |].
    intros q b' [(Hq & Hdecl) | (-> & ->)]%Hev'.
    + apply not_elem_of_cons in Hq as [Hqx Hq]. split; [done |].
      intros Hb. apply elem_of_Set_delete. split; [by apply Hdecl | done].
    + split; [done | done].
  - apply ret_Returned in Hbody as [<- <-]. unfold majorInv.
    split; [done |]. split; [intros y Hy; apply Hrest; by right |].
    do 4 (split; [done |]).
    split; [by eapply grows_trans |]. split; [by rewrite Hf2 |].
    intros q b' [(Hq & Hdecl) | (-> & ->)]%Hev'.
    + apply not_elem_of_cons in Hq as [Hqx Hq]. by split.
    + by split.
Qed.

Lemma filter_not_in_nil (l : list string) : filter (λ y, y ∉ @nil string) l = l.
Proof.
  induction l as [|y l IH]; [done |].
  rewrite filter_cons_True by apply not_elem_of_nil. by rewrite IH.
Qed.

Lemma majorRound_Returned byName pkgs left0 w st w' :
  (∀ k j, byName !! k = Some j → pkg_name j = k) →
  (∀ x, x ∈ pkgs → x ∈ left0) →
  majorRound semver_lt byName pkgs (left0, []) w = Returned st w' →
  (∀ x, x ∈ pkgs → is_Some (byName !! x)) ∧ majorInv left0 w [] st w'.
Proof.
  intros Hkeyed Hsub. unfold majorRound. intros H.
  apply bind_Returned in H as (choices & w0 & Hch & H).
  apply packageChoices_Returned in Hch as (-> & -> & Hall).
  apply bind_Returned in H as (sel & w1 & Hask & H).
  apply askCheckboxPlus_Returned in Hask as (rest & Hin & Hnd & Hsel & ->).
  split; [done |].
  eapply (forOf_invariant (majorInv left0 w)); [exact H | |].
  - unfold majorInv. cbn [fst snd map].
    split; [by apply NoDup_filter |]. split.
    { intros x [Hx Hxs]%list_elem_of_filter. apply Hsub.
      apply Hsel in Hxs. cbn in Hxs. rewrite app_nil_r in Hxs.
      by apply elem_of_cons in Hxs as [-> | ?]. }
    split; [constructor |]. split; [by intros y ?%elem_of_nil |].
    split; [constructor |]. split; [by rewrite filter_not_in_nil |].
    split; [by apply grows_answered |]. split; [done |].
    intros q b [_ [=]]%askedDuring_answered_inv%Asked_inj.
  - intros x rest1 st0 wc st1 wc1 Hinv Hbody. by eapply majorInv_step.
Qed.

Lemma minorLoop_pure (l : list string) (st : Rounds) :
  foldl (λ (st : Rounds) x, (Set_delete x st.1, st.2 ++ [mkRelease x minor])) st l =
  (foldl (λ s x, Set_delete x s) st.1 l, st.2 ++ map (λ x, mkRelease x minor) l).
Proof.
  revert st. induction l as [|x l IH]; intros [lf rs]; simpl.
  - by rewrite app_nil_r.
  - rewrite IH. cbn [fst snd]. by rewrite <- app_assoc.
Qed.

Lemma minorRound_Returned byName st w st' w' :
  minorRound byName st w = Returned st' w' →
  ∃ chosen,
    NoDup chosen ∧ chosen ⊆ st.1 ∧
    st' = (filter (λ y, y ∉ chosen) st.1,
           st.2 ++ map (λ x, mkRelease x minor) chosen) ∧
    grows ticked w w' ∧ files w' = files w ∧
    (st.1 ≠ [] →
     ∃ sel, chosen = filter (λ x, x ≠ "all packages") sel ∧
            askedDuring w w' (Asked minorQuestion (Ticks sel))).
Proof.
  unfold minorRound. case_decide as Hlen.
  - intros H.
    apply bind_Returned in H as (choices & w0 & Hch & H).
    apply packageChoices_Returned in Hch as (-> & -> & Hall).
    apply bind_Returned in H as (sel & w1 & Hask & H).
    apply askCheckboxPlus_Returned in Hask as (rest & Hin & Hnd & Hsel & ->).
    rewrite (forOf_pure
               (λ pkgName (st : Rounds),
                  (Set_delete pkgName st.1, st.2 ++ [mkRelease pkgName minor]))) in H.
    injection H as <- <-.
    exists (filter (λ x, x ≠ "all packages") sel).
    split; [by apply NoDup_filter |]. split.
    { intros x [Hx Hxs]%list_elem_of_filter.
      apply Hsel in Hxs. cbn in Hxs. rewrite app_nil_r in Hxs.
      by apply elem_of_cons in Hxs as [-> | ?]. }
    split; [by rewrite minorLoop_pure, Set_delete_all |].
    split; [by apply grows_answered |]. split; [done |].
    intros _. exists sel. split; [done | apply askedDuring_answered].
  - intros [<- <-]%ret_Returned. exists [].
    assert (st.1 = []) as Hnil by by apply nil_length_inv.
    split; [constructor |]. split; [set_solver |].
    split; [| split; [apply grows_refl | by split]].
    rewrite filter_not_in_nil. cbn [map]. rewrite app_nil_r. by destruct st.
Qed.

Lemma patchLoop_pure (l : list string) (rels : list Release) :
  foldl (λ releases x, releases ++ [mkRelease x patch]) rels l =
  rels ++ map (λ x, mkRelease x patch) l.
Proof.
  revert rels. induction l as [|x l IH]; intros rels; simpl.
  - by rewrite app_nil_r.
  - rewrite IH. by rewrite <- app_assoc.
Qed.

Lemma patchRound_Returned byName st w st' w' :
  patchRound byName st w = Returned st' w' →
  st' = (st.1, st.2 ++ map (λ x, mkRelease x patch) st.1) ∧ w' = w.
Proof.
  unfold patchRound. case_decide as Hlen.
  - intros H.
    apply bind_Returned in H as (u & w0 & Hlog & H).
    assert (w0 = w) as ->.
    { eapply (forOf_invariant (λ (_ : list string) (_ : unit) (wc : World), wc = w));
        [exact Hlog | done |].
      intros x rest [] wc [] w1 -> Hbody.
      apply bind_Returned in Hbody as (j & w2 & Hget & Hbody).
      apply getPkgJson_Returned in Hget as [_ ->].
      by apply ret_Returned in Hbody as [_ <-]. }
    apply bind_Returned in H as (rels & w1 & Hloop & H).
    rewrite (forOf_pure (λ pkgName releases, releases ++ [mkRelease pkgName patch]))
      in Hloop.
    injection Hloop as <- <-. apply ret_Returned in H as [<- <-].
    by rewrite patchLoop_pure.
  - intros [<- <-]%ret_Returned.
    assert (st.1 = []) as Hnil by by apply nil_length_inv.
    rewrite Hnil. cbn [map]. rewrite app_nil_r. split; [| done].
    destruct st as [lf rs]. cbn in *. by subst.
Qed.

(** What the three rounds leave: the majors, then the packages chosen in
    the minor round, then everything still unassigned as patch. *)
Lemma assignBumpTypes_Returned byName pkgs w rels w' :
  (∀ k j, byName !! k = Some j → pkg_name j = k) →
  assignBumpTypes semver_lt byName pkgs w = Returned rels w' →
  ∃ left majors chosen,
    (∀ x, x ∈ pkgs → is_Some (byName !! x)) ∧
    rels = majors ++ map (λ x, mkRelease x minor) chosen ++
           map (λ x, mkRelease x patch) (filter (λ y, y ∉ chosen) left) ∧
    Forall (λ r, rel_type r = major) majors ∧
    NoDup (map rel_name majors) ∧ map rel_name majors ⊆ Set_new pkgs ∧
    left = filter (λ y, y ∉ map rel_name majors) (Set_new pkgs) ∧
    NoDup chosen ∧ chosen ⊆ left ∧
    grows bumpEvent w w' ∧ files w' = files w ∧
    (∀ q, askedDuring w w' (Asked (firstMajorQuestion q) (Confirm false)) → q ∈ left) ∧
    (left ≠ [] →
     ∃ sel, chosen = filter (λ x, x ≠ "all packages") sel ∧
            askedDuring w w' (Asked minorQuestion (Ticks sel))).
Proof.
  intros Hkeyed. unfold assignBumpTypes. intros H.
  apply bind_Returned in H as ([left majors] & w1 & Hmajor & H).
  apply majorRound_Returned in Hmajor as (Hall & Hinv); [| done |];
    [| by intros x ?%elem_of_Set_new].
  destruct Hinv as (_ & _ & Hnames & Hsub & Hmaj & Hleft & Hg1 & Hf1 & Hev).
  cbn [fst snd] in *.
  apply bind_Returned in H as (st2 & w2 & Hminor & H).
  apply minorRound_Returned in Hminor
    as (chosen & Hnd & Hch & -> & Hg2 & Hf2 & Hsel).
  cbn [fst snd] in *.
  apply bind_Returned in H as (st3 & w3 & Hpatch & H).
  apply patchRound_Returned in Hpatch as [-> ->]. cbn [fst snd] in *.
  apply ret_Returned in H as [<- <-]. cbn [snd].
  assert (grows bumpEvent w1 w2) as Hg2'.
  { eapply grows_weaken; [| exact Hg2]. by intros [m []]. }
  exists left, majors, chosen.
  split; [done |]. split; [by rewrite <- app_assoc |].
  do 6 (split; [done |]).
  split; [by eapply grows_trans |]. split; [by rewrite Hf2 |]. split.
  - intros q [Hq | Hq]%(askedDuring_split _ _ _ _ _ _ Hg1 Hg2').
    + by apply (Hev q false).
    + by apply (askedDuring_grows _ _ _ _ Hg2) in Hq.
  - intros Hne. destruct (Hsel Hne) as (sel & -> & Hasked).
    exists sel. split; [done |].
    by eapply askedDuring_second.
Qed.

End Rounds.

(** ** Choosing the packages *)

(** Turns beyond the length of the script change nothing, when every call
    of the callback that returns has taken an answer. *)
Lemma chooseAtLeastOne_retry_turns {A} (callbackToRetry : M (list A)) n m sel w :
  (∀ w a w', callbackToRetry w = Returned a w' →
             length (inputs w') < length (inputs w)) →
  length (inputs w) < n → length (inputs w) < m →
  chooseAtLeastOne_retry n callbackToRetry sel w =
  chooseAtLeastOne_retry m callbackToRetry sel w.
Proof.
  intros Htakes. revert m sel w.
  induction n as [|n IH]; intros m sel w Hn Hm; [lia |].
  destruct m as [|m]; [lia |].
  destruct sel as [|a sel]; [| done].
  simpl. unfold bind.
  destruct (callbackToRetry w) as [sel' w1| |] eqn:Hcb; [| done..].
  apply Htakes in Hcb. apply IH; lia.
Qed.

Lemma chooseAtLeastOne_retry_Returned {A} (R : World → World → Prop)
    (callbackToRetry : M (list A)) n sel w r w' :
  (∀ w, R w w) → (∀ a b c, R a b → R b c → R a c) →
  (∀ w a w', callbackToRetry w = Returned a w' → R w w') →
  chooseAtLeastOne_retry n callbackToRetry sel w = Returned r w' →
  R w w' ∧ ((sel ≠ [] ∧ r = sel) ∨
            ∃ w0, callbackToRetry w0 = Returned r w' ∧ r ≠ []).
Proof.
  intros Hrefl Htrans Hcb. revert sel w.
  induction n as [|n IH]; intros sel w; destruct sel as [|a sel]; simpl; try done.
  - intros [<- <-]%ret_Returned. split; [done |]. by left.
  - intros H. apply bind_Returned in H as (sel' & w1 & Hcall & H).
    destruct (IH _ _ H) as [HR Hsel].
    split; [eapply Htrans; [eapply Hcb; exact Hcall | exact HR] |].
    right. destruct Hsel as [[Hne ->] | ?]; [| done].
    destruct sel' as [|a sel']; [done |].
    destruct n; simpl in H; apply ret_Returned in H as [_ <-]; by exists w.
  - intros [<- <-]%ret_Returned. split; [done |]. by left.
Qed.

Lemma getPackagesToRelease_Returned changedPackages allPackages w pkgs w' :
  getPackagesToRelease changedPackages allPackages w = Returned pkgs w' →
  grows ticked w w' ∧ files w' = files w.
Proof.
  unfold getPackagesToRelease. case_decide as Hlen.
  - intros H. apply bind_Returned in H as (sel & w1 & Hchoose & H).
    apply ret_Returned in H as [_ <-].
    unfold chooseAtLeastOne in Hchoose.
    apply bind_Returned in Hchoose as (sel0 & w0 & Hfirst & Hretry).
    assert (∀ w a w', askInitialReleaseQuestion
              (filter (λ g, length (groupChoices g) ≠ 0)
                 [Group "changed packages" changedPackages;
                  Group "unchanged packages"
                    (filter (λ name, name ∉ changedPackages)
                       (map (λ p, pkg_name (packageJson p)) allPackages))]) w =
            Returned a w' → grows ticked w w' ∧ files w' = files w) as Hcb.
    { intros wa a wb (rest & _ & _ & _ & ->)%askCheckboxPlus_Returned.
      split; [by apply grows_answered | done]. }
    apply (chooseAtLeastOne_retry_Returned
             (λ w w', grows ticked w w' ∧ files w' = files w)) in Hretry
      as [[Hg Hf] _]; [| | | exact Hcb].
    + destruct (Hcb _ _ _ Hfirst) as [Hg0 Hf0].
      split; [by eapply grows_trans | by rewrite Hf].
    + intros w2. split; [apply grows_refl | done].
    + intros a b c [? Hab] [? Hbc]. split; [by eapply grows_trans | by rewrite Hbc].
  - destruct allPackages; [done |]. intros [_ <-]%ret_Returned.
    split; [apply grows_refl | done].
Qed.

(** ** [createChangeset], taken apart *)

Section CreateChangeset.

Variable semver_lt : string → string → option bool.

(** The multi-package path: its five steps and the worlds between them. *)
Lemma createChangeset_multi changedPackages allPackages w cs w' :
  1 < length allPackages →
  createChangeset semver_lt changedPackages allPackages w = Returned cs w' →
  ∃ pkgs w1 chosen w2 rels w3 lists w4,
    getPackagesToRelease changedPackages allPackages w = Returned pkgs w1 ∧
    askCheckboxPlus kindOfChangeQuestion (map Item allCategoriesOfChange) w1 =
      Returned chosen w2 ∧
    assignBumpTypes semver_lt (pkgJsonsByNameOf allPackages) pkgs w2 = Returned rels w3 ∧
    (if bool_decide (0 < length chosen)
     then askChangeTypes chosen rels w3
     else ret ([], []) w3) = Returned lists w4 ∧
    finishChangesets (bool_decide (0 < length chosen)) rels lists.2 w4 = Returned cs w'.
Proof.
  intros Hlen. unfold createChangeset. rewrite decide_True by done. intros H.
  apply bind_Returned in H as (pkgs & w1 & H1 & H).
  apply bind_Returned in H as (chosen & w2 & H2 & H).
  apply bind_Returned in H as (rels & w3 & H3 & H).
  apply bind_Returned in H as (lists & w4 & H4 & H).
  exists pkgs, w1, chosen, w2, rels, w3, lists, w4.
  repeat split; try done.
  by destruct (bool_decide (0 < length chosen)).
Qed.

(** The single-package path. *)
Lemma createChangeset_single changedPackages p w cs w' :
  createChangeset semver_lt changedPackages [p] w = Returned cs w' →
  ∃ t w1,
    finishChangesets false [mkRelease (pkg_name (packageJson p)) t] [] w1 =
      Returned cs w'.
Proof.
  unfold createChangeset. rewrite decide_False by (simpl; lia). intros H.
  apply bind_Returned in H as (t & w1 & _ & H).
  apply bind_Returned in H as (u & w2 & _ & H). eauto.
Qed.

(** The releases of the rounds name packages of the workspace. *)
Lemma assignBumpTypes_names allPackages pkgs w rels w' :
  assignBumpTypes semver_lt (pkgJsonsByNameOf allPackages) pkgs w = Returned rels w' →
  ∀ r, r ∈ rels → rel_name r ∈ pkgNames allPackages.
Proof.
  intros H.
  apply assignBumpTypes_Returned in H
    as (left & majors & chosen & Hall & -> & _ & _ & Hsub & -> & _ & Hch & _);
    [| intros k j Hj; by apply pkgJsonsByNameOf_lookup in Hj as [? _]].
  assert (∀ x, x ∈ Set_new pkgs → x ∈ pkgNames allPackages) as Hin.
  { intros x Hx. apply (proj1 (elem_of_Set_new _ _)) in Hx.
    destruct (Hall x Hx) as [j Hj].
    by apply pkgJsonsByNameOf_lookup in Hj as [_ ?]. }
  intros r [Hr | [Hr | Hr]%elem_of_app]%elem_of_app.
  - apply Hin, Hsub. by apply list_elem_of_fmap_2.
  - apply list_elem_of_fmap in Hr as (x & -> & Hx). cbn.
    apply Hch in Hx. apply list_elem_of_filter in Hx as [_ Hx]. by apply Hin.
  - apply list_elem_of_fmap in Hr as (x & -> & Hx). cbn.
    apply list_elem_of_filter in Hx as [_ Hx].
    apply list_elem_of_filter in Hx as [_ Hx]. by apply Hin.
Qed.

End CreateChangeset.

(** ** The elimination is a partition *)

Lemma filter_type_same (t : VersionType) (l : list Release) :
  Forall (λ r, rel_type r = t) l → filter (λ r, rel_type r = t) l = l.
Proof.
  induction 1 as [|r l Hr _ IH]; [done |].
  by rewrite filter_cons_True, IH.
Qed.

Lemma filter_type_other (t t' : VersionType) (l : list Release) :
  t ≠ t' → Forall (λ r, rel_type r = t) l → filter (λ r, rel_type r = t') l = [].
Proof.
  intros Hne. induction 1 as [|r l Hr _ IH]; [done |].
  rewrite filter_cons_False; [done | congruence].
Qed.

Lemma Forall_type_map (t : VersionType) (l : list string) :
  Forall (λ r, rel_type r = t) (map (λ x, mkRelease x t) l).
Proof. induction l; by constructor. Qed.

Lemma names_map (t : VersionType) (l : list string) :
  map rel_name (map (λ x, mkRelease x t) l) = l.
Proof. induction l as [|x l IH]; [done |]. simpl. by rewrite IH. Qed.

(** The three groups of releases in the shape the rounds leave them. *)
Lemma namesOf_rounds (majors : list Release) (minors patches : list string) :
  Forall (λ r, rel_type r = major) majors →
  let rels := majors ++ map (λ x, mkRelease x minor) minors ++
              map (λ x, mkRelease x patch) patches in
  namesOf major rels = map rel_name majors ∧
  namesOf minor rels = minors ∧
  namesOf patch rels = patches ∧
  namesOf none rels = [].
Proof.
  intros Hmaj rels. unfold namesOf, rels. rewrite !filter_app.
  pose proof (Forall_type_map minor minors) as Hmin.
  pose proof (Forall_type_map patch patches) as Hpat.
  repeat split.
  - rewrite (filter_type_same major) by done.
    rewrite (filter_type_other minor major) by done.
    rewrite (filter_type_other patch major) by done.
    by rewrite !app_nil_r.
  - rewrite (filter_type_other major minor) by done.
    rewrite (filter_type_same minor) by done.
    rewrite (filter_type_other patch minor) by done.
    rewrite app_nil_r. cbn [app]. by rewrite names_map.
  - rewrite (filter_type_other major patch) by done.
    rewrite (filter_type_other minor patch) by done.
    rewrite (filter_type_same patch) by done.
    cbn [app]. by rewrite names_map.
  - rewrite (filter_type_other major none) by done.
    rewrite (filter_type_other minor none) by done.
    by rewrite (filter_type_other patch none) by done.
Qed.

Section Partition.

Variable semver_lt : string → string → option bool.

(** C2. When the three rounds return, the names of the major, the minor
    and the patch releases, put together, are a rearrangement of the set of
    selected packages, and that set has no package twice: every selected
    package is in exactly one of the three groups, once, and nothing else is
    in a group. (A checkbox answers with keys it was offered, each once.) *)
Theorem bump_groups_partition_candidates allPackages packagesToRelease w rels w' :
  assignBumpTypes semver_lt (pkgJsonsByNameOf allPackages) packagesToRelease w =
    Returned rels w' →
  let majors := namesOf major rels in
  let minors := namesOf minor rels in
  let patches := namesOf patch rels in
  majors ++ minors ++ patches ≡ₚ Set_new packagesToRelease ∧
  NoDup (majors ++ minors ++ patches) ∧
  (∀ p, p ∈ packagesToRelease ↔ p ∈ majors ∨ p ∈ minors ∨ p ∈ patches) ∧
  (∀ p, ¬ (p ∈ majors ∧ p ∈ minors) ∧ ¬ (p ∈ majors ∧ p ∈ patches) ∧
        ¬ (p ∈ minors ∧ p ∈ patches)) ∧
  map rel_name rels = majors ++ minors ++ patches.
Proof.
  intros H.
  apply assignBumpTypes_Returned in H
    as (left & mj & chosen & _ & -> & Hmaj & Hnd & Hsub & Hleft & Hndc & Hch & _);
    [| intros k j Hj; by apply pkgJsonsByNameOf_lookup in Hj as [? _]].
  destruct (namesOf_rounds mj chosen (filter (λ y, y ∉ chosen) left) Hmaj)
    as (-> & -> & -> & _).
  cbn zeta.
  assert (NoDup left) as Hndl by (rewrite Hleft; apply NoDup_filter, Set_new_NoDup).
  assert (map rel_name mj ++ chosen ++ filter (λ y, y ∉ chosen) left
          ≡ₚ Set_new packagesToRelease) as Hperm.
  { rewrite (part_and_rest chosen left) by done.
    rewrite Hleft. apply part_and_rest; [apply Set_new_NoDup | done..]. }
  assert (NoDup (map rel_name mj ++ chosen ++ filter (λ y, y ∉ chosen) left)) as Hall.
  { rewrite Hperm. apply Set_new_NoDup. }
  split; [done |]. split; [done |]. split; [| split].
  - intros p. rewrite <- elem_of_Set_new, <- Hperm, !elem_of_app. done.
  - intros p. apply NoDup_app in Hall as (_ & Hdisj & Hrest).
    apply NoDup_app in Hrest as (_ & Hdisj' & _).
    repeat split.
    + intros [Hp Hq]. apply (Hdisj p Hp). apply elem_of_app. by left.
    + intros [Hp Hq]. apply (Hdisj p Hp). apply elem_of_app. by right.
    + intros [Hp Hq]. by apply (Hdisj' p Hp).
  - by rewrite !map_app, !names_map.
Qed.

End Partition.

Lemma bump_groups_partition_candidates_witness :
  ∃ rels w',
    assignBumpTypes lt_by_leading_zero (pkgJsonsByNameOf workspace) ["a"; "b"; "c"]
      (session [Ticks ["a"; "b"]; Confirm false; Ticks ["b"]]) = Returned rels w' ∧
    namesOf major rels ++ namesOf minor rels ++ namesOf patch rels
      ≡ₚ Set_new ["a"; "b"; "c"].
Proof.
  eexists _, _. split; [vm_compute; reflexivity |].
  eapply (bump_groups_partition_candidates lt_by_leading_zero workspace ["a"; "b"; "c"]
            (session [Ticks ["a"; "b"]; Confirm false; Ticks ["b"]])).
  vm_compute. reflexivity.
Defined.

Section Invariants.

Variable semver_lt : string → string → option bool.

(** Every changeset that [createChangeset] returns has a summary, and its
    releases name packages of the workspace; this needs nothing of
    [changedPackages], since every selected name is looked up in the map of
    the workspace before the first bump prompt. *)
Lemma createChangeset_summary_and_names changedPackages allPackages w cs w' :
  createChangeset semver_lt changedPackages allPackages w = Returned cs w' →
  ∀ c, c ∈ cs →
    cwc_summary c ≠ "" ∧
    ∀ r, r ∈ cwc_releases c → rel_name r ∈ pkgNames allPackages.
Proof.
  intros H c Hc.
  destruct (decide (1 < length allPackages)) as [Hlen|Hlen].
  - apply createChangeset_multi in H
      as (pkgs & w1 & chosen & w2 & rels & w3 & [cats csl] & w4 &
          _ & _ & Hassign & Hask & Hfinish); [| done].
    pose proof (assignBumpTypes_names _ _ _ _ _ _ Hassign) as Hnames.
    apply finishChangesets_Returned in Hfinish as (HF & _ & _).
    apply list_elem_of_lookup in Hc as [i Hi].
    destruct (Forall2_lookup_r _ _ _ i c HF Hi) as (c0 & Hi0 & Hne & Hrel & _).
    split; [done |]. rewrite Hrel. intros r Hr. apply Hnames.
    apply list_elem_of_lookup_2 in Hi0.
    destruct (bool_decide (0 < length chosen)); cbn [negb snd] in Hi0.
    + apply askChangeTypes_Returned in Hask
        as (b & rest & _ & _ & _ & _ & _ & Hshape).
      destruct b.
      * destruct Hshape as [-> _]. by apply elem_of_nil in Hi0.
      * destruct Hshape as [_ Hshape].
        apply list_elem_of_lookup in Hi0 as [k Hk].
        destruct (Forall2_lookup_r _ _ _ k c0 Hshape Hk) as (r0 & Hr0 & Hc0 & _).
        rewrite Hc0 in Hr. apply list_elem_of_singleton in Hr as ->.
        by apply list_elem_of_lookup_2 in Hr0.
    + apply ret_Returned in Hask as [[= <- <-] _]. cbn [app] in Hi0.
      apply list_elem_of_singleton in Hi0 as ->. by cbn in Hr.
  - destruct allPackages as [|p [|q rest]]; [| | simpl in Hlen; lia].
    + by unfold createChangeset in H.
    + apply createChangeset_single in H as (t & w1 & Hfinish).
      apply finishChangesets_Returned in Hfinish as (HF & _ & _).
      apply list_elem_of_lookup in Hc as [i Hi].
      destruct (Forall2_lookup_r _ _ _ i c HF Hi) as (c0 & Hi0 & Hne & Hrel & _).
      split; [done |]. rewrite Hrel. intros r Hr.
      apply list_elem_of_lookup_2 in Hi0. cbn [negb app] in Hi0.
      apply list_elem_of_singleton in Hi0 as ->. cbn in Hr.
      apply list_elem_of_singleton in Hr as ->. cbn. left.
Qed.

(** C3. Every changeset in the list that [createChangeset] returns has a
    summary that is not empty, and every release in it names a package of
    [allPackages] (the names of [changedPackages] being names of
    [allPackages]). *)
Theorem returned_changesets_are_summarised_and_in_workspace
    changedPackages allPackages w cs w' :
  changedPackages ⊆ pkgNames allPackages →
  createChangeset semver_lt changedPackages allPackages w = Returned cs w' →
  ∀ c, c ∈ cs →
    cwc_summary c ≠ "" ∧
    ∀ r, r ∈ cwc_releases c → rel_name r ∈ pkgNames allPackages.
Proof. intros _. apply createChangeset_summary_and_names. Qed.

End Invariants.

Lemma returned_changesets_are_summarised_and_in_workspace_witness :
  ["a"; "b"] ⊆ pkgNames workspace ∧
  ∃ cs w',
    createChangeset lt_by_leading_zero ["a"; "b"] workspace (session plainScript) =
      Returned cs w' ∧
    length cs = 1 ∧
    ∀ c, c ∈ cs →
      cwc_summary c ≠ "" ∧
      ∀ r, r ∈ cwc_releases c → rel_name r ∈ pkgNames workspace.
Proof.
  assert (["a"; "b"] ⊆ pkgNames workspace) as Hsub.
  { intros x Hx. vm_compute. set_solver. }
  split; [exact Hsub |].
  eexists _, _. split; [vm_compute; reflexivity |]. split; [reflexivity |].
  eapply (returned_changesets_are_summarised_and_in_workspace lt_by_leading_zero
            ["a"; "b"] workspace (session plainScript)).
  - exact Hsub.
  - vm_compute. reflexivity.
Defined.

Section Decline.

Variable semver_lt : string → string → option bool.

(** C5. A package whose first-major question was answered no during the
    rounds has no major release in their result. The minor prompt was then
    asked, and the package has a minor release if it was chosen there and a
    patch release if it was not. *)
Theorem declined_first_major_falls_through
    allPackages packagesToRelease w rels w' pkgName :
  assignBumpTypes semver_lt (pkgJsonsByNameOf allPackages) packagesToRelease w =
    Returned rels w' →
  askedDuring w w' (Asked (firstMajorQuestion pkgName) (Confirm false)) →
  (mkRelease pkgName major ∉ rels) ∧
  ∃ selected,
    askedDuring w w' (Asked minorQuestion (Ticks selected)) ∧
    let pkgsThatShouldBeMinorBumped := filter (λ x, x ≠ "all packages") selected in
    (pkgName ∈ pkgsThatShouldBeMinorBumped ∧
     mkRelease pkgName minor ∈ rels ∧ mkRelease pkgName patch ∉ rels) ∨
    ((pkgName ∉ pkgsThatShouldBeMinorBumped) ∧
     mkRelease pkgName patch ∈ rels ∧ mkRelease pkgName minor ∉ rels).
Proof.
  intros H Hdeclined.
  apply assignBumpTypes_Returned in H
    as (left & mj & chosen & _ & -> & Hmaj & Hnd & Hsub & Hleft & Hndc & Hch & _ & _ &
        Hev & Hminor);
    [| intros k j Hj; by apply pkgJsonsByNameOf_lookup in Hj as [? _]].
  apply Hev in Hdeclined as Hin.
  assert (pkgName ∉ map rel_name mj) as Hnot.
  { rewrite Hleft in Hin. by apply list_elem_of_filter in Hin as [? _]. }
  assert (∀ t, mkRelease pkgName t ∉ mj) as Hnomaj.
  { intros t Ht. apply Hnot. by apply (list_elem_of_fmap_2 rel_name) in Ht. }
  assert (∀ t t' (l : list string),
            t ≠ t' → mkRelease pkgName t ∉ map (λ x, mkRelease x t') l) as Hother.
  { intros t t' l Hne (x & [= -> ->] & _)%list_elem_of_fmap. done. }
  assert (∀ t (l : list string),
            mkRelease pkgName t ∈ map (λ x, mkRelease x t) l ↔ pkgName ∈ l) as Hsame.
  { intros t l. split.
    - by intros (x & [= ->] & ?)%list_elem_of_fmap.
    - intros Hl. by apply (list_elem_of_fmap_2 (λ x, mkRelease x t)) in Hl. }
  split.
  { rewrite !elem_of_app. intros [Hm | [Hm | Hm]].
    - by apply Hnomaj in Hm.
    - by apply Hother in Hm.
    - by apply Hother in Hm. }
  assert (left ≠ []) as Hne by (intros ->; by apply elem_of_nil in Hin).
  destruct (Hminor Hne) as (selected & -> & Hasked).
  exists selected. split; [done |]. cbn zeta.
  set (chosen := filter (λ x, x ≠ "all packages") selected) in *.
  destruct (decide (pkgName ∈ chosen)) as [Hc | Hc]; [left | right].
  - split; [done |]. rewrite !elem_of_app, !Hsame. split; [tauto |].
    intros [Hm | [Hm | Hm]].
    + by apply Hnomaj in Hm.
    + by apply Hother in Hm.
    + by apply list_elem_of_filter in Hm as [? _].
  - split; [done |]. rewrite !elem_of_app, !Hsame. split.
    + right. right. by apply list_elem_of_filter.
    + intros [Hm | [Hm | Hm]].
      * by apply Hnomaj in Hm.
      * done.
      * by apply Hother in Hm.
Qed.

End Decline.

Lemma declined_first_major_falls_through_witness :
  ∃ rels w',
    assignBumpTypes lt_by_leading_zero (pkgJsonsByNameOf workspace) ["a"; "b"; "c"]
      (session [Ticks ["a"; "b"]; Confirm false; Ticks ["b"]]) = Returned rels w' ∧
    rels = [mkRelease "a" major; mkRelease "b" minor; mkRelease "c" patch] ∧
    mkRelease "b" major ∉ rels.
Proof.
  eexists _, _. split; [vm_compute; reflexivity |]. split; [reflexivity |].
  eapply (declined_first_major_falls_through lt_by_leading_zero workspace ["a"; "b"; "c"]
            (session [Ticks ["a"; "b"]; Confirm false; Ticks ["b"]]) _ _ "b").
  - vm_compute. reflexivity.
  - exists [Asked minorQuestion (Ticks ["b"]);
            Asked (firstMajorQuestion "b") (Confirm false);
            Asked majorQuestion (Ticks ["a"; "b"])].
    split; [vm_compute; reflexivity |]. right. left.
Defined.

Section Abort.

Variable semver_lt : string → string → option bool.

Lemma askList_not_raised message choices w e w' :
  askList message choices w ≠ Raised e w'.
Proof.
  unfold askList. destruct (inputs w) as [|[] ?]; try done. by case_decide.
Qed.

(** C4. With one package in the workspace, [createChangeset] raises in two
    cases and in no other. When the user picks major, the version of the
    package is below 1.0.0 and the first-major question is answered no, it
    raises [ExitError 1]. When the user picks major and [semver.lt] cannot
    parse the version, the [TypeError] of [semver.lt] reaches the caller.
    In both cases no list of changesets comes back, and the files are those
    from before the call. *)
Theorem single_package_raises_on_decline_or_unreadable_version changedPackages p w :
  (declinesFirstMajor semver_lt p w →
   ∃ w', createChangeset semver_lt changedPackages [p] w = Raised (ExitError 1) w' ∧
         files w' = files w ∧
         ∀ cs w'', createChangeset semver_lt changedPackages [p] w ≠ Returned cs w'') ∧
  (picksMajorUnreadable semver_lt p w →
   ∃ w', createChangeset semver_lt changedPackages [p] w = Raised TypeError w' ∧
         files w' = files w ∧
         ∀ cs w'', createChangeset semver_lt changedPackages [p] w ≠ Returned cs w'') ∧
  (∀ e w', createChangeset semver_lt changedPackages [p] w = Raised e w' →
           files w' = files w ∧
           ((declinesFirstMajor semver_lt p w ∧ e = ExitError 1) ∨
            (picksMajorUnreadable semver_lt p w ∧ e = TypeError))).
Proof.
  assert (declinesFirstMajor semver_lt p w →
          ∃ w', createChangeset semver_lt changedPackages [p] w =
                  Raised (ExitError 1) w' ∧ files w' = files w) as Hdeclined.
  { intros (Hlt & rest & Hin).
    unfold createChangeset. rewrite decide_False by (simpl; lia).
    unfold bind, askList, confirmMajorRelease, askConfirm, ret, raise.
    rewrite Hin. rewrite decide_True by set_solver.
    rewrite decide_True by done. rewrite Hlt. cbn [inputs answered].
    eexists. split; [reflexivity | done]. }
  assert (picksMajorUnreadable semver_lt p w →
          ∃ w', createChangeset semver_lt changedPackages [p] w =
                  Raised TypeError w' ∧ files w' = files w) as Hunreadable.
  { intros (Hlt & rest & Hin).
    unfold createChangeset. rewrite decide_False by (simpl; lia).
    unfold bind, askList, confirmMajorRelease, ret, raise.
    rewrite Hin. rewrite decide_True by set_solver.
    rewrite decide_True by done. rewrite Hlt.
    eexists. split; [reflexivity | done]. }
  assert (∀ e w', createChangeset semver_lt changedPackages [p] w = Raised e w' →
                  (declinesFirstMajor semver_lt p w ∧ e = ExitError 1) ∨
                  (picksMajorUnreadable semver_lt p w ∧ e = TypeError)) as Honly.
  { unfold createChangeset. rewrite decide_False by (simpl; lia).
    intros e w' [H | (t & w1 & Hpick & H)]%bind_Raised.
    - by apply askList_not_raised in H.
    - apply askList_Returned in Hpick as (rest1 & Hin & _ & ->).
      apply bind_Raised in H as [H | (u & w2 & _ & H)].
      + case_decide as Ht; [| done]. subst t.
        apply bind_Raised in H as [H | (b & w2 & Hconf & H)].
        { apply confirmMajorRelease_Raised in H as (Hlt & -> & _).
          right. split; [| done]. split; [done |]. by exists rest1. }
        destruct b; [done |]. apply eq_sym in H. injection H as -> _.
        apply confirmMajorRelease_Returned in Hconf
          as [(_ & [=] & _) | (Hlt & rest & Hin' & _)].
        left. split; [| done]. split; [done |]. exists rest.
        cbn [inputs answered] in Hin'. by rewrite Hin, Hin'.
      + by apply finishChangesets_not_raised in H. }
  split; [| split].
  - intros Hdecl. destruct (Hdeclined Hdecl) as (w' & Hrun & Hfiles).
    exists w'. split; [done |]. split; [done |].
    intros cs w''. by rewrite Hrun.
  - intros Hunr. destruct (Hunreadable Hunr) as (w' & Hrun & Hfiles).
    exists w'. split; [done |]. split; [done |].
    intros cs w''. by rewrite Hrun.
  - intros e w' Hrun. destruct (Honly _ _ Hrun) as [[Hd ->] | [Hu ->]].
    + destruct (Hdeclined Hd) as (w0 & Hrun0 & Hfiles).
      rewrite Hrun in Hrun0. injection Hrun0 as ->. split; [done |]. by left.
    + destruct (Hunreadable Hu) as (w0 & Hrun0 & Hfiles).
      rewrite Hrun in Hrun0. injection Hrun0 as ->. split; [done |]. by right.
Qed.

End Abort.

(** The scenario of a single package foo at 0.5.0: major picked, the first
    major declined. *)
Example single_package_abort_scenario :
  ∃ w', createChangeset lt_by_leading_zero [] [pkg "foo" "0.5.0"]
          (session [Pick major; Confirm false]) = Raised (ExitError 1) w' ∧
        files w' = ∅.
Proof. eexists. split; [vm_compute; reflexivity | reflexivity]. Qed.

Lemma single_package_raises_on_decline_or_unreadable_version_witness :
  declinesFirstMajor lt_by_leading_zero (pkg "foo" "0.5.0")
    (session [Pick major; Confirm false]) ∧
  (∃ w', createChangeset lt_by_leading_zero [] [pkg "foo" "0.5.0"]
           (session [Pick major; Confirm false]) = Raised (ExitError 1) w' ∧
         files w' = ∅) ∧
  picksMajorUnreadable lt_by_leading_zero (pkg "foo" "1.0") (session [Pick major]) ∧
  (∃ w', createChangeset lt_by_leading_zero [] [pkg "foo" "1.0"]
           (session [Pick major]) = Raised TypeError w' ∧
         files w' = ∅).
Proof.
  assert (declinesFirstMajor lt_by_leading_zero (pkg "foo" "0.5.0")
            (session [Pick major; Confirm false])) as Hdecl.
  { split; [reflexivity |]. by exists []. }
  assert (picksMajorUnreadable lt_by_leading_zero (pkg "foo" "1.0")
            (session [Pick major])) as Hunr.
  { split; [reflexivity |]. by exists []. }
  split; [exact Hdecl |]. split.
  - destruct (proj1 (single_package_raises_on_decline_or_unreadable_version
                       lt_by_leading_zero [] (pkg "foo" "0.5.0")
                       (session [Pick major; Confirm false])) Hdecl)
      as (w' & Hrun & Hfiles & _).
    by exists w'.
  - split; [exact Hunr |].
    destruct (proj1 (proj2 (single_package_raises_on_decline_or_unreadable_version
                              lt_by_leading_zero [] (pkg "foo" "1.0")
                              (session [Pick major]))) Hunr)
      as (w' & Hrun & Hfiles & _).
    by exists w'.
Defined.

(** C4 as stated fails: with one package whose version [semver.lt] cannot
    parse, picking major raises, and it is not the [ExitError] of a
    declined first major: no confirmation was asked. *)
Lemma single_package_unreadable_version_counterexample :
  ¬ (∀ changedPackages p w e w',
       createChangeset lt_by_leading_zero changedPackages [p] w = Raised e w' →
       declinesFirstMajor lt_by_leading_zero p w ∧ e = ExitError 1).
Proof.
  intros H.
  destruct (H [] (pkg "foo" "1.0") (session [Pick major]) TypeError
              (answered (kindOfBumpQuestion (packageJson (pkg "foo" "1.0")))
                 (Pick major) [] (session [Pick major])))
    as [_ Hexit]; [by vm_compute | discriminate Hexit].
Qed.

Section Categories.

Variable semver_lt : string → string → option bool.

(** In the multi-package path the reuse question is asked only by the
    category workflow: a run on whose transcript it was answered went
    through [askChangeTypes] with that answer. *)
Lemma reuse_answer_inv changedPackages allPackages w cs w' b :
  1 < length allPackages →
  createChangeset semver_lt changedPackages allPackages w = Returned cs w' →
  askedDuring w w' (Asked reuseQuestion (Confirm b)) →
  ∃ pkgs w1 chosen w2 rels w3 cats csl w4 rest,
    getPackagesToRelease changedPackages allPackages w = Returned pkgs w1 ∧
    askCheckboxPlus kindOfChangeQuestion (map Item allCategoriesOfChange) w1 =
      Returned chosen w2 ∧
    askedDuring w w' (Asked kindOfChangeQuestion (Ticks chosen)) ∧
    0 < length chosen ∧
    assignBumpTypes semver_lt (pkgJsonsByNameOf allPackages) pkgs w2 = Returned rels w3 ∧
    inputs w3 = Confirm b :: rest ∧
    askChangeTypes chosen rels w3 = Returned (cats, csl) w4 ∧
    finishChangesets true rels csl w4 = Returned cs w' ∧
    grows (λ _, True) w w4 ∧ grows textual w4 w'.
Proof.
  intros Hlen H Hasked.
  apply createChangeset_multi in H
    as (pkgs & w1 & chosen & w2 & rels & w3 & [cats csl] & w4 &
        Hpkgs & Hkind & Hassign & Hask & Hfinish); [| done].
  pose proof Hpkgs as Hpkgs0. pose proof Hkind as Hkind0.
  apply getPackagesToRelease_Returned in Hpkgs as [Hg1 _].
  apply askCheckboxPlus_Returned in Hkind as (rest2 & _ & _ & _ & ->).
  assert (grows ticked w1 (answered kindOfChangeQuestion (Ticks chosen) rest2 w1)) as Hg2
    by by apply grows_answered.
  pose proof Hassign as Hassign'.
  apply assignBumpTypes_Returned in Hassign'
    as (_ & _ & _ & _ & _ & _ & _ & _ & _ & _ & _ & Hg3 & _);
    [| intros k j Hj; by apply pkgJsonsByNameOf_lookup in Hj as [? _]].
  pose proof Hfinish as Hfinish'.
  apply finishChangesets_Returned in Hfinish' as (_ & Hg5 & _).
  assert (∀ P w w', grows P w w' → grows (λ _, True) w w') as Hany
    by (intros P wa wb; by apply grows_weaken).
  assert (grows (λ _, True) w (answered kindOfChangeQuestion (Ticks chosen) rest2 w1))
    as Hg12 by (eapply grows_trans; eapply Hany; eassumption).
  assert (grows (λ _, True) w w3) as Hg123
    by (eapply grows_trans; [exact Hg12 | by eapply Hany]).
  assert (askedDuring w w' (Asked kindOfChangeQuestion (Ticks chosen))) as Hkind.
  { assert (grows (λ _, True) (answered kindOfChangeQuestion (Ticks chosen) rest2 w1) w')
      as Hrest.
    { eapply grows_trans; [by eapply Hany |].
      eapply grows_trans; [| by eapply Hany].
      destruct (bool_decide (0 < length chosen)).
      - apply askChangeTypes_Returned in Hask as (? & ? & _ & _ & Hg4 & _).
        by eapply Hany.
      - apply ret_Returned in Hask as [_ <-]. apply grows_refl. }
    eapply askedDuring_first; [| exact Hrest |].
    - eapply grows_trans; [exact Hg1 | exact Hg2].
    - eapply askedDuring_second; [exact Hg1 | exact Hg2 | apply askedDuring_answered]. }
  assert (∀ e, ticked e → e ≠ Asked reuseQuestion (Confirm b)) as Hticked
    by (by intros [m []] ?).
  assert (∀ e, textual e → e ≠ Asked reuseQuestion (Confirm b)) as Htextual
    by (by intros [m []] ?).
  assert (∀ e, bumpEvent e → e ≠ Asked reuseQuestion (Confirm b)) as Hbump.
  { intros [m []] He [= -> ->]; try done. destruct He as [name He].
    symmetry in He. by apply firstMajorQuestion_not_reuse in He. }
  case_bool_decide as Hengaged.
  - pose proof Hask as Hask'.
    apply askChangeTypes_Returned in Hask'
      as (b' & rest & Hin & _ & Hg4 & _).
    assert (grows (λ _, True) w w4) as Hg1234
      by (eapply grows_trans; [exact Hg123 | by eapply Hany]).
    assert (b' = b) as ->.
    { apply (askedDuring_split _ _ _ _ _ _ Hg1234 Hg5) in Hasked as [Hq | Hq];
        [| by apply (askedDuring_grows _ _ _ _ Hg5), Htextual in Hq].
      apply (askedDuring_split _ _ _ _ _ _ Hg123 Hg4) in Hq as [Hq | Hq].
      - apply (askedDuring_split _ _ _ _ _ _ Hg12 Hg3) in Hq as [Hq | Hq];
          [| by apply (askedDuring_grows _ _ _ _ Hg3), Hbump in Hq].
        apply (askedDuring_split _ _ _ _ _ _ Hg1 Hg2) in Hq as [Hq | Hq].
        + by apply (askedDuring_grows _ _ _ _ Hg1), Hticked in Hq.
        + by apply (askedDuring_grows _ _ _ _ Hg2), Hticked in Hq.
      - apply (askedDuring_grows _ _ _ _ Hg4) in Hq as [Hq | Hq].
        + by apply Htextual in Hq.
        + by injection Hq as ->. }
    exists pkgs, w1, chosen, (answered kindOfChangeQuestion (Ticks chosen) rest2 w1),
      rels, w3, cats, csl, w4, rest.
    repeat split; done.
  - exfalso. apply ret_Returned in Hask as [_ <-].
    apply (askedDuring_split _ _ _ _ _ _ Hg123 Hg5) in Hasked as [Hq | Hq];
      [| by apply (askedDuring_grows _ _ _ _ Hg5), Htextual in Hq].
    apply (askedDuring_split _ _ _ _ _ _ Hg12 Hg3) in Hq as [Hq | Hq];
      [| by apply (askedDuring_grows _ _ _ _ Hg3), Hbump in Hq].
    apply (askedDuring_split _ _ _ _ _ _ Hg1 Hg2) in Hq as [Hq | Hq].
    + by apply (askedDuring_grows _ _ _ _ Hg1), Hticked in Hq.
    + by apply (askedDuring_grows _ _ _ _ Hg2), Hticked in Hq.
Qed.

(** What the code does when the reuse question is answered yes: the shared
    list of categories is built, and no changeset is made from it. *)
Lemma reuse_accepted_returns_nothing changedPackages allPackages w cs w' :
  1 < length allPackages →
  createChangeset semver_lt changedPackages allPackages w = Returned cs w' →
  askedDuring w w' (Asked reuseQuestion (Confirm true)) →
  cs = [].
Proof.
  intros Hlen H Hasked.
  destruct (reuse_answer_inv _ _ _ _ _ _ Hlen H Hasked)
    as (pkgs & w1 & chosen & w2 & rels & w3 & cats & csl & w4 & rest &
        _ & _ & _ & _ & _ & Hin & Hask & Hfinish & _).
  apply askChangeTypes_Returned in Hask as (b & rest' & Hin' & _ & _ & _ & _ & Hshape).
  rewrite Hin in Hin'. injection Hin' as <- <-. destruct Hshape as [-> _].
  apply finishChangesets_Returned in Hfinish as (HF & _). cbn in HF.
  by apply Forall2_nil_inv_l in HF.
Qed.

(** The descriptions that [describeCategories] pushes are the answers it
    took, in their order. *)
Lemma describeCategories_script chosen acc w r w' :
  describeCategories chosen acc w = Returned r w' →
  ∃ l, r = acc ++ l ∧ map coc_category l = chosen ∧
       inputs w = map Text (map coc_description l) ++ inputs w'.
Proof.
  unfold describeCategories. intros Hrun.
  pose (Inv := λ (todo : list string) (cur : list CategoryOfChange) (wc : World),
    ∃ l, cur = acc ++ l ∧ map coc_category l ++ todo = chosen ∧
         inputs w = map Text (map coc_description l) ++ inputs wc).
  assert (Inv [] r w') as (l & -> & Hcats & Hin).
  { eapply (forOf_invariant Inv); [exact Hrun | |].
    - exists []. by rewrite app_nil_r.
    - clear. intros category todo cur wc cur1 wc1 (l & -> & Hcats & Hin) Hbody.
      apply bind_Returned in Hbody as (d & w2 & Hask & Hret).
      apply askQuestion_Returned in Hask as (rest & Hrest & ->).
      apply ret_Returned in Hret as [<- <-].
      exists (l ++ [mkCategoryOfChange d category None]).
      split; [by rewrite <- app_assoc |]. split.
      + rewrite map_app, <- app_assoc. exact Hcats.
      + rewrite Hin, Hrest, !map_app, <- app_assoc. done. }
  rewrite app_nil_r in Hcats. by exists l.
Qed.

(** When the reuse question is answered no, the descriptions of the
    changesets that are pushed are the answers that follow, release by
    release. *)
Lemma askChangeTypes_declined_script chosen rels w cats csl w' rest :
  askChangeTypes chosen rels w = Returned (cats, csl) w' →
  inputs w = Confirm false :: rest →
  rest = map Text
           (concat (map (λ c, map coc_description (cwc_categoryOfChangeList c)) csl)) ++
         inputs w'.
Proof.
  unfold askChangeTypes. intros Hrun Hin.
  apply bind_Returned in Hrun as (b & w1 & Hask & Hrun).
  apply askConfirm_Returned in Hask as (rest' & Hin' & ->).
  rewrite Hin in Hin'. injection Hin' as <- <-.
  apply bind_Returned in Hrun as (csl' & w2 & Hloop & Hret).
  apply ret_Returned in Hret as [[= _ <-] <-].
  pose (Inv := λ (todo : list Release) (cur : list ChangesetWithConfirmed) (wc : World),
    rest = map Text
             (concat (map (λ c, map coc_description (cwc_categoryOfChangeList c)) cur)) ++
           inputs wc).
  eapply (forOf_invariant Inv); [exact Hloop | done |].
  clear. intros release todo cur wc cur1 wc1 Hcur Hbody.
  apply bind_Returned in Hbody as (l & w2 & Hdesc & Hret).
  apply ret_Returned in Hret as [<- <-].
  apply describeCategories_script in Hdesc as (l' & -> & _ & Hin).
  unfold Inv in *. rewrite Hcur, Hin. cbn [app].
  rewrite map_app, concat_app. cbn [map concat cwc_categoryOfChangeList].
  by rewrite app_nil_r, !map_app, <- !app_assoc.
Qed.

(** C9, amended. In the multi-package path, when the reuse question was
    answered no, the run went through its steps (the packages, at least one
    category, the releases of the bump rounds) and [createChangeset]
    returns one changeset for each release of the rounds, in their order:
    it holds that release alone and one category record, without a type,
    for each chosen category, described by the answers that followed the
    reuse question, release by release. Each was then given a summary,
    which is not empty, and it is marked confirmed only if that summary was
    taken from the editor. *)
Theorem reuse_declined_one_changeset_per_release changedPackages allPackages w cs w' :
  1 < length allPackages →
  createChangeset semver_lt changedPackages allPackages w = Returned cs w' →
  askedDuring w w' (Asked reuseQuestion (Confirm false)) →
  ∃ pkgs w1 chosen w2 rels w3 rest,
    getPackagesToRelease changedPackages allPackages w = Returned pkgs w1 ∧
    askCheckboxPlus kindOfChangeQuestion (map Item allCategoriesOfChange) w1 =
      Returned chosen w2 ∧
    0 < length chosen ∧
    assignBumpTypes semver_lt (pkgJsonsByNameOf allPackages) pkgs w2 = Returned rels w3 ∧
    inputs w3 =
      Confirm false ::
      map Text
        (concat (map (λ c, map coc_description (cwc_categoryOfChangeList c)) cs)) ++
      rest ∧
    length cs = length rels ∧
    Forall2
      (λ r c,
         cwc_releases c = [r] ∧
         map coc_category (cwc_categoryOfChangeList c) = chosen ∧
         untyped (cwc_categoryOfChangeList c) ∧
         cwc_summary c ≠ "" ∧
         (cwc_confirmed c = true →
          askedDuring w w' (Asked summaryEditorSeed (Editor (Some (cwc_summary c))))))
      rels cs.
Proof.
  intros Hlen H Hasked.
  destruct (reuse_answer_inv _ _ _ _ _ _ Hlen H Hasked)
    as (pkgs & w1 & chosen & w2 & rels & w3 & cats & csl & w4 & rest &
        Hpkgs & Hchosen & _ & Hengaged & Hassign & Hin & Hask & Hfinish & Hg & Hg5).
  pose proof (askChangeTypes_declined_script _ _ _ _ _ _ _ Hask Hin) as Hrest.
  apply askChangeTypes_Returned in Hask as (b & rest' & Hin' & _ & _ & _ & _ & Hshape).
  rewrite Hin in Hin'. injection Hin' as <- <-. destruct Hshape as [_ Hshape].
  apply finishChangesets_Returned in Hfinish as (HF & _). cbn [negb] in HF.
  assert (map cwc_categoryOfChangeList cs = map cwc_categoryOfChangeList csl) as Hsame.
  { clear -HF. induction HF as [|c0 c csl cs (_ & _ & Hcat & _) _ IH]; [done |].
    cbn [map]. by rewrite Hcat, IH. }
  assert (Forall2
    (λ r c,
       cwc_releases c = [r] ∧
       map coc_category (cwc_categoryOfChangeList c) = chosen ∧
       untyped (cwc_categoryOfChangeList c) ∧
       cwc_summary c ≠ "" ∧
       (cwc_confirmed c = true →
        askedDuring w w' (Asked summaryEditorSeed (Editor (Some (cwc_summary c))))))
    rels cs) as Hall.
  { clear -Hshape HF Hg Hg5. revert cs HF.
    induction Hshape as [|r c0 rels csl (Hr & _ & _ & Hc & Hu) _ IH]; intros cs HF.
    - apply Forall2_nil_inv_l in HF as ->. constructor.
    - apply Forall2_cons_inv_l in HF as (c & cs' & (Hne & Hrel & Hcat & Hconf) & HF & ->).
      constructor; [| by apply IH].
      rewrite Hrel, Hcat. repeat split; try done.
      intros Hb. eapply askedDuring_second; [exact Hg | exact Hg5 | by apply Hconf]. }
  exists pkgs, w1, chosen, w2, rels, w3, (inputs w4).
  split; [done |]. split; [done |]. split; [done |]. split; [done |]. split.
  - rewrite Hin. f_equal. rewrite Hrest. do 3 f_equal.
    rewrite <- !(map_map cwc_categoryOfChangeList (map coc_description)).
    by rewrite Hsame.
  - split; [| done]. symmetry. by eapply Forall2_length.
Qed.

(** C10. The category records that [askChangeTypes] builds, in the shared
    list as in the list of each changeset, have no type. So the filter of
    the serializer on a bump type keeps none of them: the section of
    category lines of a block is empty in the grouped revision, and is the
    bare line break in [Write.getChangeTypesSection]. *)
Theorem built_categories_are_filtered_out chosen rels w cats csl w' :
  askChangeTypes chosen rels w = Returned (cats, csl) w' →
  ∀ l, l = cats ∨ (∃ c, c ∈ csl ∧ l = cwc_categoryOfChangeList c) →
    untyped l ∧
    ∀ bumpType,
      filter (λ c, coc_type c = Some bumpType) l = [] ∧
      WriteByBumpType.getChangeTypesSection l bumpType = "" ∧
      Write.getChangeTypesSection l (Some bumpType) = nl.
Proof.
  intros H l Hl.
  assert (untyped l) as Hu.
  { apply askChangeTypes_Returned in H as (b & rest & _ & _ & _ & _ & Hcats & Hshape).
    destruct Hl as [-> | (c & Hc & ->)]; [done |].
    destruct b; [destruct Hshape as [-> _]; by apply elem_of_nil in Hc |].
    destruct Hshape as [_ Hshape].
    apply list_elem_of_lookup in Hc as [i Hi].
    by destruct (Forall2_lookup_r _ _ _ i c Hshape Hi) as (r & _ & _ & _ & _ & _ & ?). }
  split; [done |]. intros bumpType.
  assert (filter (λ c, coc_type c = Some bumpType) l = []) as Hnone.
  { clear -Hu. induction Hu as [|c l Hc _ IH]; [done |].
    rewrite filter_cons_False; [done | by rewrite Hc]. }
  split; [done |].
  unfold WriteByBumpType.getChangeTypesSection, Write.getChangeTypesSection.
  by rewrite Hnone.
Qed.

End Categories.

Lemma built_categories_are_filtered_out_witness :
  ∃ cats csl w',
    askChangeTypes [added; changed] [mkRelease "a" major; mkRelease "b" patch]
      (session [Confirm false; Text "a flag"; Text "the cache";
                Text "b flag"; Text "b cache"]) = Returned (cats, csl) w' ∧
    length csl = 2 ∧
    ∀ c, c ∈ csl →
      WriteByBumpType.getChangeTypesSection (cwc_categoryOfChangeList c) major = "".
Proof.
  eexists _, _, _. split; [vm_compute; reflexivity |]. split; [reflexivity |].
  intros c Hc.
  eapply (built_categories_are_filtered_out [added; changed]
            [mkRelease "a" major; mkRelease "b" patch]
            (session [Confirm false; Text "a flag"; Text "the cache";
                      Text "b flag"; Text "b cache"])).
  - vm_compute. reflexivity.
  - right. exists c. split; [exact Hc | reflexivity].
Defined.

(** ** The example sessions, run *)

Lemma askedDuring_session script w' e :
  e ∈ trace w' → askedDuring (session script) w' e.
Proof. intros He. exists (trace w'). split; [by rewrite app_nil_r | done]. Qed.

(** C9 as stated fails: in the session of [perReleaseScript] the reuse
    question is answered no, and the two changesets that come back carry the
    summaries that were asked for afterwards; the first is not confirmed. *)
Lemma reuse_declined_counterexample :
  ¬ (∀ changedPackages allPackages w cs w',
       1 < length allPackages →
       createChangeset lt_by_leading_zero changedPackages allPackages w =
         Returned cs w' →
       askedDuring w w' (Asked reuseQuestion (Confirm false)) →
       Forall (λ c, cwc_summary c = "" ∧ cwc_confirmed c = true) cs).
Proof.
  intros H.
  assert (∃ cs w',
            createChangeset lt_by_leading_zero ["a"; "b"] workspace
              (session perReleaseScript) = Returned cs w' ∧
            askedDuring (session perReleaseScript) w'
              (Asked reuseQuestion (Confirm false)) ∧
            ∃ c, c ∈ cs ∧ cwc_summary c = "Summary of a")
    as (cs & w' & Hrun & Hasked & c & Hc & Hsum).
  { eexists _, _. split; [vm_compute; reflexivity |]. split.
    - apply askedDuring_session. apply (bool_decide_unpack _). by vm_compute.
    - eexists. split; [left | reflexivity]. }
  assert (1 < length workspace) as Hlen by (simpl; lia).
  specialize (H _ _ _ _ _ Hlen Hrun Hasked).
  apply (proj1 (Forall_forall _ _)) with (x := c) in H as [Hempty _]; [| done].
  rewrite Hsum in Hempty. discriminate Hempty.
Qed.

Lemma reuse_declined_one_changeset_per_release_witness :
  ∃ cs w',
    createChangeset lt_by_leading_zero ["a"; "b"] workspace (session perReleaseScript) =
      Returned cs w' ∧
    map cwc_releases cs = [[mkRelease "a" major]; [mkRelease "b" patch]] ∧
    map cwc_summary cs = ["Summary of a"; "Summary of b"] ∧
    map cwc_confirmed cs = [false; true] ∧
    map (λ c, map coc_description (cwc_categoryOfChangeList c)) cs =
      [["a flag"; "the cache"]; ["b flag"; "b cache"]] ∧
    ∃ pkgs w1 chosen w2 rels w3 rest,
      getPackagesToRelease ["a"; "b"] workspace (session perReleaseScript) =
        Returned pkgs w1 ∧
      askCheckboxPlus kindOfChangeQuestion (map Item allCategoriesOfChange) w1 =
        Returned chosen w2 ∧
      0 < length chosen ∧
      assignBumpTypes lt_by_leading_zero (pkgJsonsByNameOf workspace) pkgs w2 =
        Returned rels w3 ∧
      inputs w3 =
        Confirm false ::
        map Text
          (concat (map (λ c, map coc_description (cwc_categoryOfChangeList c)) cs)) ++
        rest ∧
      length cs = length rels ∧
      Forall2
        (λ r c,
           cwc_releases c = [r] ∧
           map coc_category (cwc_categoryOfChangeList c) = chosen ∧
           untyped (cwc_categoryOfChangeList c) ∧
           cwc_summary c ≠ "" ∧
           (cwc_confirmed c = true →
            askedDuring (session perReleaseScript) w'
              (Asked summaryEditorSeed (Editor (Some (cwc_summary c))))))
        rels cs.
Proof.
  eexists _, _. split; [vm_compute; reflexivity |].
  split; [reflexivity |]. split; [reflexivity |]. split; [reflexivity |].
  split; [reflexivity |].
  eapply (reuse_declined_one_changeset_per_release lt_by_leading_zero
            ["a"; "b"] workspace (session perReleaseScript)).
  - simpl. lia.
  - vm_compute. reflexivity.
  - apply askedDuring_session. apply (bool_decide_unpack _). by vm_compute.
Defined.

(** C1 on a run. In the session of [reuseScript] the reuse question is
    answered yes: one description is asked for each of the two bump types
    and each of the two categories, the four records are gathered in the
    shared list, and [createChangeset] returns the empty list. *)
Theorem reuse_accepted_session_returns_nothing :
  (∃ cats w',
     askChangeTypes [added; changed] [mkRelease "a" major; mkRelease "b" patch]
       (session [Confirm true; Text "a flag"; Text "the cache";
                 Text "b flag"; Text "b cache"]) = Returned (cats, []) w' ∧
     map coc_description cats = ["a flag"; "the cache"; "b flag"; "b cache"] ∧
     map coc_category cats = [added; changed; added; changed]) ∧
  ∃ w',
    createChangeset lt_by_leading_zero ["a"; "b"] workspace (session reuseScript) =
      Returned [] w' ∧
    inputs w' = [] ∧
    Asked reuseQuestion (Confirm true) ∈ trace w'.
Proof.
  split.
  - eexists _, _. split; [vm_compute; reflexivity |]. by split.
  - eexists. split; [vm_compute; reflexivity |]. split; [reflexivity |].
    apply (bool_decide_unpack _). by vm_compute.
Qed.

(** The scenario of three packages without categories: one changeset with
    the three releases, and one summary asked. *)
Example plain_session_scenario :
  ∃ w',
    createChangeset lt_by_leading_zero ["a"; "b"] workspace (session plainScript) =
      Returned
        [ {| cwc_confirmed := false;
             cwc_summary := "Fix the cache";
             cwc_categoryOfChangeList := [];
             cwc_releases :=
               [mkRelease "a" major; mkRelease "b" minor; mkRelease "c" patch] |} ]
        w' ∧
    inputs w' = [].
Proof. eexists. split; [vm_compute; reflexivity | reflexivity]. Qed.

(** ** Sessions that answer every prompt return *)

Lemma describeCategories_returns chosen acc descs rest w :
  length descs = length chosen →
  inputs w = map Text descs ++ rest →
  ∃ w', describeCategories chosen acc w = Returned (acc ++ describe descs chosen) w' ∧
        inputs w' = rest.
Proof.
  unfold describeCategories, describe.
  revert acc descs w. induction chosen as [|c chosen IH]; intros acc descs w Hlen Hin.
  - destruct descs; [| done]. simpl in *. exists w. by rewrite app_nil_r.
  - destruct descs as [|d descs]; [done |]. simpl in Hlen, Hin.
    cbn [forOf]. unfold bind at 1. unfold bind at 1. unfold askQuestion at 1.
    rewrite Hin. unfold ret at 1.
    destruct (IH (acc ++ [mkCategoryOfChange d c None]) descs
                (answered ("[ " +:+ getKindTitle c +:+ " ]") (Text d)
                   (map Text descs ++ rest) w)) as (w' & Hrun & Hrest);
      [lia | done |].
    exists w'. split; [| done]. rewrite Hrun. cbn [zip_with]. by rewrite <- app_assoc.
Qed.

Lemma askChangeTypes_declined_returns chosen rels (descss : list (list string)) rest w :
  Forall (λ ds, length ds = length chosen) descss →
  length descss = length rels →
  inputs w = Confirm false :: map Text (concat descss) ++ rest →
  ∃ w', askChangeTypes chosen rels w =
          Returned ([], zip_with (perRelease chosen) rels descss) w' ∧
        inputs w' = rest.
Proof.
  intros Hds Hlen Hin. unfold askChangeTypes.
  unfold bind at 1. unfold askConfirm. rewrite Hin. cbv beta iota.
  set (w0 := answered reuseQuestion (Confirm false) (map Text (concat descss) ++ rest) w).
  assert (inputs w0 = map Text (concat descss) ++ rest) as Hin0 by done.
  clearbody w0. clear Hin w.
  assert (∀ acc, ∃ w',
            forOf rels
              (λ release changesetList,
                 currChangesetCategoryOfChangeList <- describeCategories chosen [] ;;
                 ret (changesetList ++
                      [ {| cwc_confirmed := true;
                           cwc_summary := EmptyString;
                           cwc_categoryOfChangeList := currChangesetCategoryOfChangeList;
                           cwc_releases := [release] |} ]))
              acc w0 =
            Returned (acc ++ zip_with (perRelease chosen) rels descss) w' ∧
            inputs w' = rest) as Hloop.
  { revert descss w0 Hds Hlen Hin0.
    induction rels as [|r rels IH]; intros descss w0 Hds Hlen Hin0 acc.
    - destruct descss; [| done]. exists w0. simpl in *. by rewrite app_nil_r.
    - destruct descss as [|ds descss]; [done |].
      apply Forall_cons in Hds as [Hd Hds]. simpl in Hlen, Hin0.
      rewrite map_app, <- app_assoc in Hin0.
      destruct (describeCategories_returns chosen [] ds _ w0 Hd Hin0)
        as (w1 & Hrun1 & Hin1).
      destruct (IH descss w1 Hds ltac:(lia) Hin1
                  (acc ++ [perRelease chosen r ds])) as (w' & Hrun & Hrest).
      exists w'. split; [| done].
      cbn [forOf]. unfold bind at 1. unfold bind at 1. rewrite Hrun1.
      unfold ret at 1. cbn [app] in Hrun |- *. unfold perRelease at 1 in Hrun.
      rewrite Hrun. cbn [zip_with]. by rewrite <- app_assoc. }
  destruct (Hloop []) as (w' & Hrun & Hrest).
  exists w'. split; [| done]. unfold bind at 1. by rewrite Hrun.
Qed.

Lemma setSummary_typed_returns c s rest w :
  s ≠ EmptyString →
  inputs w = Text s :: rest →
  ∃ w', setSummary c w = Returned (summarised c s) w' ∧ inputs w' = rest.
Proof.
  intros Hs Hin. unfold setSummary, bind, askQuestion. rewrite Hin.
  apply isEmpty_false in Hs. rewrite Hs. by eexists.
Qed.

Lemma finishChangesets_typed_returns rels changesetList summaries rest w :
  Forall (λ s, s ≠ EmptyString) summaries →
  length summaries = length changesetList →
  inputs w = map Text summaries ++ rest →
  ∃ w', finishChangesets true rels changesetList w =
          Returned (zip_with summarised changesetList summaries) w' ∧
        inputs w' = rest.
Proof.
  unfold finishChangesets. cbn [negb]. intros Hne Hlen Hin.
  assert (∀ acc, ∃ w',
            forOf changesetList
              (λ changeset done, changeset' <- setSummary changeset ;;
                                 ret (done ++ [changeset']))
              acc w =
            Returned (acc ++ zip_with summarised changesetList summaries) w' ∧
            inputs w' = rest) as Hloop.
  { revert summaries w Hne Hlen Hin.
    induction changesetList as [|c l IH]; intros summaries w Hne Hlen Hin acc.
    - destruct summaries; [| done]. exists w. simpl in *. by rewrite app_nil_r.
    - destruct summaries as [|s summaries]; [done |].
      apply Forall_cons in Hne as [Hs Hne]. simpl in Hlen, Hin.
      destruct (setSummary_typed_returns c s _ w Hs Hin) as (w1 & Hrun1 & Hin1).
      destruct (IH summaries w1 Hne ltac:(lia) Hin1 (acc ++ [summarised c s]))
        as (w' & Hrun & Hrest).
      exists w'. split; [| done].
      cbn [forOf]. unfold bind at 1. unfold bind at 1. rewrite Hrun1.
      unfold ret at 1. rewrite Hrun. cbn [zip_with]. by rewrite <- app_assoc. }
  apply (Hloop []).
Qed.

Section Returns.

Variable semver_lt : string → string → option bool.

(** Once the packages, the categories and the bump types are settled and
    the reuse question is answered no, a script that holds a description for
    every release and category and then a summary for every release makes
    [createChangeset] return, with one changeset per release. *)
Lemma createChangeset_reuse_declined_returns
    changedPackages allPackages w pkgs w1 chosen w2 rels w3
    (descss : list (list string)) (summaries : list string) rest :
  1 < length allPackages →
  getPackagesToRelease changedPackages allPackages w = Returned pkgs w1 →
  askCheckboxPlus kindOfChangeQuestion (map Item allCategoriesOfChange) w1 =
    Returned chosen w2 →
  0 < length chosen →
  assignBumpTypes semver_lt (pkgJsonsByNameOf allPackages) pkgs w2 = Returned rels w3 →
  inputs w3 = Confirm false :: map Text (concat descss) ++ map Text summaries ++ rest →
  Forall (λ ds, length ds = length chosen) descss →
  length descss = length rels →
  Forall (λ s, s ≠ EmptyString) summaries →
  length summaries = length rels →
  ∃ w',
    createChangeset semver_lt changedPackages allPackages w =
      Returned
        (zip_with summarised (zip_with (perRelease chosen) rels descss) summaries) w' ∧
    inputs w' = rest.
Proof.
  intros Hlen Hpkgs Hkind Hchosen Hassign Hin Hds Hdl Hne Hsl.
  destruct (askChangeTypes_declined_returns chosen rels descss _ w3 Hds Hdl Hin)
    as (w4 & Hask & Hin4).
  destruct (finishChangesets_typed_returns rels
              (zip_with (perRelease chosen) rels descss) summaries rest w4 Hne)
    as (w' & Hfinish & Hrest); [| done |].
  { rewrite length_zip_with. lia. }
  exists w'. split; [| done].
  unfold createChangeset. rewrite decide_True by done.
  unfold bind at 1. rewrite Hpkgs.
  unfold bind at 1. rewrite Hkind.
  unfold bind at 1.
  change (Map_new (map (λ p, (pkg_name (packageJson p), packageJson p)) allPackages))
    with (pkgJsonsByNameOf allPackages).
  rewrite Hassign.
  rewrite bool_decide_eq_true_2 by done.
  unfold bind at 1. rewrite Hask. exact Hfinish.
Qed.

(** With no package in the workspace, the read of [allPackages[0]] raises. *)
Lemma createChangeset_empty_workspace changedPackages w :
  createChangeset semver_lt changedPackages [] w = Raised TypeError w.
Proof. done. Qed.

End Returns.

(** A changed package that the workspace does not have, once selected,
    is not found in the map when the major prompt is built. *)
Example unknown_changed_package_raises :
  ∃ w', createChangeset lt_by_leading_zero ["zz"] workspace
          (session [Ticks ["zz"]; Ticks []]) = Raised TypeError w'.
Proof. eexists. vm_compute. reflexivity. Qed.

(** The changeset of the plain session, written with a formatter that
    leaves the text as it is: one file, whose header reads back. *)
Example plain_session_written :
  let changeset :=
    toChangeset
      {| cwc_confirmed := false;
         cwc_summary := "Fix the cache";
         cwc_categoryOfChangeList := [];
         cwc_releases :=
           [mkRelease "a" major; mkRelease "b" minor; mkRelease "c" patch] |} in
  let w := {| inputs := []; trace := []; ids := ["brave-lions-sing"]; files := ∅ |} in
  ∃ w' text,
    Write.writeChangeset unit (λ _ _, Done None) (λ text _, Done text) (λ _ _ _, None)
      changeset "/repo" w = Returned "brave-lions-sing" w' ∧
    files w' !! "/repo/.changeset/brave-lions-sing.md" = Some text ∧
    parseHeader text = Some (releases changeset).
Proof. eexists _, _. split; [vm_compute; reflexivity |]. split; reflexivity. Qed.

(** * Further properties of the code *)

(** ** [getKindTitle] *)

(** X1. [getKindTitle] gives the first word: the title holds no space, and
    the kind is the title itself or the title, a space and some rest. *)
Theorem getKindTitle_first_word (kind : string) :
  hasChar " " (getKindTitle kind) = false ∧
  (kind = getKindTitle kind ∨ ∃ rest, kind = getKindTitle kind +:+ " " +:+ rest).
Proof.
  induction kind as [|c kind [IHs IHk]]; simpl.
  - split; [done | by left].
  - destruct (decide (c = " "%char)) as [-> | Hc]; simpl.
    + split; [done |]. right. by exists kind.
    + split.
      * rewrite IHs. by rewrite bool_decide_eq_false_2.
      * destruct IHk as [IHk | [rest IHk]].
        -- left. by f_equal.
        -- right. exists rest. simpl in *. by f_equal.
Qed.

(** ** [groupByBumpType] and the blocks *)

Lemma buckets_permutation (rels : list Release) :
  filter (λ r, bucketOf (rel_type r) = major) rels ++
  filter (λ r, bucketOf (rel_type r) = minor) rels ++
  filter (λ r, bucketOf (rel_type r) = patch) rels ≡ₚ rels.
Proof.
  induction rels as [|r rels IH]; [done |].
  rewrite !filter_cons.
  destruct (rel_type r); cbn [bucketOf]; repeat case_decide; try done;
    (etrans; [| apply perm_skip, IH]).
  - done.
  - simpl. by rewrite <- Permutation_middle.
  - by rewrite app_assoc, <- Permutation_middle, <- app_assoc.
  - done.
Qed.

(** X2. [groupByBumpType] loses and invents nothing: its major, minor and
    patch buckets together are a rearrangement of the releases, each bucket
    keeps the order of the input, the minor and patch buckets hold releases
    of that type only, the major bucket the major ones and those of a type
    other than the three, and the none bucket is empty. *)
Theorem groupByBumpType_partitions (rels : list Release) :
  let g := groupByBumpType rels in
  g_major g ++ g_minor g ++ g_patch g ≡ₚ rels ∧
  sublist (g_major g) rels ∧ sublist (g_minor g) rels ∧ sublist (g_patch g) rels ∧
  Forall (λ r, rel_type r = major ∨ rel_type r = none) (g_major g) ∧
  Forall (λ r, rel_type r = minor) (g_minor g) ∧
  Forall (λ r, rel_type r = patch) (g_patch g) ∧
  g_none g = [].
Proof.
  cbn zeta. rewrite groupByBumpType_buckets. cbn [g_major g_minor g_patch g_none].
  split; [apply buckets_permutation |].
  do 3 (split; [apply sublist_filter |]).
  split; [| split; [| split; [| done]]].
  - apply Forall_forall. intros r [Hr _]%list_elem_of_filter.
    destruct (rel_type r); auto; discriminate Hr.
  - apply Forall_forall. intros r [Hr _]%list_elem_of_filter.
    destruct (rel_type r); auto; discriminate Hr.
  - apply Forall_forall. intros r [Hr _]%list_elem_of_filter.
    destruct (rel_type r); auto; discriminate Hr.
Qed.

(** X3. In the grouped revision every release is in exactly one block: the
    releases of the blocks, put together, are a rearrangement of the
    releases, and no block is empty. *)
Theorem blocks_hold_every_release_once (rels : list Release) :
  concat (WriteByBumpType.blocks rels).*2 ≡ₚ rels ∧
  Forall (λ e, e.2 ≠ []) (WriteByBumpType.blocks rels).
Proof.
  split.
  - rewrite blocks_buckets. cbn [map]. rewrite !filter_cons, filter_nil. cbn [snd].
    rewrite <- (buckets_permutation rels) at 4.
    repeat case_decide; cbn [fmap list_fmap snd concat];
      repeat match goal with
             | H : ¬ length ?l ≠ 0 |- _ =>
                 let E := fresh in
                 assert (l = []) as E by (destruct l; [done | exfalso; by apply H]);
                 rewrite E; clear H E
             | H : length ?l = 0 |- _ => apply nil_length_inv in H; rewrite H
             end;
      by rewrite ?app_nil_r.
  - unfold WriteByBumpType.blocks. apply Forall_forall.
    intros e [He _]%list_elem_of_filter. intros Hnil. apply He. by rewrite Hnil.
Qed.

(** X4. With categories, the grouped revision opens its document with a
    header only when there is a release: without releases the document is
    two line breaks and the summary, with no header at all. *)
Theorem grouped_header_needs_a_release (changeset : Changeset) :
  length (categoryOfChangeList changeset) ≠ 0 →
  (releases changeset = [] →
   WriteByBumpType.changesetContents changeset =
     nl +:+ nl +:+ summary changeset +:+ nl +:+ "  ") ∧
  (releases changeset ≠ [] →
   ∃ rest, WriteByBumpType.changesetContents changeset = "---" +:+ nl +:+ rest).
Proof.
  intros Hcat. unfold WriteByBumpType.changesetContents.
  rewrite bool_decide_eq_true_2 by done. split.
  - intros ->. done.
  - intros Hne.
    destruct (WriteByBumpType.blocks (releases changeset)) as [|e bs] eqn:Hb.
    + exfalso. destruct (releases changeset) as [|r rels] eqn:Hr; [done |].
      assert (bucketOf (rel_type r) ∈ (WriteByBumpType.blocks (r :: rels)).*1) as Hin.
      { apply block_key_emitted. exists r. split; [left | done]. }
      rewrite Hb in Hin. by apply elem_of_nil in Hin.
    + destruct bs as [|e' bs]; cbn [map].
      * cbn [String.concat]. unfold WriteByBumpType.renderBlock,
          WriteByBumpType.getReleasesSection.
        rewrite !append_assoc. by eexists.
      * rewrite concat_cons_cons. unfold WriteByBumpType.renderBlock at 1.
        unfold WriteByBumpType.getReleasesSection at 1.
        rewrite !append_assoc. by eexists.
Qed.

Lemma grouped_header_needs_a_release_witness :
  let changeset :=
    mkChangeset "Fix the cache" []
      [mkCategoryOfChange "faster" "Changed (Visual changes)" None] in
  length (categoryOfChangeList changeset) ≠ 0 ∧
  WriteByBumpType.changesetContents changeset =
    nl +:+ nl +:+ "Fix the cache" +:+ nl +:+ "  ".
Proof.
  assert (length [mkCategoryOfChange "faster" "Changed (Visual changes)" None] ≠ 0)
    as Hcat by (simpl; lia).
  split; [exact Hcat |].
  exact (proj1 (grouped_header_needs_a_release
                  (mkChangeset "Fix the cache" []
                     [mkCategoryOfChange "faster" "Changed (Visual changes)" None])
                  Hcat) eq_refl).
Defined.

(** ** [writeChangeset]: what a call does to the files *)

Lemma append_inj_l (a b c : string) : a +:+ b = a +:+ c → b = c.
Proof. induction a as [|x a IH]; simpl; [done |]. intros [= H]. by apply IH. Qed.

Lemma changesetPath_inj (cwd id id' : string) :
  changesetPath cwd id = changesetPath cwd id' → id = id'.
Proof.
  unfold changesetPath, path_resolve. intros H.
  apply append_inj_l, append_inj_l in H. by apply append_inj_r in H.
Qed.

Section WriteFiles.

Variable Config : Type.
Variable resolveConfig : string → gmap string string → fallible (option Config).
Variable format : string → option Config → fallible string.
Variable rejects : Rejects.

(** X5. A call of [writeChangeset] that returns has taken one identifier
    from the generator and written one file, [<cwd>/.changeset/<id>.md],
    holding the formatted document; every other path holds what it held, and
    no prompt was shown. *)
Theorem writeChangeset_writes_one_file changeset cwd w id w' :
  Write.writeChangeset Config resolveConfig format rejects changeset cwd w = Returned id w' →
  ∃ cfg text,
    resolveConfig cwd (files w) = Done cfg ∧
    format (Write.changesetContents changeset) cfg = Done text ∧
    files w' !! changesetPath cwd id = Some text ∧
    (∀ path, path ≠ changesetPath cwd id → files w' !! path = files w !! path) ∧
    ids w = id :: ids w' ∧ inputs w' = inputs w ∧ trace w' = trace w.
Proof.
  unfold Write.writeChangeset, bind, lift, fs_writeFile, ret, humanId.
  destruct (ids w) as [|id0 rest] eqn:Hids; [done |]. cbn [files].
  destruct (resolveConfig cwd (files w)) as [cfg|] eqn:Hcfg; [| done].
  destruct (format _ cfg) as [text|] eqn:Hfmt; [| done]. cbn [files].
  destruct (rejects (path_resolve (path_resolve cwd ".changeset") (id0 +:+ ".md")) text
              (files w)) as [[e remaining]|]; [done |].
  intros [= <- <-]. exists cfg, text. cbn [files ids inputs trace].
  repeat split; try done.
  - apply lookup_insert_eq.
  - intros path Hpath. by apply lookup_insert_ne.
Qed.

(** X6. [writeChangeset] does not look whether the file is there: of two
    calls in a row that return, the second leaves the file of the first as
    it is when the identifiers differ, and replaces it when the generator
    gave the same identifier twice. *)
Theorem second_write_keeps_or_replaces changeset1 changeset2 cwd w id1 w1 id2 w2 :
  Write.writeChangeset Config resolveConfig format rejects changeset1 cwd w = Returned id1 w1 →
  Write.writeChangeset Config resolveConfig format rejects changeset2 cwd w1 = Returned id2 w2 →
  ∃ text1 text2,
    files w1 !! changesetPath cwd id1 = Some text1 ∧
    files w2 !! changesetPath cwd id2 = Some text2 ∧
    files w2 !! changesetPath cwd id1 = Some (if decide (id1 = id2) then text2 else text1).
Proof.
  intros H1 H2.
  apply writeChangeset_writes_one_file in H1 as (cfg1 & text1 & _ & _ & Hl1 & _).
  apply writeChangeset_writes_one_file in H2 as (cfg2 & text2 & _ & _ & Hl2 & Hother & _).
  exists text1, text2. repeat split; try done.
  destruct (decide (id1 = id2)) as [-> | Hne]; [done |].
  rewrite Hother; [done |]. intros Heq. by apply changesetPath_inj in Heq.
Qed.

(** X7. What the revision with one block per bump type raises comes from
    one of three calls: [prettier.resolveConfig], [prettier.format] on the
    document it rendered, or [fs.writeFile]. When it is one of the first
    two, nothing was written; when the write was rejected, the files are
    what the file system left. *)
Theorem grouped_writeChangeset_raise_sources changeset cwd w e w' :
  WriteByBumpType.writeChangeset Config resolveConfig format rejects changeset cwd w =
    Raised e w' →
  (resolveConfig cwd (files w) = Throws e ∧ files w' = files w) ∨
  (∃ cfg, resolveConfig cwd (files w) = Done cfg ∧
          format (WriteByBumpType.changesetContents changeset) cfg = Throws e ∧
          files w' = files w) ∨
  (∃ cfg text id,
     resolveConfig cwd (files w) = Done cfg ∧
     format (WriteByBumpType.changesetContents changeset) cfg = Done text ∧
     ids w = id :: ids w' ∧
     rejects (changesetPath cwd id) text (files w) = Some (e, files w')).
Proof.
  unfold WriteByBumpType.writeChangeset, bind, lift, fs_writeFile, ret, humanId.
  destruct (ids w) as [|id0 rest]; [done |]. cbn [files].
  destruct (resolveConfig cwd (files w)) as [cfg|e0] eqn:Hcfg.
  - destruct (format _ cfg) as [text|e1] eqn:Hfmt; cbn [files].
    + destruct (rejects (path_resolve (path_resolve cwd ".changeset") (id0 +:+ ".md")) text
                  (files w)) as [[e2 remaining]|] eqn:Hrej; [| done].
      intros [= <- <-]. right. right. by exists cfg, text, id0.
    + intros [= <- <-]. right. left. by exists cfg.
  - intros [= <- <-]. by left.
Qed.

End WriteFiles.

Lemma writeChangeset_writes_one_file_witness :
  let changeset := mkChangeset "Fix the cache" [mkRelease "a" patch] [] in
  let w := {| inputs := []; trace := []; ids := ["brave-lions-sing"];
              files := {["/repo/.changeset/old.md" := "old"]} |} in
  let w' := {| inputs := []; trace := []; ids := [];
               files := <["/repo/.changeset/brave-lions-sing.md" :=
                            Write.changesetContents changeset]>
                          {["/repo/.changeset/old.md" := "old"]} |} in
  Write.writeChangeset unit (λ _ _, Done None) (λ text _, Done text) (λ _ _ _, None) changeset "/repo" w =
    Returned "brave-lions-sing" w' ∧
  files w' !! "/repo/.changeset/brave-lions-sing.md" =
    Some (Write.changesetContents changeset) ∧
  files w' !! "/repo/.changeset/old.md" = Some "old".
Proof.
  cbn zeta. split; [reflexivity |].
  destruct (writeChangeset_writes_one_file unit (λ _ _, Done None) (λ text _, Done text) (λ _ _ _, None)
              (mkChangeset "Fix the cache" [mkRelease "a" patch] []) "/repo"
              {| inputs := []; trace := []; ids := ["brave-lions-sing"];
                 files := {["/repo/.changeset/old.md" := "old"]} |}
              "brave-lions-sing"
              {| inputs := []; trace := []; ids := [];
                 files := <["/repo/.changeset/brave-lions-sing.md" :=
                              Write.changesetContents
                                (mkChangeset "Fix the cache" [mkRelease "a" patch] [])]>
                            {["/repo/.changeset/old.md" := "old"]} |}
              eq_refl)
    as (cfg & text & _ & Hfmt & Hnew & Hother & _).
  injection Hfmt as <-. split; [exact Hnew |].
  refine (eq_trans (Hother "/repo/.changeset/old.md" _) _); [by vm_compute |].
  apply lookup_singleton_eq.
Defined.

Lemma second_write_keeps_or_replaces_witness :
  let first := mkChangeset "Fix the cache" [mkRelease "a" patch] [] in
  let second := mkChangeset "Add the flag" [mkRelease "b" minor] [] in
  let w := {| inputs := []; trace := []; ids := ["same-id"; "same-id"]; files := ∅ |} in
  let w1 := {| inputs := []; trace := []; ids := ["same-id"];
               files := {[changesetPath "/repo" "same-id" :=
                            Write.changesetContents first]} |} in
  let w2 := {| inputs := []; trace := []; ids := [];
               files := <[changesetPath "/repo" "same-id" :=
                            Write.changesetContents second]>
                          {[changesetPath "/repo" "same-id" :=
                              Write.changesetContents first]} |} in
  Write.writeChangeset unit (λ _ _, Done None) (λ text _, Done text) (λ _ _ _, None) first "/repo" w =
    Returned "same-id" w1 ∧
  Write.writeChangeset unit (λ _ _, Done None) (λ text _, Done text) (λ _ _ _, None) second "/repo" w1 =
    Returned "same-id" w2 ∧
  ∃ text2, files w2 !! changesetPath "/repo" "same-id" = Some text2 ∧
           files w1 !! changesetPath "/repo" "same-id" ≠ Some text2.
Proof.
  cbn zeta. split; [reflexivity |]. split; [reflexivity |].
  destruct (second_write_keeps_or_replaces unit (λ _ _, Done None) (λ text _, Done text) (λ _ _ _, None)
              (mkChangeset "Fix the cache" [mkRelease "a" patch] [])
              (mkChangeset "Add the flag" [mkRelease "b" minor] []) "/repo"
              {| inputs := []; trace := []; ids := ["same-id"; "same-id"]; files := ∅ |}
              "same-id"
              {| inputs := []; trace := []; ids := ["same-id"];
                 files := {[changesetPath "/repo" "same-id" :=
                              Write.changesetContents
                                (mkChangeset "Fix the cache" [mkRelease "a" patch] [])]} |}
              "same-id"
              {| inputs := []; trace := []; ids := [];
                 files := <[changesetPath "/repo" "same-id" :=
                              Write.changesetContents
                                (mkChangeset "Add the flag" [mkRelease "b" minor] [])]>
                            {[changesetPath "/repo" "same-id" :=
                                Write.changesetContents
                                  (mkChangeset "Fix the cache" [mkRelease "a" patch] [])]} |}
              eq_refl eq_refl)
    as (text1 & text2 & H1 & _ & H2).
  exists text2. split; [exact H2 |].
  cbn [files] in H2. rewrite lookup_insert_eq in H2. injection H2 as <-.
  cbn [files]. rewrite lookup_singleton_eq. by vm_compute.
Defined.

Lemma grouped_writeChangeset_raise_sources_witness :
  let changeset := mkChangeset "Fix the cache" [mkRelease "a" patch] [] in
  let w := {| inputs := []; trace := []; ids := ["brave-lions-sing"]; files := ∅ |} in
  let w' := {| inputs := []; trace := []; ids := []; files := ∅ |} in
  let missingDirectory : Rejects :=
    λ _ _ remaining, Some (SystemError "ENOENT", remaining) in
  WriteByBumpType.writeChangeset unit (λ _ _, Done None) (λ text _, Done text)
    missingDirectory changeset "/repo" w = Raised (SystemError "ENOENT") w' ∧
  ∃ text id,
    ids w = id :: ids w' ∧
    missingDirectory (changesetPath "/repo" id) text (files w) =
      Some (SystemError "ENOENT", files w').
Proof.
  cbn zeta. split; [reflexivity |].
  destruct (grouped_writeChangeset_raise_sources
              unit (λ _ _, Done None) (λ text _, Done text)
              (λ _ _ remaining, Some (SystemError "ENOENT", remaining))
              (mkChangeset "Fix the cache" [mkRelease "a" patch] []) "/repo"
              {| inputs := []; trace := []; ids := ["brave-lions-sing"]; files := ∅ |}
              (SystemError "ENOENT")
              {| inputs := []; trace := []; ids := []; files := ∅ |} eq_refl)
    as [[Hcfg _] | [(cfg & _ & Hfmt & _) | (cfg & text & id & _ & _ & Hids & Hrej)]].
  - discriminate Hcfg.
  - discriminate Hfmt.
  - by exists text, id.
Defined.

(** ** Summaries: the first answer that is not empty *)

Lemma isEmpty_true s : isEmpty s = true ↔ s = "".
Proof.
  destruct s; [done |]. split; [| done].
  intros H. by apply bool_decide_eq_true in H.
Qed.

(** The loop that insists, with the text it starts from read as one more
    answer at the head of the script. *)
Lemma askWhileEmpty_script message summary script w s rest :
  inputs w = script →
  (∃ w', askWhileEmpty message summary script w = Returned s w' ∧ inputs w' = rest) ↔
  s ≠ "" ∧ ∃ k, Text summary :: script = replicate k (Text "") ++ Text s :: rest.
Proof.
  revert summary w. induction script as [|a script IH]; intros summary w Hin; simpl.
  - destruct (isEmpty summary) eqn:E.
    + apply isEmpty_true in E as ->. split; [by intros (? & ? & _) |].
      intros (Hs & k & Hk). destruct k as [|[|k]]; by simplify_eq/=.
    + apply isEmpty_false in E. split.
      * intros (w' & [= <- <-] & <-). split; [done |]. exists 0. by rewrite Hin.
      * intros (Hs & k & Hk). destruct k as [|k]; simplify_eq/=. by exists w.
  - destruct (isEmpty summary) eqn:E.
    + apply isEmpty_true in E as ->.
      destruct a as [t| | | |].
      * rewrite (IH t (answered message (Text t) script w) eq_refl). split.
        -- intros (Hs & k & Hk). split; [done |]. exists (S k). simpl. by rewrite Hk.
        -- intros (Hs & k & Hk). split; [done |].
           destruct k as [|k]; simplify_eq/=. by exists k.
      * split; [by intros (? & ? & _) |].
        intros (Hs & k & Hk). destruct k as [|[|k]]; by simplify_eq/=.
      * split; [by intros (? & ? & _) |].
        intros (Hs & k & Hk). destruct k as [|[|k]]; by simplify_eq/=.
      * split; [by intros (? & ? & _) |].
        intros (Hs & k & Hk). destruct k as [|[|k]]; by simplify_eq/=.
      * split; [by intros (? & ? & _) |].
        intros (Hs & k & Hk). destruct k as [|[|k]]; by simplify_eq/=.
    + apply isEmpty_false in E. split.
      * intros (w' & [= <- <-] & <-). split; [done |]. exists 0. by rewrite Hin.
      * intros (Hs & k & Hk). destruct k as [|k]; simplify_eq/=. by exists w.
Qed.

(** [summary = await cli.askQuestion(""); while (summary.length === 0) ...]:
    the answers that are passed over are empty, the one that is kept is not. *)
Lemma insist_script message w s rest :
  (∃ w', (summary <- askQuestion "" ;; whileEmpty message summary) w = Returned s w' ∧
         inputs w' = rest) ↔
  s ≠ "" ∧ ∃ k, inputs w = replicate k (Text "") ++ Text s :: rest.
Proof.
  unfold bind, askQuestion, whileEmpty.
  destruct (inputs w) as [|[t| | | |] script] eqn:Hin.
  - split; [by intros (? & ? & _) |].
    intros (Hs & k & Hk). destruct k; by simplify_eq/=.
  - by rewrite (askWhileEmpty_script message t script
                  (answered "" (Text t) script w) s rest eq_refl).
  - split; [by intros (? & ? & _) |].
    intros (Hs & k & Hk). destruct k; by simplify_eq/=.
  - split; [by intros (? & ? & _) |].
    intros (Hs & k & Hk). destruct k; by simplify_eq/=.
  - split; [by intros (? & ? & _) |].
    intros (Hs & k & Hk). destruct k; by simplify_eq/=.
  - split; [by intros (? & ? & _) |].
    intros (Hs & k & Hk). destruct k; by simplify_eq/=.
Qed.

(** The editor step: the text of the editor when it is not empty; nothing
    when it is empty or when the editor raised. *)
Lemma editor_step seed w :
  tryCatch
    (summary <- askQuestionWithEditor seed ;;
     ret (if isEmpty summary then None else Some summary))
    (fun _ => ret None) w =
  match inputs w with
  | Editor r :: rest =>
      Returned (match r with
                | Some s => if isEmpty s then None else Some s
                | None => None
                end)
               (answered seed (Editor r) rest w)
  | _ => Pending
  end.
Proof.
  unfold tryCatch, bind, askQuestionWithEditor, ret.
  by destruct (inputs w) as [|[| [s|] | | |] rest].
Qed.

(** The answers that make a summary prompt return [summary], and whether it
    was written in the editor. *)
Lemma summary_script (question seed message : string) {A} (k : string → bool → A)
    w (a : A) rest :
  (∃ w',
     (summary <- askQuestion question ;;
      if isEmpty summary then
        fromEditor <- tryCatch
          (summary <- askQuestionWithEditor seed ;;
           ret (if isEmpty summary then None else Some summary))
          (fun _ => ret None) ;;
        match fromEditor with
        | Some summary => ret (k summary true)
        | None =>
            summary <- (summary <- askQuestion "" ;; whileEmpty message summary) ;;
            ret (k summary false)
        end
      else ret (k summary false)) w = Returned a w' ∧ inputs w' = rest) ↔
  ∃ s, s ≠ "" ∧
    ((a = k s false ∧ inputs w = Text s :: rest) ∨
     (a = k s true ∧ inputs w = Text "" :: Editor (Some s) :: rest) ∨
     (a = k s false ∧
      ∃ editor n, (editor = None ∨ editor = Some "") ∧
                  inputs w = insistedSummary editor n s rest)).
Proof.
  unfold insistedSummary.
  unfold bind at 1. unfold askQuestion at 1.
  destruct (inputs w) as [|[s0| | | |] r0] eqn:Hin;
    try (split; [by intros (? & ? & _) | intros (? & ? & ?); naive_solver]).
  destruct (isEmpty s0) eqn:E.
  - apply isEmpty_true in E as ->.
    unfold bind at 1. rewrite editor_step. cbn [inputs answered].
    destruct r0 as [|[| r | | |] r1];
      try (split; [by intros (? & ? & _) | intros (? & ? & ?); naive_solver]).
    assert (∀ w1,
      (∃ w', (summary <- (summary <- askQuestion "" ;; whileEmpty message summary) ;;
              ret (k summary false)) w1 = Returned a w' ∧ inputs w' = rest) ↔
      ∃ s, s ≠ "" ∧ a = k s false ∧
           ∃ n, inputs w1 = replicate n (Text "") ++ Text s :: rest) as Hinsist.
    { intros w1. split.
      - intros (w' & H & Hrest). apply bind_Returned in H as (s & w2 & H & Hret).
        apply ret_Returned in Hret as [<- <-].
        destruct (proj1 (insist_script message w1 s rest)) as (Hs & n & Hn); [by eauto |].
        by eauto.
      - intros (s & Hs & -> & n & Hn).
        destruct (proj2 (insist_script message w1 s rest)) as (w' & Hrun & Hrest);
          [by eauto |].
        exists w'. split; [| done]. unfold bind at 1. by rewrite Hrun. }
    destruct r as [s1|].
    + destruct (isEmpty s1) eqn:E1.
      * apply isEmpty_true in E1 as ->. rewrite Hinsist. cbn [inputs answered]. split.
        -- intros (s & Hs & -> & n & ->). exists s. split; [done |].
           right. right. split; [done |]. exists (Some ""), n. by split; [right |].
        -- intros (s & Hs & [[_ [= <- _]] | [[_ [= <-]] | (-> & editor & n & _ & Heq)]]);
             [done.. |].
           injection Heq as _ Heq. exists s. split; [done |]. split; [done |]. by exists n.
      * apply isEmpty_false in E1. unfold ret. split.
        -- intros (w' & [= <- <-] & <-). exists s1. split; [done |]. right. by left.
        -- intros (s & Hs & [[_ [= <- _]] | [[-> [= <- <-]] | (_ & editor & n & Hed & Heq)]]).
           ++ done.
           ++ by eexists.
           ++ injection Heq as <- _. by destruct Hed as [? | [= ->]].
    + rewrite Hinsist. cbn [inputs answered]. split.
      * intros (s & Hs & -> & n & ->). exists s. split; [done |].
        right. right. split; [done |]. exists None, n. by split; [left |].
      * intros (s & Hs & [[_ [= <- _]] | [[_ [=]] | (-> & editor & n & _ & Heq)]]);
          [done |].
        injection Heq as _ Heq. exists s. split; [done |]. split; [done |]. by exists n.
  - apply isEmpty_false in E. unfold ret. split.
    + intros (w' & [= <- <-] & <-). exists s0. split; [done |]. by left.
    + intros (s & Hs & [[-> [= <- <-]] | [[_ [= -> _]] | (_ & editor & n & _ & [= -> _])]]);
        [| done..].
      by eexists.
Qed.

(** X8. [setSummary] keeps the first answer that is not empty, and
    [confirmed] tells where it came from. A call returns exactly on three
    kinds of answers: a summary typed at once, kept with [confirmed] false;
    an empty line and then a text written in the editor, kept with
    [confirmed] true; an empty line, an editor that raised or gave nothing,
    any number of empty lines and then a summary, kept with [confirmed]
    false. The releases and the categories are those of the changeset. *)
Theorem setSummary_keeps_first_nonempty_answer changeSet w c rest :
  (∃ w', setSummary changeSet w = Returned c w' ∧ inputs w' = rest) ↔
  ∃ s, s ≠ "" ∧
    ((c = withSummary false changeSet s ∧ inputs w = Text s :: rest) ∨
     (c = withSummary true changeSet s ∧ inputs w = Text "" :: Editor (Some s) :: rest) ∨
     (c = withSummary false changeSet s ∧
      ∃ editor n, (editor = None ∨ editor = Some "") ∧
                  inputs w = insistedSummary editor n s rest)).
Proof.
  rewrite <- (summary_script "Summary" summaryEditorSeed summaryRequired
                (λ s b, withSummary b changeSet s) w c rest).
  assert (∀ r, setSummary changeSet w = r ↔
    (summary <- askQuestion "Summary" ;;
      if isEmpty summary then
        fromEditor <- tryCatch
          (summary <- askQuestionWithEditor summaryEditorSeed ;;
           ret (if isEmpty summary then None else Some summary))
          (fun _ => ret None) ;;
        match fromEditor with
        | Some summary => ret (withSummary true changeSet summary)
        | None =>
            summary <- (summary <- askQuestion "" ;; whileEmpty summaryRequired summary) ;;
            ret (withSummary false changeSet summary)
        end
      else ret (withSummary false changeSet summary)) w = r) as Hsame.
  { intros r. unfold setSummary, withSummary, bind.
    destruct (askQuestion "Summary" w) as [s0 w0| |]; [| done..].
    destruct (isEmpty s0); [| done].
    destruct (tryCatch _ _ w0) as [[s1|] w1| |]; [done | | done..].
    by destruct (askQuestion "" w1) as [s2 w2| |]. }
  split; intros (w' & H & Hrest); exists w'; (split; [by apply Hsame in H | done]).
Qed.

(** X9. [getSingleSummary] returns the first answer that is not empty: the
    summary typed at once; or, after an empty line, the text written in the
    editor; or, after an empty line and an editor that raised or gave
    nothing, the first line that is not empty. On no other answers does it
    return. *)
Theorem getSingleSummary_returns_first_nonempty_answer changeType w s rest :
  (∃ w', GetSummary.getSingleSummary changeType w = Returned s w' ∧ inputs w' = rest) ↔
  s ≠ "" ∧
  (inputs w = Text s :: rest ∨
   inputs w = Text "" :: Editor (Some s) :: rest ∨
   ∃ editor n, (editor = None ∨ editor = Some "") ∧
               inputs w = insistedSummary editor n s rest).
Proof.
  assert (∀ r, GetSummary.getSingleSummary changeType w = r ↔
    (summary <- askQuestion ("Summary" +:+ GetSummary.fotChangeTypeinsertion changeType) ;;
      if isEmpty summary then
        fromEditor <- tryCatch
          (summary <- askQuestionWithEditor (GetSummary.editorSeed changeType) ;;
           ret (if isEmpty summary then None else Some summary))
          (fun _ => ret None) ;;
        match fromEditor with
        | Some summary => ret summary
        | None =>
            summary <- (summary <- askQuestion "" ;; whileEmpty GetSummary.summaryRequired summary) ;;
            ret summary
        end
      else ret summary) w = r) as Hsame.
  { intros r. unfold GetSummary.getSingleSummary, bind.
    destruct (askQuestion _ w) as [s0 w0| |]; [| done..].
    destruct (isEmpty s0); [| done].
    destruct (tryCatch _ _ w0) as [[s1|] w1| |]; [done | | done..].
    destruct (askQuestion "" w1) as [s2 w2| |]; [| done..].
    by destruct (whileEmpty GetSummary.summaryRequired s2 w2). }
  pose proof (summary_script
                ("Summary" +:+ GetSummary.fotChangeTypeinsertion changeType)
                (GetSummary.editorSeed changeType) GetSummary.summaryRequired
                (λ s (_ : bool), s) w s rest) as Hscript.
  cbv beta in Hscript. split.
  - intros (w' & H & Hrest).
    destruct (proj1 Hscript) as (s' & Hs & Hshape).
    { exists w'. split; [by apply Hsame in H | done]. }
    destruct Hshape as [[-> ?] | [[-> ?] | [-> ?]]]; (split; [done |]); auto.
  - intros (Hs & Hshape).
    destruct (proj2 Hscript) as (w' & H & Hrest).
    { exists s. split; [done |]. destruct Hshape as [? | [? | ?]]; auto. }
    exists w'. split; [by apply Hsame | done].
Qed.

Lemma getSingleSummary_not_raised changeType w e w' :
  GetSummary.getSingleSummary changeType w ≠ Raised e w'.
Proof.
  unfold GetSummary.getSingleSummary.
  intros [H | (s & w1 & _ & H)]%bind_Raised.
  - unfold askQuestion in H. by destruct (inputs w) as [|[] ?].
  - destruct (isEmpty s); [| done].
    apply bind_Raised in H as [H | (r & w2 & _ & H)].
    + rewrite editor_step in H. by destruct (inputs w1) as [|[| [?|] | | |] ?].
    + destruct r; [done |].
      apply bind_Raised in H as [H | (s' & w3 & _ & H)].
      * unfold askQuestion in H. by destruct (inputs w2) as [|[] ?].
      * by apply askWhileEmpty_not_raised in H.
Qed.

(** X10. [getSummary] never raises: an editor that cannot be used is caught,
    and the summary is asked for on the command line instead. *)
Theorem getSummary_never_raises changeTypes w e w' :
  GetSummary.getSummary changeTypes w ≠ Raised e w'.
Proof.
  destruct changeTypes as [[|c cs]|]; cbn [GetSummary.getSummary];
    try apply getSingleSummary_not_raised.
  intros [H | (parts & w1 & _ & H)]%bind_Raised; [| done].
  revert H. apply forOf_not_raised.
  intros ct parts w0 e0 w0' [H | (? & ? & _ & H)]%bind_Raised; [| done].
  by apply getSingleSummary_not_raised in H.
Qed.

Lemma ConcatSummaryParts_from (acc : string) (parts : list GetSummary.SummaryPart) :
  acc ≠ "" →
  foldl
    (λ reducer part,
       let prefix := if bool_decide (String.length reducer ≠ 0) then nl +:+ nl
                     else EmptyString in
       let partStr := " - [" +:+ tag (GetSummary.changeType part) +:+ "] " +:+
                      GetSummary.summaryPart part in
       reducer +:+ prefix +:+ partStr)
    acc parts =
  String.concat (nl +:+ nl) (acc :: map GetSummary.partText parts).
Proof.
  revert acc. induction parts as [|p parts IH]; intros acc Hacc; [done |].
  cbn [foldl map]. rewrite IH.
  - rewrite bool_decide_eq_true_2 by (by destruct acc).
    rewrite concat_cons_cons. fold (GetSummary.partText p).
    destruct (map GetSummary.partText parts) as [|q qs].
    + cbn [String.concat]. by rewrite append_assoc.
    + rewrite !concat_cons_cons. by rewrite !append_assoc.
  - by destruct acc.
Qed.

(** X11. [ConcatSummaryParts] is a join: the bullets [ - [tag] summary] of
    the parts, in order, with an empty line between two of them, and
    nothing before the first or after the last. *)
Theorem ConcatSummaryParts_joins_bullets (parts : list GetSummary.SummaryPart) :
  GetSummary.ConcatSummaryParts parts =
  String.concat (nl +:+ nl) (map GetSummary.partText parts).
Proof.
  destruct parts as [|p parts]; [done |].
  unfold GetSummary.ConcatSummaryParts. cbn [foldl map].
  rewrite bool_decide_eq_false_2 by (simpl; lia).
  change (EmptyString +:+ EmptyString +:+ ?x) with x.
  fold (GetSummary.partText p). by apply ConcatSummaryParts_from.
Qed.

(** X12. With change types, [getSummary] asks one summary per change type
    and returns their bullets joined: one part per change type, in the
    order given, none with an empty summary. *)
Theorem getSummary_one_bullet_per_change_type changeTypes w s w' :
  changeTypes ≠ [] →
  GetSummary.getSummary (Some changeTypes) w = Returned s w' →
  ∃ parts,
    map GetSummary.changeType parts = changeTypes ∧
    Forall (λ part, GetSummary.summaryPart part ≠ "") parts ∧
    s = String.concat (nl +:+ nl) (map GetSummary.partText parts) ∧
    s ≠ "".
Proof.
  intros Hne Hrun.
  destruct changeTypes as [|c cs]; [done |]. clear Hne.
  cbn [GetSummary.getSummary] in Hrun.
  apply bind_Returned in Hrun as (parts & w1 & Hloop & Hret).
  apply ret_Returned in Hret as [<- <-].
  pose (Inv := λ (rest : list ChangesetType) (done : list GetSummary.SummaryPart)
                 (_ : World),
    map GetSummary.changeType done ++ rest = c :: cs ∧
    Forall (λ part, GetSummary.summaryPart part ≠ "") done).
  assert (Inv [] parts w1) as [Htypes Hparts].
  { eapply (forOf_invariant Inv); [exact Hloop | by split |].
    clear. intros ct rest done w done1 w1 [Htypes Hparts] Hbody.
    apply bind_Returned in Hbody as (part & w2 & Hpart & Hret).
    apply ret_Returned in Hret as [<- <-].
    destruct (proj1 (getSingleSummary_returns_first_nonempty_answer
                       (Some ct) w part (inputs w2))) as [Hpart' _]; [by eauto |].
    split.
    - rewrite map_app, <- app_assoc. exact Htypes.
    - apply Forall_app. split; [done |]. by constructor. }
  rewrite app_nil_r in Htypes. exists parts.
  split; [done |]. split; [done |].
  rewrite ConcatSummaryParts_joins_bullets. split; [done |].
  destruct parts as [|p parts]; [done |]. cbn [map].
  destruct (map GetSummary.partText parts); by cbn.
Qed.

Lemma getSummary_one_bullet_per_change_type_witness :
  ∃ w',
    GetSummary.getSummary (Some [mkChangesetType "feat"; mkChangesetType "fix"])
      (session [Text "Add the flag"; Text ""; Editor (Some "Fix the cache")]) =
      Returned (" - [feat] Add the flag" +:+ nl +:+ nl +:+ " - [fix] Fix the cache") w' ∧
    ∃ parts,
      map GetSummary.changeType parts = [mkChangesetType "feat"; mkChangesetType "fix"] ∧
      Forall (λ part, GetSummary.summaryPart part ≠ "") parts.
Proof.
  eexists. split; [reflexivity |].
  destruct (getSummary_one_bullet_per_change_type
              [mkChangesetType "feat"; mkChangesetType "fix"]
              (session [Text "Add the flag"; Text ""; Editor (Some "Fix the cache")])
              _ _ ltac:(done) eq_refl) as (parts & Htypes & Hparts & _).
  by exists parts.
Defined.

(** ** Choosing the packages *)

(** The retry loop, with the selection it starts from read as one more
    answer at the head of the script. *)
Lemma chooseAtLeastOne_retry_script message choices turns selectedItems w sel rest :
  length (inputs w) < turns →
  NoDup selectedItems → selectedItems ⊆ optionKeys choices →
  (∃ w', chooseAtLeastOne_retry turns (askCheckboxPlus message choices) selectedItems w =
           Returned sel w' ∧ inputs w' = rest) ↔
  sel ≠ [] ∧ NoDup sel ∧ sel ⊆ optionKeys choices ∧
  ∃ k, Ticks selectedItems :: inputs w = afterEmptyTicks k sel rest.
Proof.
  unfold afterEmptyTicks.
  revert selectedItems w. induction turns as [|turns IH]; intros sel0 w Hlen Hnd Hsub;
    [lia |].
  destruct sel0 as [|x sel0].
  - cbn [chooseAtLeastOne_retry]. unfold bind, askCheckboxPlus.
    destruct (inputs w) as [|[| | | |sel1] r1] eqn:Hin;
      try (split; [by intros (? & ? & _) |];
           intros (? & ? & ? & k & Hk); destruct k as [|[|k]]; by simplify_eq/=).
    destruct (decide (NoDup sel1 ∧ sel1 ⊆ optionKeys choices)) as [[Hnd1 Hsub1] | Hbad].
    + rewrite (IH sel1 (answered message (Ticks sel1) r1 w)); [| simpl in *; lia | done..].
      cbn [inputs answered]. split.
      * intros (Hs & ? & ? & k & Hk). repeat split; try done.
        exists (S k). simpl. by rewrite Hk.
      * intros (Hs & ? & ? & k & Hk). repeat split; try done.
        destruct k as [|k]; simplify_eq/=. by exists k.
    + split; [by intros (? & ? & _) |].
      intros (? & ? & ? & k & Hk). destruct k as [|[|k]]; simplify_eq/=.
      * by destruct Hbad.
      * destruct Hbad. split; [constructor | by intros ? ?%elem_of_nil].
  - cbn [chooseAtLeastOne_retry]. unfold ret. split.
    + intros (w' & [= <- <-] & <-). repeat split; try done. by exists 0.
    + intros (? & ? & ? & k & Hk). destruct k as [|k]; simplify_eq/=. by exists w.
Qed.

(** X13. [chooseAtLeastOne] over a checkbox prompt asks again as long as
    nothing is ticked, and returns the first selection that is not empty:
    a call returns [sel] exactly when the user ticked nothing some number
    of times (maybe none) and then ticked [sel]. *)
Theorem chooseAtLeastOne_returns_first_nonempty_selection
    message choices errorMessage w sel rest :
  (∃ w', chooseAtLeastOne (askCheckboxPlus message choices) errorMessage w =
           Returned sel w' ∧ inputs w' = rest) ↔
  sel ≠ [] ∧ NoDup sel ∧ sel ⊆ optionKeys choices ∧
  ∃ k, inputs w = afterEmptyTicks k sel rest.
Proof.
  unfold chooseAtLeastOne, afterEmptyTicks. unfold bind at 1. unfold askCheckboxPlus at 1.
  destruct (inputs w) as [|[| | | |sel0] r0] eqn:Hin;
    try (split; [by intros (? & ? & _) |];
         intros (? & ? & ? & k & Hk); destruct k as [|k]; by simplify_eq/=).
  destruct (decide (NoDup sel0 ∧ sel0 ⊆ optionKeys choices)) as [[Hnd0 Hsub0] | Hbad].
  - rewrite (chooseAtLeastOne_retry_script message choices _ sel0
               (answered message (Ticks sel0) r0 w) sel rest); [| simpl; lia | done..].
    done.
  - split; [by intros (? & ? & _) |].
    intros (? & ? & ? & k & Hk). destruct k as [|k]; simplify_eq/=.
    + by destruct Hbad.
    + destruct Hbad. split; [constructor | by intros ? ?%elem_of_nil].
Qed.

(** X14. In a workspace of several packages, the names that
    [getPackagesToRelease] returns are those ticked at the first selection
    that was not empty, without the two group labels: no name comes twice,
    and every name is one of [changedPackages] or the name of a package of
    the workspace. *)
Theorem getPackagesToRelease_returns_offered_names
    changedPackages allPackages w pkgs w' :
  1 < length allPackages →
  getPackagesToRelease changedPackages allPackages w = Returned pkgs w' →
  NoDup pkgs ∧
  (∀ p, p ∈ pkgs →
        (p ∈ changedPackages ∨ p ∈ pkgNames allPackages) ∧
        p ≠ "changed packages" ∧ p ≠ "unchanged packages") ∧
  ∃ k sel,
    inputs w = afterEmptyTicks k sel (inputs w') ∧ sel ≠ [] ∧
    pkgs = filter (λ pkgName, pkgName ≠ "changed packages" ∧
                              pkgName ≠ "unchanged packages") sel.
Proof.
  intros Hlen Hrun. unfold getPackagesToRelease in Hrun.
  rewrite decide_True in Hrun by done.
  apply bind_Returned in Hrun as (sel & w1 & Hsel & Hret).
  apply ret_Returned in Hret as [<- <-].
  unfold askInitialReleaseQuestion in Hsel.
  match type of Hsel with
  | chooseAtLeastOne (askCheckboxPlus ?message ?choices) ?errorMessage _ = _ =>
      destruct (proj1 (chooseAtLeastOne_returns_first_nonempty_selection
                         message choices errorMessage w sel (inputs w1)))
        as (Hne & Hnd & Hsub & k & Hk); [by eauto |]
  end.
  split; [by apply NoDup_filter |]. split.
  - intros p [[Hl1 Hl2] Hp]%list_elem_of_filter. split; [| done].
    apply Hsub in Hp. unfold optionKeys in Hp.
    apply list_elem_of_In, in_flat_map in Hp as (g & Hg & Hp).
    apply list_elem_of_In, list_elem_of_filter in Hg as [_ Hg].
    apply list_elem_of_In in Hp.
    repeat (apply elem_of_cons in Hg as [-> | Hg]); [| | by apply elem_of_nil in Hg].
    + cbn [keysOf] in Hp. apply elem_of_cons in Hp as [-> | Hp]; [done | by left].
    + cbn [keysOf] in Hp. apply elem_of_cons in Hp as [-> | Hp]; [done |].
      right. by apply list_elem_of_filter in Hp as [_ Hp].
  - by exists k, sel.
Qed.

Lemma getPackagesToRelease_returns_offered_names_witness :
  ∃ w',
    getPackagesToRelease ["a"; "b"] workspace
      (session [Ticks []; Ticks ["changed packages"; "a"; "b"; "c"]; Ticks []]) =
      Returned ["a"; "b"; "c"] w' ∧
    inputs w' = [Ticks []] ∧
    NoDup ["a"; "b"; "c"] ∧
    ∀ p, p ∈ ["a"; "b"; "c"] →
         (p ∈ ["a"; "b"] ∨ p ∈ pkgNames workspace) ∧
         p ≠ "changed packages" ∧ p ≠ "unchanged packages".
Proof.
  eexists. split; [vm_compute; reflexivity |]. split; [reflexivity |].
  edestruct (getPackagesToRelease_returns_offered_names ["a"; "b"] workspace
               (session [Ticks []; Ticks ["changed packages"; "a"; "b"; "c"]; Ticks []])
               ["a"; "b"; "c"]) as (Hnd & Hnames & _).
  - simpl. lia.
  - vm_compute. reflexivity.
  - by split.
Defined.

(** ** Errors of the multi-package path *)

(** A loop that raised: the turns before went through, and one turn raised. *)
Lemma forOf_Raised {A S} (body : A → S → M S) (l : list A) (s : S) w e w' :
  forOf l body s w = Raised e w' →
  ∃ l1 x l2 s0 w0,
    l = l1 ++ x :: l2 ∧ forOf l1 body s w = Returned s0 w0 ∧ body x s0 w0 = Raised e w'.
Proof.
  revert s w. induction l as [|x l IH]; intros s w; [done |].
  cbn [forOf]. intros [H | (s1 & w1 & Hx & H)]%bind_Raised.
  - by exists [], x, l, s, w.
  - apply IH in H as (l1 & y & l2 & s0 & w0 & -> & Hl1 & Hy).
    exists (x :: l1), y, l2, s0, w0. split; [done |]. split; [| done].
    cbn [forOf]. unfold bind. by rewrite Hx.
Qed.

Lemma getPkgJson_Raised byName pkgName w e w' :
  getPkgJson byName pkgName w = Raised e w' ↔
  byName !! pkgName = None ∧ e = TypeError ∧ w' = w.
Proof.
  unfold getPkgJson. destruct (byName !! pkgName) as [j|]; split.
  - done.
  - by intros [? _].
  - by intros [= <- <-].
  - by intros (_ & -> & ->).
Qed.

(** A loop over package names whose turns read the package in the map, and
    change nothing else in the world, raises only for a name that the map
    does not hold, and leaves the world as it was. *)
Lemma lookup_loop_Raised {S} (byName : gmap string PackageJSON) (body : string → S → M S) (l : list string)
    (s : S) w e w' :
  (∀ x s w e w', body x s w = Raised e w' →
                 byName !! x = None ∧ e = TypeError ∧ w' = w) →
  (∀ x s w s1 w1, body x s w = Returned s1 w1 → w1 = w) →
  forOf l body s w = Raised e w' →
  e = TypeError ∧ w' = w ∧ ∃ p, p ∈ l ∧ byName !! p = None.
Proof.
  intros Hraise Hret (l1 & x & l2 & s0 & w0 & -> & Hl1 & Hx)%forOf_Raised.
  apply Hraise in Hx as (Hx & -> & ->).
  assert (w0 = w) as ->.
  { eapply (forOf_invariant (λ _ _ wc, wc = w)); [exact Hl1 | done |].
    intros ? ? ? ? ? ? -> Hb. by apply Hret in Hb. }
  split; [done |]. split; [done |]. exists x. split; [| done].
  apply elem_of_app. right. left.
Qed.

Lemma packageChoices_Raised byName pkgNames w e w' :
  packageChoices byName pkgNames w = Raised e w' →
  e = TypeError ∧ w' = w ∧ ∃ p, p ∈ pkgNames ∧ byName !! p = None.
Proof.
  unfold packageChoices. apply lookup_loop_Raised.
  - intros x s w0 e0 w0' [H | (j & w1 & _ & H)]%bind_Raised; [| done].
    by apply getPkgJson_Raised in H.
  - intros x s w0 s1 w1 (j & w2 & [_ ->]%getPkgJson_Returned & [_ <-]%ret_Returned)%bind_Returned.
    done.
Qed.

Lemma packageChoices_raises byName pkgNames p w :
  p ∈ pkgNames → byName !! p = None →
  packageChoices byName pkgNames w = Raised TypeError w.
Proof.
  intros Hp Hnone.
  destruct (packageChoices byName pkgNames w) as [choices w'|e w'|] eqn:Hrun.
  - apply packageChoices_Returned in Hrun as (_ & _ & Hall).
    destruct (Hall p Hp) as [j Hj]. congruence.
  - by apply packageChoices_Raised in Hrun as (-> & -> & _).
  - exfalso. revert Hrun. unfold packageChoices.
    assert (∀ acc : list string,
      forOf pkgNames
        (λ pkgName choices,
           pkgJson <- getPkgJson byName pkgName ;;
           let message := formatPkgNameAndVersion pkgName (pkg_version pkgJson) in
           ret (choices ++ [pkgName])) acc w ≠ Pending) as Hnever; [| apply Hnever].
    clear Hp. induction pkgNames as [|x l IH]; intros acc; [done |].
    cbn [forOf]. unfold bind at 1. unfold getPkgJson at 1.
    destruct (byName !! x); [apply IH | done].
Qed.







Lemma Map_new_is_Some {V} (entries : list (string * V)) (m : gmap string V) k :
  k ∈ entries.*1 ∨ is_Some (m !! k) →
  is_Some (foldl (λ m e, <[e.1 := e.2]> m) m entries !! k).
Proof.
  revert m. induction entries as [|[k' v] entries IH]; intros m; cbn [foldl fmap list_fmap].
  - intros [?%elem_of_nil | ?]; done.
  - intros H. apply IH. destruct (decide (k = k')) as [-> | Hne].
    + right. cbn. rewrite lookup_insert_eq. by eexists.
    + destruct H as [[? | ?]%elem_of_cons | H]; [done | by left |].
      right. cbn. by rewrite lookup_insert_ne.
Qed.

Lemma pkgJsonsByNameOf_is_Some (allPackages : list Package) k :
  k ∈ pkgNames allPackages → is_Some (pkgJsonsByNameOf allPackages !! k).
Proof.
  intros Hk. unfold pkgJsonsByNameOf, Map_new. apply Map_new_is_Some. left.
  unfold pkgNames in Hk. rewrite <- list_fmap_compose. exact Hk.
Qed.

Lemma pkgJsonsByNameOf_None (allPackages : list Package) k :
  pkgJsonsByNameOf allPackages !! k = None ↔ k ∉ pkgNames allPackages.
Proof.
  split.
  - intros Hnone Hk. apply pkgJsonsByNameOf_is_Some in Hk as [j Hj]. congruence.
  - intros Hk. destruct (pkgJsonsByNameOf allPackages !! k) as [j|] eqn:Hj; [| done].
    by apply pkgJsonsByNameOf_lookup in Hj as [_ ?].
Qed.

Section MultiPackageErrors.

Variable semver_lt : string → string → option bool.


(** X15. A ticked package that the workspace does not hold makes
    [createChangeset] raise: once the packages and the categories are
    chosen, the read of its version for the major prompt raises a
    [TypeError], and no bump question is asked. *)
Theorem ticked_unknown_package_raises
    changedPackages allPackages w pkgs w1 chosen w2 p :
  1 < length allPackages →
  getPackagesToRelease changedPackages allPackages w = Returned pkgs w1 →
  askCheckboxPlus kindOfChangeQuestion (map Item allCategoriesOfChange) w1 =
    Returned chosen w2 →
  p ∈ pkgs → p ∉ pkgNames allPackages →
  createChangeset semver_lt changedPackages allPackages w = Raised TypeError w2.
Proof.
  intros Hlen Hpkgs Hchosen Hp Hunknown.
  unfold createChangeset. rewrite decide_True by done.
  unfold bind at 1. rewrite Hpkgs.
  unfold bind at 1. rewrite Hchosen.
  unfold bind at 1. unfold assignBumpTypes. unfold bind at 1.
  unfold majorRound. unfold bind at 1.
  fold (pkgJsonsByNameOf allPackages).
  by rewrite (packageChoices_raises _ _ p) by (done || by apply pkgJsonsByNameOf_None).
Qed.


End MultiPackageErrors.

Lemma ticked_unknown_package_raises_witness :
  ∃ w2,
    createChangeset lt_by_leading_zero ["ghost"] workspace
      (session [Ticks ["changed packages"; "ghost"]; Ticks []; Ticks ["ghost"]]) =
      Raised TypeError w2 ∧
    inputs w2 = [Ticks ["ghost"]].
Proof.
  eexists. split.
  - eapply (ticked_unknown_package_raises lt_by_leading_zero ["ghost"] workspace
              (session [Ticks ["changed packages"; "ghost"]; Ticks []; Ticks ["ghost"]])
              ["ghost"] _ [] _ "ghost").
    + simpl. lia.
    + vm_compute. reflexivity.
    + vm_compute. reflexivity.
    + left.
    + vm_compute. set_solver.
  - reflexivity.
Defined.


(** ** The runs without categories *)

(** Lines 356-367 when no changeset was pushed before: one changeset of all
    the releases, and one call of [setSummary]. *)
Lemma finishChangesets_plain rels w cs w' :
  finishChangesets false rels [] w = Returned cs w' ↔
  ∃ c, setSummary (mkChangesetWithConfirmed false "" [] rels) w = Returned c w' ∧ cs = [c].
Proof.
  unfold finishChangesets. cbn [negb app forOf]. split.
  - intros H. apply bind_Returned in H as (s1 & w1 & H & Hret).
    apply bind_Returned in H as (c & w2 & Hset & Hret').
    apply ret_Returned in Hret' as [<- <-]. apply ret_Returned in Hret as [<- <-].
    by exists c.
  - intros (c & Hset & ->). unfold bind. by rewrite Hset.
Qed.

Section PlainRuns.

Variable semver_lt : string → string → option bool.

(** X17. [createChangeset] writes no file, and takes nothing off the
    transcript: whatever path a returning run took, the files are those
    from before, and the transcript is the one from before with the
    prompts of the run put on it. *)
Theorem createChangeset_writes_no_file changedPackages allPackages w cs w' :
  createChangeset semver_lt changedPackages allPackages w = Returned cs w' →
  files w' = files w ∧ ∃ asked, trace w' = asked ++ trace w.
Proof.
  assert (∀ P wa wb, grows P wa wb → ∃ asked, trace wb = asked ++ trace wa) as Hpre.
  { intros P wa wb (evs & Hevs & _). by exists evs. }
  intros Hrun. destruct (decide (1 < length allPackages)) as [Hlen | Hlen].
  - apply createChangeset_multi in Hrun
      as (pkgs & w1 & chosen & w2 & rels & w3 & lists & w4 & H1 & H2 & H3 & H4 & H5);
      [| done].
    apply getPackagesToRelease_Returned in H1 as [Hg1 Hf1].
    apply askCheckboxPlus_Returned in H2 as (rest & _ & _ & _ & ->).
    apply assignBumpTypes_Returned in H3
      as (? & ? & ? & _ & _ & _ & _ & _ & _ & _ & _ & Hg3 & Hf3 & _);
      [| intros k j Hj; by apply pkgJsonsByNameOf_lookup in Hj as [? _]].
    apply finishChangesets_Returned in H5 as (_ & Hg5 & Hf5).
    assert (grows (λ _, True) w3 w4 ∧ files w4 = files w3) as [Hg4 Hf4].
    { destruct (bool_decide (0 < length chosen)).
      - destruct lists as [cats csl].
        apply askChangeTypes_Returned in H4 as (b & rest' & _ & _ & Hg & Hf & _).
        split; [| done]. by eapply grows_weaken; [| exact Hg].
      - apply ret_Returned in H4 as [_ <-]. split; [apply grows_refl | done]. }
    split; [by rewrite Hf5, Hf4, Hf3 |].
    apply (Hpre (λ _, True)).
    eapply grows_trans; [by eapply grows_weaken; [| exact Hg1] |].
    eapply grows_trans; [by apply (grows_answered (λ _, True)) |].
    eapply grows_trans; [by eapply grows_weaken; [| exact Hg3] |].
    eapply grows_trans; [exact Hg4 |].
    by eapply grows_weaken; [| exact Hg5].
  - unfold createChangeset in Hrun. rewrite decide_False in Hrun by done.
    destruct allPackages as [|p rest]; [done |].
    apply bind_Returned in Hrun as (t & w1 & Ht & Hrun).
    apply askList_Returned in Ht as (rest1 & _ & _ & ->).
    apply bind_Returned in Hrun as ([] & w2 & Hmajor & Hrun).
    apply finishChangesets_Returned in Hrun as (_ & Hg & Hf).
    assert (grows (λ _, True) (answered (kindOfBumpQuestion (packageJson p)) (Pick t) rest1 w)
              w2 ∧ files w2 = files w) as [Hg2 Hf2].
    { case_decide.
      - apply bind_Returned in Hmajor as (b & w3 & Hb & Hret).
        destruct b; [| done]. apply ret_Returned in Hret as [_ <-].
        apply confirmMajorRelease_Returned in Hb as [(_ & _ & ->) | (_ & r & _ & ->)].
        + split; [apply grows_refl | done].
        + split; [by apply grows_answered | done].
      - apply ret_Returned in Hmajor as [_ <-]. split; [apply grows_refl | done]. }
    split; [by rewrite Hf, Hf2 |].
    apply (Hpre (λ _, True)).
    eapply grows_trans; [by apply (grows_answered (λ _, True)) |].
    eapply grows_trans; [exact Hg2 |].
    by eapply grows_weaken; [| exact Hg].
Qed.

(** X18. When no category is ticked, a run over several packages returns
    one changeset and asks for one summary: the changeset holds all the
    releases of the bump rounds and no category, its summary is not empty,
    and the reuse question is never asked. *)
Theorem no_category_run_returns_one_changeset
    changedPackages allPackages w pkgs w1 w2 cs w' :
  1 < length allPackages →
  getPackagesToRelease changedPackages allPackages w = Returned pkgs w1 →
  askCheckboxPlus kindOfChangeQuestion (map Item allCategoriesOfChange) w1 =
    Returned [] w2 →
  createChangeset semver_lt changedPackages allPackages w = Returned cs w' →
  ∃ rels w3 c,
    assignBumpTypes semver_lt (pkgJsonsByNameOf allPackages) pkgs w2 = Returned rels w3 ∧
    setSummary (mkChangesetWithConfirmed false "" [] rels) w3 = Returned c w' ∧
    cs = [c] ∧
    cwc_releases c = rels ∧ cwc_categoryOfChangeList c = [] ∧ cwc_summary c ≠ "" ∧
    ∀ b, ¬ askedDuring w w' (Asked reuseQuestion (Confirm b)).
Proof.
  intros Hlen Hpkgs Hchosen Hrun.
  apply createChangeset_multi in Hrun
    as (pkgs' & w1' & chosen & w2' & rels & w3 & lists & w4 & H1 & H2 & H3 & H4 & H5);
    [| done].
  rewrite Hpkgs in H1. injection H1 as <- <-.
  rewrite Hchosen in H2. injection H2 as <- <-.
  cbn in H4. apply ret_Returned in H4 as [<- <-]. cbn in H5.
  apply finishChangesets_plain in H5 as (c & Hset & ->).
  exists rels, w3, c. split; [done |]. split; [done |]. split; [done |].
  pose proof Hset as (Hne & Hr & Hc & _ & Hg5 & _)%setSummary_Returned.
  split; [done |]. split; [done |]. split; [done |].
  intros b Hasked.
  apply getPackagesToRelease_Returned in Hpkgs as [Hg1 _].
  apply askCheckboxPlus_Returned in Hchosen as (rest & _ & _ & _ & ->).
  apply assignBumpTypes_Returned in H3
    as (? & ? & ? & _ & _ & _ & _ & _ & _ & _ & _ & Hg3 & _);
    [| intros k j Hj; by apply pkgJsonsByNameOf_lookup in Hj as [? _]].
  assert (grows (λ e, ticked e ∨ bumpEvent e ∨ textual e) w w') as Hg.
  { eapply grows_trans; [eapply grows_weaken; [| exact Hg1]; intros e; tauto |].
    eapply grows_trans;
      [apply (grows_answered _ kindOfChangeQuestion (Ticks []) rest w1); left; exact I |].
    eapply grows_trans; [eapply grows_weaken; [| exact Hg3]; intros e; tauto |].
    eapply grows_weaken; [| exact Hg5]; intros e; tauto. }
  apply (askedDuring_grows _ _ _ _ Hg) in Hasked as [[] | [[name Hname] | []]].
  by apply eq_sym, firstMajorQuestion_not_reuse in Hname.
Qed.

(** X19. A run over one package that returns gives back one changeset: it
    holds one release, of that package and of the type that was picked,
    and no category, and its summary is not empty. When major was picked
    for a version below 1.0.0, the first major was confirmed. *)
Theorem single_package_run_returns_one_changeset changedPackages p w cs w' :
  createChangeset semver_lt changedPackages [p] w = Returned cs w' →
  ∃ type c w1,
    type ∈ [patch; minor; major] ∧
    (if bool_decide (type = major) &&
        bool_decide (semver_lt (pkg_version (packageJson p)) "1.0.0" = Some true)
     then inputs w = Pick major :: Confirm true :: inputs w1
     else inputs w = Pick type :: inputs w1) ∧
    (type = major → is_Some (semver_lt (pkg_version (packageJson p)) "1.0.0")) ∧
    setSummary
      (mkChangesetWithConfirmed false "" []
         [mkRelease (pkg_name (packageJson p)) type]) w1 = Returned c w' ∧
    cs = [c] ∧
    cwc_releases c = [mkRelease (pkg_name (packageJson p)) type] ∧
    cwc_categoryOfChangeList c = [] ∧ cwc_summary c ≠ "".
Proof.
  unfold createChangeset. rewrite decide_False by (simpl; lia). intros Hrun.
  apply bind_Returned in Hrun as (t & w1 & Ht & Hrun).
  apply askList_Returned in Ht as (rest1 & Hin & Hchoice & ->).
  apply bind_Returned in Hrun as ([] & w2 & Hmajor & Hrun).
  apply finishChangesets_plain in Hrun as (c & Hset & ->).
  exists t, c, w2. split; [done |].
  pose proof Hset as (Hne & Hr & Hc & _)%setSummary_Returned.
  enough ((if bool_decide (t = major) &&
              bool_decide (semver_lt (pkg_version (packageJson p)) "1.0.0" = Some true)
           then inputs w = Pick major :: Confirm true :: inputs w2
           else inputs w = Pick t :: inputs w2) ∧
          (t = major → is_Some (semver_lt (pkg_version (packageJson p)) "1.0.0")))
    as [Hinputs Hread] by (by repeat split).
  destruct (decide (t = major)) as [-> | Hnot];
    [rewrite bool_decide_eq_true_2 by done | rewrite bool_decide_eq_false_2 by done];
    cbn [andb].
  - apply bind_Returned in Hmajor as (b & w3 & Hb & Hret).
    destruct b; [| done]. apply ret_Returned in Hret as [_ <-].
    apply confirmMajorRelease_Returned in Hb
      as [(Hlt & _ & ->) | (Hlt & r & Hin' & ->)]; rewrite Hlt.
    + by split.
    + rewrite bool_decide_eq_true_2 by done. split; [| done].
      cbn in Hin'. by rewrite Hin, Hin'.
  - split; [| done]. by apply ret_Returned in Hmajor as [_ <-].
Qed.

End PlainRuns.

Lemma createChangeset_writes_no_file_witness :
  ∃ cs w',
    createChangeset lt_by_leading_zero ["a"; "b"] workspace (session perReleaseScript) =
      Returned cs w' ∧
    length cs = 2 ∧
    files w' = files (session perReleaseScript).
Proof.
  eexists _, _. split; [vm_compute; reflexivity |]. split; [reflexivity |].
  eapply (createChangeset_writes_no_file lt_by_leading_zero ["a"; "b"] workspace
            (session perReleaseScript)).
  vm_compute. reflexivity.
Defined.

Lemma no_category_run_returns_one_changeset_witness :
  ∃ cs w',
    createChangeset lt_by_leading_zero ["a"; "b"] workspace (session plainScript) =
      Returned cs w' ∧
    map cwc_releases cs =
      [[mkRelease "a" major; mkRelease "b" minor; mkRelease "c" patch]] ∧
    ∃ rels c, cs = [c] ∧ cwc_releases c = rels ∧ cwc_categoryOfChangeList c = [] ∧
              cwc_summary c ≠ "".
Proof.
  eexists _, _. split; [vm_compute; reflexivity |]. split; [reflexivity |].
  edestruct (no_category_run_returns_one_changeset lt_by_leading_zero ["a"; "b"] workspace
               (session plainScript))
    as (rels & w3 & c & _ & _ & Hcs & Hrels & Hcats & Hsum & _).
  - simpl. lia.
  - vm_compute. reflexivity.
  - vm_compute. reflexivity.
  - vm_compute. reflexivity.
  - by exists rels, c.
Defined.

Lemma single_package_run_returns_one_changeset_witness :
  ∃ cs w',
    createChangeset lt_by_leading_zero [] [pkg "b" "0.2.0"]
      (session [Pick major; Confirm true; Text "First stable release"]) =
      Returned cs w' ∧
    map cwc_summary cs = ["First stable release"] ∧
    ∃ type c,
      cs = [c] ∧ cwc_releases c = [mkRelease "b" type] ∧
      cwc_categoryOfChangeList c = [] ∧ cwc_summary c ≠ "".
Proof.
  eexists _, _. split; [vm_compute; reflexivity |]. split; [reflexivity |].
  edestruct (single_package_run_returns_one_changeset lt_by_leading_zero []
               (pkg "b" "0.2.0")
               (session [Pick major; Confirm true; Text "First stable release"]))
    as (type & c & w1 & _ & _ & _ & _ & Hcs & Hrels & Hcats & Hsum).
  - vm_compute. reflexivity.
  - by exists type, c.
Defined.

(** ** Who gets a major bump *)

Section MajorRound.

Variable semver_lt : string → string → option bool.

(** The loop of the major round, seen from the packages ticked at the major
    prompt: the majors are among those gone through; each of those is
    major or was declined; and the first-major question is asked only for
    one of them, and only below 1.0.0. *)
Lemma majorRound_ticked byName pkgs left0 w st w' selected rest :
  (∀ k j, byName !! k = Some j → pkg_name j = k) →
  majorRound semver_lt byName pkgs (left0, []) w = Returned st w' →
  inputs w = Ticks selected :: rest →
  let ticked := filter (λ x, x ≠ "all packages") selected in
  map rel_name st.2 ⊆ ticked ∧
  (∀ p, p ∈ ticked →
        p ∈ map rel_name st.2 ∨
        askedDuring w w' (Asked (firstMajorQuestion p) (Confirm false))) ∧
  (∀ q b, askedDuring w w' (Asked (firstMajorQuestion q) (Confirm b)) →
          q ∈ ticked ∧
          ∃ j, byName !! q = Some j ∧ semver_lt (pkg_version j) "1.0.0" = Some true).
Proof.
  intros Hkeyed Hrun Hin. cbn zeta. unfold majorRound in Hrun.
  apply bind_Returned in Hrun as (choices & w0 & Hch & Hrun).
  apply packageChoices_Returned in Hch as (-> & -> & Hall).
  apply bind_Returned in Hrun as (sel & wa & Hask & Hrun).
  apply askCheckboxPlus_Returned in Hask as (rest0 & Hin0 & _ & _ & ->).
  rewrite Hin in Hin0. injection Hin0 as <- <-.
  set (wa := answered majorQuestion (Ticks selected) rest w) in *.
  set (ticked := filter (λ x, x ≠ "all packages") selected) in *.
  assert (grows (λ _, True) w wa) as Hga by (by apply grows_answered).
  pose (Inv := λ (todo : list string) (st : Rounds) (wc : World),
    ∃ done, ticked = done ++ todo ∧ grows (λ _, True) wa wc ∧
      map rel_name st.2 ⊆ done ∧
      (∀ p, p ∈ done →
            p ∈ map rel_name st.2 ∨
            askedDuring wa wc (Asked (firstMajorQuestion p) (Confirm false))) ∧
      (∀ q b, askedDuring wa wc (Asked (firstMajorQuestion q) (Confirm b)) →
              q ∈ done ∧
              ∃ j, byName !! q = Some j ∧ semver_lt (pkg_version j) "1.0.0" = Some true)).
  assert (Inv [] st w') as (done & Hdone & Hg & Hsub & Hevery & Hasked).
  { eapply (forOf_invariant Inv); [exact Hrun | |].
    - exists []. split; [done |]. split; [apply grows_refl |].
      split; [by intros ? ?%elem_of_nil |]. split; [by intros ? ?%elem_of_nil |].
      by intros q b ?%askedDuring_same.
    - clear Hrun. intros x todo st0 wc st1 wc1 (done & Hdone & Hg & Hsub & Hevery & Hasked) Hbody.
      apply bind_Returned in Hbody as (j & w2 & Hget & Hbody).
      apply getPkgJson_Returned in Hget as [Hj ->].
      apply Hkeyed in Hj as Hname.
      apply bind_Returned in Hbody as (b & w2 & Hconf & Hbody).
      assert (st1 = (if b then (Set_delete x st0.1, st0.2 ++ [mkRelease x major]) else st0)
              ∧ wc1 = w2) as [-> ->].
      { destruct b; by apply ret_Returned in Hbody as [<- <-]. }
      clear Hbody.
      assert (map rel_name st0.2 ⊆
                map rel_name (if b then (Set_delete x st0.1, st0.2 ++ [mkRelease x major])
                              else st0).2) as Hmono.
      { destruct b; [| done]. cbn [snd]. rewrite map_app. intros y Hy.
        apply elem_of_app. by left. }
      exists (done ++ [x]). split; [by rewrite <- app_assoc |].
      apply confirmMajorRelease_Returned in Hconf
        as [(Hlt & -> & ->) | (Hlt & r & Hinr & ->)].
      + split; [done |]. cbn [snd]. rewrite map_app. cbn [map rel_name]. split.
        { intros y [Hy | Hy]%elem_of_app; apply elem_of_app; [left; by apply Hsub | by right]. }
        split.
        * intros p [Hp | ->%list_elem_of_singleton]%elem_of_app.
          -- destruct (Hevery p Hp) as [? | ?]; [left | by right].
             apply elem_of_app. by left.
          -- left. apply elem_of_app. right. left.
        * intros q b' Hq. destruct (Hasked q b' Hq) as [Hqd Hqj].
          split; [| done]. apply elem_of_app. by left.
      + set (w2 := answered (firstMajorQuestion (pkg_name j)) (Confirm b) r wc).
        assert (grows (λ _, True) wc w2) as Hg2 by (by apply grows_answered).
        split; [by eapply grows_trans |]. split.
        { destruct b; cbn [snd]; [rewrite map_app |]; intros y Hy.
          - apply elem_of_app in Hy as [Hy | Hy]; apply elem_of_app;
              [left; by apply Hsub | by right].
          - apply elem_of_app. left. by apply Hsub. }
        split.
        * intros p [Hp | ->%list_elem_of_singleton]%elem_of_app.
          -- destruct (Hevery p Hp) as [? | Hd]; [left; by apply Hmono |].
             right. by eapply askedDuring_first; [exact Hg | exact Hg2 |].
          -- destruct b.
             ++ left. cbn [snd]. rewrite map_app. apply elem_of_app. right. left.
             ++ right. eapply askedDuring_second; [exact Hg | exact Hg2 |].
                rewrite <- Hname. apply askedDuring_answered.
        * intros q b' [Hq | Hq]%(askedDuring_split _ _ _ _ _ _ Hg Hg2).
          -- destruct (Hasked q b' Hq) as [Hqd Hqj].
             split; [| done]. apply elem_of_app. by left.
          -- apply askedDuring_answered_inv, Asked_inj in Hq as [Hq _].
             apply firstMajorQuestion_inj in Hq. rewrite Hname in Hq. subst q.
             split; [apply elem_of_app; right; left |]. by exists j. }
  rewrite app_nil_r in Hdone. subst done.
  split; [done |]. split.
  - intros p Hp. destruct (Hevery p Hp) as [? | Hd]; [by left | right].
    by eapply askedDuring_second; [exact Hga | exact Hg |].
  - intros q b [Hq | Hq]%(askedDuring_split _ _ _ _ _ _ Hga Hg); [| by apply Hasked in Hq].
    by apply askedDuring_answered_inv, Asked_inj in Hq as [_ [=]].
Qed.

(** X20. A package gets a major bump exactly when it was ticked at the
    major prompt and its first major was not declined. The first-major
    question is asked only for a ticked package whose version is below
    1.0.0; a ticked package at 1.0.0 or above is major without a question. *)
Theorem major_exactly_for_ticked_and_not_declined
    allPackages packagesToRelease w rels w' selected rest :
  assignBumpTypes semver_lt (pkgJsonsByNameOf allPackages) packagesToRelease w =
    Returned rels w' →
  inputs w = Ticks selected :: rest →
  (∀ p, mkRelease p major ∈ rels ↔
        p ∈ selected ∧ p ≠ "all packages" ∧
        ¬ askedDuring w w' (Asked (firstMajorQuestion p) (Confirm false))) ∧
  (∀ q b, askedDuring w w' (Asked (firstMajorQuestion q) (Confirm b)) →
          q ∈ selected ∧
          ∃ j, pkgJsonsByNameOf allPackages !! q = Some j ∧
               semver_lt (pkg_version j) "1.0.0" = Some true).
Proof.
  intros Hrun Hin.
  assert (∀ k j, pkgJsonsByNameOf allPackages !! k = Some j → pkg_name j = k) as Hkeyed.
  { intros k j Hj. by apply pkgJsonsByNameOf_lookup in Hj as [? _]. }
  unfold assignBumpTypes in Hrun.
  apply bind_Returned in Hrun as (st & w1 & Hmajor & Hrun).
  apply bind_Returned in Hrun as (st2 & w2 & Hminor & Hrun).
  apply bind_Returned in Hrun as (st3 & w3 & Hpatch & Hret).
  apply ret_Returned in Hret as [<- <-].
  pose proof (majorRound_ticked _ _ _ _ _ _ _ _ Hkeyed Hmajor Hin)
    as (Hsub & Hevery & Hasked).
  apply majorRound_Returned in Hmajor as (_ & Hinv);
    [| exact Hkeyed | by intros x ?%elem_of_Set_new].
  destruct Hinv as (_ & _ & _ & _ & Hmaj & Hleft & Hg1 & _ & Hdecl).
  apply minorRound_Returned in Hminor as (chosen & _ & _ & -> & Hg2 & _).
  apply patchRound_Returned in Hpatch as [-> ->]. cbn [fst snd].
  assert (∀ q b, askedDuring w w2 (Asked (firstMajorQuestion q) (Confirm b)) ↔
                 askedDuring w w1 (Asked (firstMajorQuestion q) (Confirm b))) as Hsame.
  { intros q b. split.
    - intros [Hq | Hq]%(askedDuring_split _ _ _ _ _ _ Hg1 Hg2); [done |].
      by apply (askedDuring_grows _ _ _ _ Hg2) in Hq.
    - intros Hq. by eapply askedDuring_first; [exact Hg1 | exact Hg2 |]. }
  assert (∀ p, mkRelease p major ∈
                 (st.2 ++ map (λ x, mkRelease x minor) chosen) ++
                 map (λ x, mkRelease x patch) (filter (λ y, y ∉ chosen) st.1) ↔
               p ∈ map rel_name st.2) as Hin_major.
  { intros p. rewrite !elem_of_app. split.
    - intros [[Hp | Hp] | Hp].
      + apply list_elem_of_fmap. by exists (mkRelease p major).
      + by apply list_elem_of_fmap in Hp as (x & [=] & _).
      + by apply list_elem_of_fmap in Hp as (x & [=] & _).
    - intros Hp. apply list_elem_of_fmap in Hp as (r & -> & Hr). left. left.
      rewrite Forall_forall in Hmaj. specialize (Hmaj r Hr).
      destruct r as [name type]. cbn in *. by subst type. }
  split.
  - intros p. rewrite Hin_major, Hsame. split.
    + intros Hp. apply Hsub in Hp as Hp'.
      apply list_elem_of_filter in Hp' as [Hall Hsel].
      split; [done |]. split; [done |].
      intros Hd. apply Hdecl in Hd as [_ Hd]. specialize (Hd eq_refl).
      cbn [fst snd] in Hleft. rewrite Hleft in Hd.
      by apply list_elem_of_filter in Hd as [Hd _].
    + intros (Hsel & Hall & Hnd).
      destruct (Hevery p) as [? | ?]; [by apply list_elem_of_filter | done | done].
  - intros q b Hq. apply Hsame, Hasked in Hq as [Hq Hj].
    split; [| done]. by apply list_elem_of_filter in Hq as [_ ?].
Qed.

End MajorRound.

Lemma major_exactly_for_ticked_and_not_declined_witness :
  ∃ w',
    assignBumpTypes lt_by_leading_zero (pkgJsonsByNameOf workspace) ["a"; "b"; "c"]
      (session [Ticks ["a"; "b"]; Confirm false; Ticks ["b"]]) =
      Returned [mkRelease "a" major; mkRelease "b" minor; mkRelease "c" patch] w' ∧
    (∀ p, mkRelease p major ∈
            [mkRelease "a" major; mkRelease "b" minor; mkRelease "c" patch] ↔
          p ∈ ["a"; "b"] ∧ p ≠ "all packages" ∧
          ¬ askedDuring (session [Ticks ["a"; "b"]; Confirm false; Ticks ["b"]]) w'
              (Asked (firstMajorQuestion p) (Confirm false))).
Proof.
  eexists. split; [vm_compute; reflexivity |].
  eapply (major_exactly_for_ticked_and_not_declined lt_by_leading_zero workspace
            ["a"; "b"; "c"] (session [Ticks ["a"; "b"]; Confirm false; Ticks ["b"]])).
  - vm_compute. reflexivity.
  - reflexivity.
Defined.

(** ** Who gets a minor bump, and who a patch *)

Section MinorRound.

Variable semver_lt : string → string → option bool.

(** What the major round puts on the transcript: the major prompt, and
    first-major questions. *)
Lemma majorRound_transcript byName pkgs st0 w st w' e :
  majorRound semver_lt byName pkgs st0 w = Returned st w' →
  askedDuring w w' e →
  (∃ sel, e = Asked majorQuestion (Ticks sel)) ∨
  (∃ q b, e = Asked (firstMajorQuestion q) (Confirm b)).
Proof.
  intros Hrun.
  apply (askedDuring_grows
           (λ e, (∃ sel, e = Asked majorQuestion (Ticks sel)) ∨
                 (∃ q b, e = Asked (firstMajorQuestion q) (Confirm b)))).
  unfold majorRound in Hrun.
  apply bind_Returned in Hrun as (choices & w0 & Hch & Hrun).
  apply packageChoices_Returned in Hch as (-> & -> & _).
  apply bind_Returned in Hrun as (sel & wa & Hask & Hrun).
  apply askCheckboxPlus_Returned in Hask as (rest0 & _ & _ & _ & ->).
  eapply grows_trans; [apply grows_answered; left; by exists sel |].
  eapply (forOf_invariant (λ _ _ wc, grows _ _ wc)); [exact Hrun | apply grows_refl |].
  cbn beta. intros x todo s wc s1 wc1 Hg Hbody.
  apply bind_Returned in Hbody as (j & w2 & Hget & Hbody).
  apply getPkgJson_Returned in Hget as [_ ->].
  apply bind_Returned in Hbody as (b & w2 & Hconf & Hbody).
  assert (wc1 = w2) as -> by (destruct b; by apply ret_Returned in Hbody as [_ <-]).
  apply confirmMajorRelease_Returned in Hconf as [(_ & _ & ->) | (_ & r & _ & ->)];
    [done |].
  eapply grows_trans; [exact Hg |]. apply grows_answered. right. by eexists _, _.
Qed.

(** X21. After the major round, the packages that are not major go on:
    when none is left, the minor prompt is not asked and every release is
    major; otherwise the minor prompt is asked once more, a package gets a
    minor bump exactly when it was ticked there, and a patch bump exactly
    when it was left and not ticked there. *)
Theorem minor_for_ticked_patch_for_the_rest allPackages packagesToRelease w rels w' :
  assignBumpTypes semver_lt (pkgJsonsByNameOf allPackages) packagesToRelease w =
    Returned rels w' →
  let left := filter (λ p, mkRelease p major ∉ rels) (Set_new packagesToRelease) in
  (left = [] →
   Forall (λ r, rel_type r = major) rels ∧
   ∀ sel, ¬ askedDuring w w' (Asked minorQuestion (Ticks sel))) ∧
  (left ≠ [] →
   ∃ sel, askedDuring w w' (Asked minorQuestion (Ticks sel)) ∧
     ∀ p, (mkRelease p minor ∈ rels ↔ p ∈ sel ∧ p ≠ "all packages") ∧
          (mkRelease p patch ∈ rels ↔ p ∈ left ∧ ¬ (p ∈ sel ∧ p ≠ "all packages"))).
Proof.
  intros Hrun.
  assert (∀ k j, pkgJsonsByNameOf allPackages !! k = Some j → pkg_name j = k) as Hkeyed.
  { intros k j Hj. by apply pkgJsonsByNameOf_lookup in Hj as [? _]. }
  unfold assignBumpTypes in Hrun.
  apply bind_Returned in Hrun as (st & w1 & Hmajor & Hrun).
  apply bind_Returned in Hrun as (st2 & w2 & Hminor & Hrun).
  apply bind_Returned in Hrun as (st3 & w3 & Hpatch & Hret).
  apply ret_Returned in Hret as [<- <-].
  pose proof (λ sel, majorRound_transcript _ _ _ _ _ _
                       (Asked minorQuestion (Ticks sel)) Hmajor) as Hnominor.
  apply majorRound_Returned in Hmajor as (_ & Hinv);
    [| exact Hkeyed | by intros x ?%elem_of_Set_new].
  destruct Hinv as (_ & _ & _ & _ & Hmaj & Hleft & Hg1 & _).
  cbn [fst snd] in Hleft.
  assert (∀ t l, t ≠ major → mkRelease l t ∉ st.2) as Hother.
  { intros t l Ht Hin. rewrite Forall_forall in Hmaj. by apply Hmaj in Hin. }
  assert (∀ minors patches p,
            mkRelease p major ∈ (st.2 ++ map (λ x, mkRelease x minor) minors) ++
                                map (λ x, mkRelease x patch) patches ↔
            p ∈ map rel_name st.2) as Hin_major.
  { intros minors patches p. rewrite !elem_of_app. split.
    - intros [[Hp | Hp] | Hp].
      + apply list_elem_of_fmap. by exists (mkRelease p major).
      + by apply list_elem_of_fmap in Hp as (x & [=] & _).
      + by apply list_elem_of_fmap in Hp as (x & [=] & _).
    - intros Hp. apply list_elem_of_fmap in Hp as (r & -> & Hr). left. left.
      rewrite Forall_forall in Hmaj. specialize (Hmaj r Hr).
      destruct r as [name type]. cbn in *. by subst type. }
  destruct (decide (st.1 = [])) as [Hnone | Hsome].
  - unfold minorRound in Hminor. rewrite decide_False in Hminor by (rewrite Hnone; simpl; lia).
    apply ret_Returned in Hminor as [<- <-].
    unfold patchRound in Hpatch. rewrite decide_False in Hpatch by (rewrite Hnone; simpl; lia).
    apply ret_Returned in Hpatch as [<- <-]. cbn zeta.
    assert (filter (λ p, mkRelease p major ∉ st.2) (Set_new packagesToRelease) = st.1)
      as Hsame.
    { etrans; [| symmetry; exact Hleft]. apply list_filter_iff. intros p.
      specialize (Hin_major [] [] p). cbn [map] in Hin_major.
      rewrite !app_nil_r in Hin_major. by rewrite Hin_major. }
    rewrite Hsame. split; [| done]. intros _. split; [done |].
    intros sel Hsel. destruct (Hnominor sel Hsel) as [(sel' & Heq) | (q & b & Heq)].
    + apply Asked_inj in Heq as [Heq _]. by vm_compute in Heq.
    + by apply Asked_inj in Heq as [_ [=]].
  - apply minorRound_Returned in Hminor as (chosen & _ & _ & -> & Hg2 & _ & Hsel).
    destruct (Hsel Hsome) as (sel & -> & Hasked).
    apply patchRound_Returned in Hpatch as [-> ->]. cbn [fst snd]. cbn zeta.
    set (chosen := filter (λ x, x ≠ "all packages") sel) in *.
    assert (filter (λ p, mkRelease p major ∉
                           (st.2 ++ map (λ x, mkRelease x minor) chosen) ++
                           map (λ x, mkRelease x patch) (filter (λ y, y ∉ chosen) st.1))
              (Set_new packagesToRelease) = st.1) as Hsame.
    { etrans; [| symmetry; exact Hleft]. apply list_filter_iff. intros p.
      by rewrite Hin_major. }
    rewrite Hsame. split; [done |]. intros _. exists sel. split.
    { by eapply askedDuring_second; [exact Hg1 | exact Hg2 |]. }
    intros p. rewrite !elem_of_app. split.
    + split.
      * intros [[Hp | Hp] | Hp].
        -- by apply Hother in Hp.
        -- apply list_elem_of_fmap in Hp as (x & [= <-] & Hx).
           apply list_elem_of_filter in Hx as [? ?]. by split.
        -- by apply list_elem_of_fmap in Hp as (x & [=] & _).
      * intros [Hp Hall]. left. right. apply list_elem_of_fmap. exists p.
        split; [done |]. by apply list_elem_of_filter.
    + split.
      * intros [[Hp | Hp] | Hp].
        -- by apply Hother in Hp.
        -- by apply list_elem_of_fmap in Hp as (x & [=] & _).
        -- apply list_elem_of_fmap in Hp as (x & [= <-] & Hx).
           apply list_elem_of_filter in Hx as [Hnot Hx]. split; [done |].
           intros [? ?]. apply Hnot. by apply list_elem_of_filter.
      * intros [Hp Hnot]. right. apply list_elem_of_fmap. exists p.
        split; [done |]. apply list_elem_of_filter. split; [| done].
        intros [? ?]%list_elem_of_filter. by apply Hnot.
Qed.

End MinorRound.

Lemma minor_for_ticked_patch_for_the_rest_witness :
  ∃ w',
    assignBumpTypes lt_by_leading_zero (pkgJsonsByNameOf workspace) ["a"; "b"; "c"]
      (session [Ticks ["a"; "b"]; Confirm false; Ticks ["all packages"; "b"]]) =
      Returned [mkRelease "a" major; mkRelease "b" minor; mkRelease "c" patch] w' ∧
    ∃ sel,
      askedDuring
        (session [Ticks ["a"; "b"]; Confirm false; Ticks ["all packages"; "b"]]) w'
        (Asked minorQuestion (Ticks sel)) ∧
      ∀ p, (mkRelease p minor ∈
              [mkRelease "a" major; mkRelease "b" minor; mkRelease "c" patch] ↔
            p ∈ sel ∧ p ≠ "all packages").
Proof.
  eexists. split; [vm_compute; reflexivity |].
  edestruct (minor_for_ticked_patch_for_the_rest lt_by_leading_zero workspace
               ["a"; "b"; "c"]
               (session [Ticks ["a"; "b"]; Confirm false; Ticks ["all packages"; "b"]]))
    as [_ Hleft].
  - vm_compute. reflexivity.
  - destruct Hleft as (sel & Hasked & Hp); [by vm_compute |].
    exists sel. split; [exact Hasked |]. intros p. by destruct (Hp p).
Defined.

(** ** The categories in the document *)

Lemma append_nil_r (s : string) : s +:+ "" = s.
Proof. induction s as [|c s IH]; simpl; [done | by rewrite IH]. Qed.

Lemma concat_has_part (sep : string) (parts : list string) (part : string) :
  part ∈ parts →
  ∃ before after, String.concat sep parts = before +:+ part +:+ after.
Proof.
  induction parts as [|x parts IH]; [by intros ?%elem_of_nil |].
  intros [-> | Hin]%elem_of_cons.
  - destruct parts as [|y parts].
    + exists "", "". cbn [String.concat]. simpl. by rewrite append_nil_r.
    + rewrite concat_cons_cons. by exists "", (sep +:+ String.concat sep (y :: parts)).
  - destruct (IH Hin) as (before & after & Heq).
    destruct parts as [|y parts]; [by apply elem_of_nil in Hin |].
    rewrite concat_cons_cons, Heq.
    exists (x +:+ sep +:+ before), after. by rewrite !append_assoc.
Qed.

(** X22. [writeChangeset] of index.ts writes the line of every category of
    the changeset, whatever its type: the serializer is called without a
    bump type, so nothing is filtered out. The document ends with an empty
    line and the summary. *)
Theorem every_category_is_written (changeset : Changeset) (chk : CategoryOfChange) :
  chk ∈ categoryOfChangeList changeset →
  ∃ before after,
    Write.changesetContents changeset =
      Write.getReleasesSection (releases changeset) +:+ before +:+
      categoryLine chk +:+ after +:+ nl +:+ nl +:+ summary changeset +:+ nl +:+ "  ".
Proof.
  intros Hin. unfold Write.changesetContents, Write.getReleasesAndChangeTypes.
  cbn [andb]. rewrite bool_decide_eq_true_2
    by (destruct (categoryOfChangeList changeset); [by apply elem_of_nil in Hin | done]).
  unfold Write.getChangeTypesSection.
  destruct (concat_has_part nl (map categoryLine (categoryOfChangeList changeset))
              (categoryLine chk)) as (before & after & ->).
  { apply list_elem_of_fmap. by exists chk. }
  exists (" " +:+ nl +:+ "  " +:+ before), (after +:+ nl).
  by rewrite !append_assoc.
Qed.

Lemma every_category_is_written_witness :
  let chk := mkCategoryOfChange "a new flag" "Added (New functionality)" (Some minor) in
  let changeset := mkChangeset "Add the flag" [mkRelease "a" major] [chk] in
  chk ∈ categoryOfChangeList changeset ∧
  ∃ before after,
    Write.changesetContents changeset =
      Write.getReleasesSection (releases changeset) +:+ before +:+
      "- [ Added ] a new flag" +:+ after +:+ nl +:+ nl +:+ "Add the flag" +:+ nl +:+ "  ".
Proof.
  cbn zeta.
  assert (mkCategoryOfChange "a new flag" "Added (New functionality)" (Some minor) ∈
            [mkCategoryOfChange "a new flag" "Added (New functionality)" (Some minor)])
    as Hin by left.
  split; [exact Hin |].
  exact (every_category_is_written
           (mkChangeset "Add the flag" [mkRelease "a" major]
              [mkCategoryOfChange "a new flag" "Added (New functionality)" (Some minor)])
           _ Hin).
Defined.
